(** * AppShell grid core (src/core/TableCore.tsx): a shallow embedding

    The development follows the source file top to bottom: the date codec
    ([parseDateFlexible], [formatDateByPattern]), the helpers, the
    parent/child structure ([computeHasChildren]), and then the closures of
    the [TableCore] component (commit, navigation, indent, paste, drag and
    column reorder), written as transitions on an explicit component state.

    The JavaScript run time the code relies on (strings, [Date], arrays) is
    modelled in [Module JS] after ECMA-262. *)

From Stdlib Require Import ZArith String Ascii List Lia Bool.
From stdpp Require Import base option list sorting gmap strings.

Local Open Scope Z_scope.

(* ================================================================== *)
(** * The JavaScript run time *)
(* ================================================================== *)

Module JS.

(** ** Strings

    A JS string is a sequence of UTF-16 code units.  The model covers the
    strings whose code units are below 256: one [ascii] per code unit. *)

Definition codeUnit (c : ascii) : Z := Z.of_N (N_of_ascii c).

(** White space of [String.prototype.trim] and of the regular expression
    class [\s], restricted to code units below 256: TAB, LF, VT, FF, CR,
    SP and NBSP. *)
Definition isWhiteSpace (c : ascii) : bool :=
  let n := codeUnit c in
  (n =? 9) || (n =? 10) || (n =? 11) || (n =? 12) || (n =? 13)
  || (n =? 32) || (n =? 160).

(** The regular expression class [\d]. *)
Definition isDigit (c : ascii) : bool :=
  let n := codeUnit c in (48 <=? n) && (n <=? 57).

Definition isEmpty (s : string) : bool :=
  match s with EmptyString => true | String _ _ => false end.

Fixpoint trimStart (s : string) : string :=
  match s with
  | EmptyString => EmptyString
  | String c s' => if isWhiteSpace c then trimStart s' else s
  end.

Fixpoint trimEnd (s : string) : string :=
  match s with
  | EmptyString => EmptyString
  | String c s' =>
      let r := trimEnd s' in
      if isWhiteSpace c && isEmpty r then EmptyString else String c r
  end.

(** [String.prototype.trim] *)
Definition trim (s : string) : string := trimEnd (trimStart s).

(** [String.prototype.toLowerCase], on code units below 256: A-Z and the
    Latin-1 capitals (0xC0-0xDE without the multiplication sign 0xD7). *)
Definition lowerUnit (c : ascii) : ascii :=
  let n := codeUnit c in
  if ((65 <=? n) && (n <=? 90))
     || ((192 <=? n) && (n <=? 222) && negb (n =? 215))
  then ascii_of_N (Z.to_N (n + 32)) else c.

Fixpoint toLowerCase (s : string) : string :=
  match s with
  | EmptyString => EmptyString
  | String c s' => String (lowerUnit c) (toLowerCase s')
  end.

(** [stripPrefix p s] is the rest of [s] behind the prefix [p]. *)
Fixpoint stripPrefix (p s : string) : option string :=
  match p with
  | EmptyString => Some s
  | String a p' =>
      match s with
      | EmptyString => None
      | String b s' => if Ascii.eqb a b then stripPrefix p' s' else None
      end
  end.

(** [String.prototype.startsWith] *)
Definition startsWith (s p : string) : bool :=
  match stripPrefix p s with Some _ => true | None => false end.

(** [String.prototype.replace] with a string pattern: the first occurrence
    only.  The replacement texts of the grid are digit strings, so the
    [$]-patterns of the replacement text never occur and are not modelled. *)
Fixpoint replace (pat rep s : string) : string :=
  match stripPrefix pat s with
  | Some rest => rep +:+ rest
  | None =>
      match s with
      | EmptyString => EmptyString
      | String c s' => String c (replace pat rep s')
      end
  end.

(** [n] code units of the filler, repeated as often as needed. *)
Fixpoint fillTo (n : nat) (fill cur : string) : string :=
  match n with
  | O => EmptyString
  | S n' =>
      match cur with
      | String c cur' => String c (fillTo n' fill cur')
      | EmptyString =>
          match fill with
          | String c fill' => String c (fillTo n' fill fill')
          | EmptyString => EmptyString
          end
      end
  end.

(** [String.prototype.padStart] *)
Definition padStart (s : string) (targetLength : nat) (fill : string) : string :=
  fillTo (targetLength - String.length s) fill fill +:+ s.

(** ** Numbers that are integers

    The date codec only handles integers: [Number] of a run of decimal
    digits (a capture of [\d{n}]) and [String] of an integer. *)

Definition digitVal (c : ascii) : Z := codeUnit c - 48.

Fixpoint NumberAcc (acc : Z) (s : string) : Z :=
  match s with
  | EmptyString => acc
  | String c s' => NumberAcc (10 * acc + digitVal c) s'
  end.

(** [Number(s)] for [s] a non-empty run of decimal digits. *)
Definition NumberOfDigits (s : string) : Z := NumberAcc 0 s.

Definition digitChar (d : Z) : ascii := ascii_of_N (Z.to_N (48 + d)).

Fixpoint digitsOf (fuel : nat) (n : Z) (acc : string) : string :=
  match fuel with
  | O => acc
  | S fuel' =>
      let acc' := String (digitChar (n mod 10)) acc in
      if n <? 10 then acc' else digitsOf fuel' (n / 10) acc'
  end.

(** [String(n)] for an integer [n] (below 1e21, where JS prints all the
    digits): the decimal digits, with a minus sign for negatives. *)
Definition ToString (n : Z) : string :=
  let a := Z.abs n in
  let ds := digitsOf (S (Z.to_nat (Z.log2 a))) a EmptyString in
  if n <? 0 then String "-"%char ds else ds.

(** ** Date (ECMA-262, 21.4.1)

    A time value is a number of milliseconds or NaN.  The component works
    in local time only (constructor from local fields, local getters); the
    model takes the offset of the local zone as constant, so that
    [LocalTime (UTC t) = t], and keeps time values in local time.  What is
    stated of a date is therefore stated of its local fields (year, month,
    day, hour, minute), which the constructor and the getters exchange;
    the distance between two instants across a change of the offset
    (daylight saving time) is outside the model. *)

Inductive Date : Type :=
  | InvalidDate
  | DateValue (t : Z).

Definition msPerDay : Z := 86400000.
Definition msPerHour : Z := 3600000.
Definition msPerMinute : Z := 60000.
Definition msPerSecond : Z := 1000.

Definition Day (t : Z) : Z := t / msPerDay.

Definition DayFromYear (y : Z) : Z :=
  365 * (y - 1970) + (y - 1969) / 4 - (y - 1901) / 100 + (y - 1601) / 400.

Definition isLeapYear (y : Z) : bool :=
  ((y mod 4 =? 0) && negb (y mod 100 =? 0)) || (y mod 400 =? 0).

(** Day within the year of the first day of month [m] (0 = January). *)
Definition monthStart (leap : bool) (m : Z) : Z :=
  let l := if leap then 1 else 0 in
  match m with
  | 0 => 0
  | 1 => 31
  | 2 => 59 + l
  | 3 => 90 + l
  | 4 => 120 + l
  | 5 => 151 + l
  | 6 => 181 + l
  | 7 => 212 + l
  | 8 => 243 + l
  | 9 => 273 + l
  | 10 => 304 + l
  | _ => 334 + l
  end.

(** [MakeDay (year, month, date)]: months outside 0..11 carry into the
    year, and the date is added as a plain day offset, so it may run over
    the end of the month. *)
Definition MakeDay (year month date : Z) : Z :=
  let ym := year + month / 12 in
  let mn := month mod 12 in
  DayFromYear ym + monthStart (isLeapYear ym) mn + date - 1.

Definition MakeTime (hour min sec ms : Z) : Z :=
  hour * msPerHour + min * msPerMinute + sec * msPerSecond + ms.

Definition MakeDate (day time : Z) : Z := day * msPerDay + time.

Definition TimeClip (t : Z) : Date :=
  if Z.abs t >? 8640000000000000 then InvalidDate else DateValue t.

(** [MakeFullYear]: the constructor reads the years 0..99 as 1900..1999. *)
Definition MakeFullYear (y : Z) : Z :=
  if (0 <=? y) && (y <=? 99) then 1900 + y else y.

(** [new Date(year, month, date, hours, minutes, seconds)], as a local
    time value: the fields are local ones, and the conversion to UTC that
    the constructor ends with is the identity in the model. *)
Definition newDate (year month date hours minutes seconds : Z) : Date :=
  TimeClip
    (MakeDate (MakeDay (MakeFullYear year) month date)
              (MakeTime hours minutes seconds 0)).

(** [isNaN(+d)] *)
Definition isNaNDate (d : Date) : bool :=
  match d with InvalidDate => true | DateValue _ => false end.

(** Year, month (0..11) and day of the month of a day number (the inverse
    of [MakeDay] on calendar dates), computed on 400-year eras that start
    on the first of March. *)
Definition civilFromDay (n : Z) : Z * Z * Z :=
  let z := n + 719468 in
  let era := z / 146097 in
  let doe := z mod 146097 in
  let yoe := (doe - doe / 1460 + doe / 36524 - doe / 146096) / 365 in
  let doy := doe - (365 * yoe + yoe / 4 - yoe / 100) in
  let mp := (5 * doy + 2) / 153 in
  let d := doy - (153 * mp + 2) / 5 + 1 in
  let m := if mp <? 10 then mp + 3 else mp - 9 in
  let y := yoe + era * 400 + (if m <=? 2 then 1 else 0) in
  (y, m - 1, d).

Definition YearFromTime (t : Z) : Z := fst (fst (civilFromDay (Day t))).
Definition MonthFromTime (t : Z) : Z := snd (fst (civilFromDay (Day t))).
Definition DateFromTime (t : Z) : Z := snd (civilFromDay (Day t)).
Definition HourFromTime (t : Z) : Z := (t / msPerHour) mod 24.
Definition MinFromTime (t : Z) : Z := (t / msPerMinute) mod 60.

(** The getters are only called on valid dates in the component (every
    [Date] it holds went through the [isNaN] test); on an invalid date JS
    gives NaN, written [None]. *)
Definition getFullYear (d : Date) : option Z :=
  match d with InvalidDate => None | DateValue t => Some (YearFromTime t) end.
Definition getMonth (d : Date) : option Z :=
  match d with InvalidDate => None | DateValue t => Some (MonthFromTime t) end.
Definition getDate (d : Date) : option Z :=
  match d with InvalidDate => None | DateValue t => Some (DateFromTime t) end.
Definition getHours (d : Date) : option Z :=
  match d with InvalidDate => None | DateValue t => Some (HourFromTime t) end.
Definition getMinutes (d : Date) : option Z :=
  match d with InvalidDate => None | DateValue t => Some (MinFromTime t) end.

End JS.

Local Open Scope string_scope.
Local Open Scope Z_scope.
Local Open Scope list_scope.

(* ================================================================== *)
(** * Date handling: parsing and formatting by the chosen pattern *)
(* ================================================================== *)

(** ** The three regular expressions of [parseDateFlexible]

    Each matcher scans the trimmed text from left to right and returns the
    capture groups.  The expressions are anchored and every bounded
    repetition ([\d{1,2}], [\s+]) is followed by a character of another
    class, so the longest repetition is the only one that can lead to a
    match: scanning without backtracking gives the matches of the regular
    expression. *)

(** [\d{n}]: the captured text and the rest *)
Fixpoint reDigits (n : nat) (s : string) : option (string * string) :=
  match n with
  | O => Some (EmptyString, s)
  | S n' =>
      match s with
      | String c s' =>
          if JS.isDigit c
          then match reDigits n' s' with
               | Some (g, rest) => Some (String c g, rest)
               | None => None
               end
          else None
      | EmptyString => None
      end
  end.

(** [\d{1,2}] *)
Definition reDigits1to2 (s : string) : option (string * string) :=
  match reDigits 2 s with
  | Some r => Some r
  | None => reDigits 1 s
  end.

(** a literal character *)
Definition reChar (c : ascii) (s : string) : option string :=
  match s with
  | String c' s' => if Ascii.eqb c c' then Some s' else None
  | EmptyString => None
  end.

(** [[T\s]] *)
Definition reTOrSpace (s : string) : option string :=
  match s with
  | String c s' =>
      if Ascii.eqb c "T" || JS.isWhiteSpace c then Some s' else None
  | EmptyString => None
  end.

(** [\s+] *)
Definition reSpaces (s : string) : option string :=
  match s with
  | String c s' => if JS.isWhiteSpace c then Some (JS.trimStart s') else None
  | EmptyString => None
  end.

(** The groups 1 to 6 of
    [/^(\d{4})-(\d{2})-(\d{2})(?:[T\s](\d{2}):(\d{2})(?::(\d{2}))?)?$/];
    a group that did not take part is [None] (undefined). *)
Definition matchIso (t : string)
  : option (string * string * string
            * option string * option string * option string) :=
  '(g1, r) ← reDigits 4 t;
  r ← reChar "-" r;
  '(g2, r) ← reDigits 2 r;
  r ← reChar "-" r;
  '(g3, r) ← reDigits 2 r;
  if JS.isEmpty r then Some (g1, g2, g3, None, None, None) else
  r ← reTOrSpace r;
  '(g4, r) ← reDigits 2 r;
  r ← reChar ":" r;
  '(g5, r) ← reDigits 2 r;
  if JS.isEmpty r then Some (g1, g2, g3, Some g4, Some g5, None) else
  r ← reChar ":" r;
  '(g6, r) ← reDigits 2 r;
  if JS.isEmpty r then Some (g1, g2, g3, Some g4, Some g5, Some g6) else None.

(** The groups 1 to 5 of
    [/^(\d{1,2})SEP(\d{1,2})SEP(\d{4})(?:\s+(\d{1,2}):(\d{2}))?$/],
    the shape shared by the dot and the slash expressions. *)
Definition matchSeparated (sep : ascii) (t : string)
  : option (string * string * string * option string * option string) :=
  '(g1, r) ← reDigits1to2 t;
  r ← reChar sep r;
  '(g2, r) ← reDigits1to2 r;
  r ← reChar sep r;
  '(g3, r) ← reDigits 4 r;
  if JS.isEmpty r then Some (g1, g2, g3, None, None) else
  r ← reSpaces r;
  '(g4, r) ← reDigits1to2 r;
  r ← reChar ":" r;
  '(g5, r) ← reDigits 2 r;
  if JS.isEmpty r then Some (g1, g2, g3, Some g4, Some g5) else None.

(** [/^(\d{1,2})\.(\d{1,2})\.(\d{4})(?:\s+(\d{1,2}):(\d{2}))?$/] *)
Definition matchDot : string → _ := matchSeparated ".".

(** [/^(\d{1,2})\/(\d{1,2})\/(\d{4})(?:\s+(\d{1,2}):(\d{2}))?$/] *)
Definition matchSlash : string → _ := matchSeparated "/".

(** [g != null ? Number(g) : 0] *)
Definition numberOr0 (g : option string) : Z :=
  match g with
  | Some s => JS.NumberOfDigits s
  | None => 0
  end.

(** [isNaN(+d) ? null : d] *)
Definition validOrNull (d : JS.Date) : option JS.Date :=
  if JS.isNaNDate d then None else Some d.

(** [!patternHint] *)
Definition noHint (patternHint : option string) : bool :=
  match patternHint with
  | None => true
  | Some p => JS.isEmpty p
  end.

(** The day and the month of a slash date [a/b/yyyy], as [(dd, mm)]. *)
Definition slashDayMonth (a b : Z) (patternHint : option string) : Z * Z :=
  if (a >? 12) && (b <=? 12) then (a, b)
  else if (b >? 12) && (a <=? 12) then (b, a)
  else
    let prefersDMY :=
      JS.startsWith (JS.toLowerCase (default "" patternHint)) "dd" in
    if prefersDMY || noHint patternHint then (a, b) else (b, a).

(** [parseDateFlexible(input, patternHint)]; [None] is [null]. *)
Definition parseDateFlexible (input : string) (patternHint : option string)
  : option JS.Date :=
  if JS.isEmpty input then None else
  let t := JS.trim input in
  if JS.isEmpty t then None else
  match matchIso t with
  | Some (i1, i2, i3, i4, i5, i6) =>
      let yyyy := JS.NumberOfDigits i1 in
      let mm := JS.NumberOfDigits i2 in
      let dd := JS.NumberOfDigits i3 in
      let hh := numberOr0 i4 in
      let mi := numberOr0 i5 in
      let ss := numberOr0 i6 in
      validOrNull (JS.newDate yyyy (mm - 1) dd hh mi ss)
  | None =>
  match matchDot t with
  | Some (d1, d2, d3, d4, d5) =>
      let dd := JS.NumberOfDigits d1 in
      let mm := JS.NumberOfDigits d2 in
      let yyyy := JS.NumberOfDigits d3 in
      let hh := numberOr0 d4 in
      let mi := numberOr0 d5 in
      validOrNull (JS.newDate yyyy (mm - 1) dd hh mi 0)
  | None =>
  match matchSlash t with
  | Some (s1, s2, s3, s4, s5) =>
      let a := JS.NumberOfDigits s1 in
      let b := JS.NumberOfDigits s2 in
      let yyyy := JS.NumberOfDigits s3 in
      let hh := numberOr0 s4 in
      let mi := numberOr0 s5 in
      let '(dd, mm) := slashDayMonth a b patternHint in
      validOrNull (JS.newDate yyyy (mm - 1) dd hh mi 0)
  | None => None
  end end end.

(** [String(n)] of a getter's result; NaN prints as "NaN". *)
Definition stringOfNumber (n : option Z) : string :=
  match n with
  | Some z => JS.ToString z
  | None => "NaN"
  end.

(** [formatDateByPattern(date, pattern)] *)
Definition formatDateByPattern (date : option JS.Date) (pattern : string)
  : string :=
  match date with
  | None => ""
  | Some date =>
      let yyyy := JS.getFullYear date in
      let mm :=
        JS.padStart (stringOfNumber ((λ m, m + 1) <$> JS.getMonth date)) 2 "0" in
      let dd := JS.padStart (stringOfNumber (JS.getDate date)) 2 "0" in
      JS.replace "dd" dd
        (JS.replace "mm" mm
           (JS.replace "yyyy" (stringOfNumber yyyy) pattern))
  end.

(** [formatDatetimeByPattern(date, pattern)] *)
Definition formatDatetimeByPattern (date : option JS.Date) (pattern : string)
  : string :=
  match date with
  | None => ""
  | Some d =>
      let base := formatDateByPattern date pattern in
      let hh := JS.padStart (stringOfNumber (JS.getHours d)) 2 "0" in
      let mi := JS.padStart (stringOfNumber (JS.getMinutes d)) 2 "0" in
      base +:+ " " +:+ hh +:+ ":" +:+ mi
  end.

(* ================================================================== *)
(** * Helpers and data model (src/core/TableTypes.ts) *)
(* ================================================================== *)

(** [clamp(n, a, b) = Math.max(a, Math.min(b, n))] *)
Definition clamp (n a b : Z) : Z := Z.max a (Z.min b n).

(** [arr[i]] for a number [i]; [None] is [undefined]. *)
Definition arrayGet {A} (arr : list A) (i : Z) : option A :=
  if i <? 0 then None else arr !! Z.to_nat i.

Inductive ColumnType : Type := text | number | date | datetime.

(** [ColumnDef]: the fields the core reads. *)
Record ColumnDef : Type := {
  col_key : string;
  col_title : string;
  col_type : option ColumnType;
  col_width : option Z
}.

Definition isNumericColumn (col : ColumnDef) : bool :=
  match col_type col with Some number => true | _ => false end.

Definition isDateColumn (col : ColumnDef) : bool :=
  match col_type col with
  | Some date | Some datetime => true
  | _ => false
  end.

Definition isDatetimeColumn (col : ColumnDef) : bool :=
  match col_type col with Some datetime => true | _ => false end.

(** A [cells] object lives in the heap and is reached through its
    location; row objects and arrays are never written to after they are
    built (the code only assigns to [row.cells[key]]), so they are values. *)
Abbreviation loc := nat (only parsing).

(** [RowData] *)
Record RowData : Type := {
  row_id : string;
  row_indent : Z;
  row_cells : loc
}.

(** [Selection] *)
Record Selection : Type := { r1 : Z; c1 : Z; r2 : Z; c2 : Z }.

Definition NOSEL : Selection := {| r1 := -1; c1 := -1; r2 := -1; c2 := -1 |}.

Definition hasSel (s : Selection) : bool :=
  (r1 s >=? 0) && (c1 s >=? 0) && (r2 s >=? 0) && (c2 s >=? 0).

Inductive EditMode : Type := replace | caretEnd | selectAll.

Record EditingState : Type := {
  edit_r : Z;
  edit_c : Z;
  edit_mode : EditMode;
  edit_seed : option string
}.

Record DragState : Type := {
  drag_active : bool;
  drag_dragging : bool;
  drag_r0 : Z;
  drag_c0 : Z;
  drag_x0 : Z;
  drag_y0 : Z
}.

Definition DRAG_THRESHOLD_PX : Z := 4.

Inductive Direction : Type := down | up | right | left.

(* ================================================================== *)
(** * Parent/child (structure only) *)
(* ================================================================== *)

(** [while (stack.length && stack[stack.length - 1].indent >= indent)
    stack.pop()]; the top of the stack is the head of the list. *)
Fixpoint popWhile {E} (indentOf : E → Z) (indent : Z) (stack : list E)
  : list E :=
  match stack with
  | [] => []
  | e :: stack' =>
      if indentOf e >=? indent then popWhile indentOf indent stack'
      else stack
  end.

(** The loop of [computeHasChildren], from row [i] on. *)
Fixpoint computeHasChildrenLoop (i : nat) (rows : list RowData)
    (childrenMap : gmap nat (list nat)) (stack : list (nat * Z))
  : gmap nat (list nat) :=
  match rows with
  | [] => childrenMap
  | row :: rows' =>
      let indent := row_indent row in
      let stack := popWhile snd indent stack in
      let parentIdx : Z :=
        match stack with
        | top :: _ => Z.of_nat (fst top)
        | [] => -1
        end in
      let childrenMap :=
        if parentIdx >=? 0 then
          let p := Z.to_nat parentIdx in
          <[p := default [] (childrenMap !! p) ++ [i]]> childrenMap
        else childrenMap in
      computeHasChildrenLoop (S i) rows' childrenMap ((i, indent) :: stack)
  end.

(** [computeHasChildren(rows)] *)
Definition computeHasChildren (rows : list RowData) : gset nat :=
  dom (computeHasChildrenLoop 0 rows ∅ []).

(** An entry of the stack of [visibleRowIndices]. *)
Record VisEntry : Type := {
  vis_id : string;
  vis_indent : Z;
  vis_collapsed : bool
}.

(** The loop of [visibleRowIndices], from row [i] on; the indices pushed
    to [result] come out in the order they are pushed. *)
Fixpoint visibleLoop (hasChildren : gset nat) (collapsed : gset string)
    (i : nat) (rows : list RowData) (st : list VisEntry) : list nat :=
  match rows with
  | [] => []
  | row :: rows' =>
      let st := popWhile vis_indent (row_indent row) st in
      let hidden := existsb vis_collapsed st in
      let isParent := bool_decide (i ∈ hasChildren) in
      let st' :=
        {| vis_id := row_id row;
           vis_indent := row_indent row;
           vis_collapsed :=
             if isParent then bool_decide (row_id row ∈ collapsed)
             else false |} :: st in
      let result := visibleLoop hasChildren collapsed (S i) rows' st' in
      if hidden then result else i :: result
  end.

(** [visibleRowIndices], a memo of [data], [hasChildren], [collapsed] *)
Definition visibleRowIndices (data : list RowData) (collapsed : gset string)
  : list nat :=
  visibleLoop (computeHasChildren data) collapsed 0 data [].

(** [Set]-toggle of [toggleCollapsed] *)
Definition toggleCollapsed (rowId : string) (prev : gset string)
  : gset string :=
  if bool_decide (rowId ∈ prev) then prev ∖ {[rowId]} else prev ∪ {[rowId]}.

(** [visible.indexOf(r)] *)
Fixpoint indexOfFrom (i : Z) (visible : list nat) (r : Z) : Z :=
  match visible with
  | [] => -1
  | v :: visible' =>
      if Z.of_nat v =? r then i else indexOfFrom (i + 1) visible' r
  end.

Definition indexOf (visible : list nat) (r : Z) : Z := indexOfFrom 0 visible r.

(** The result of [nextPosAfter]; a row read from [visible[vi]] is
    [None] when the read gives [undefined]. *)
Record Pos : Type := { pos_r : option Z; pos_c : Z }.

(** [nextPosAfter(r, c, dir)], over the [visibleRowIndices] and the number
    of columns of the current render. *)
Definition nextPosAfter (visible : list nat) (colsLength : Z)
    (r c : Z) (dir : Direction) : Pos :=
  let idxInVisible := indexOf visible r in
  let colMax := colsLength - 1 in
  let visibleAt (vi : Z) : option Z := Z.of_nat <$> arrayGet visible vi in
  let len := Z.of_nat (length visible) in
  if idxInVisible =? -1 then
    let nearest :=
      match find (λ v, Z.of_nat v >=? r) visible with
      | Some v => Some v
      | None => arrayGet visible (len - 1)
      end in
    {| pos_r := Some (default r (Z.of_nat <$> nearest)); pos_c := c |}
  else
    let vi := idxInVisible in
    let vi := match dir with down => Z.min (len - 1) (vi + 1) | _ => vi end in
    let vi := match dir with up => Z.max 0 (vi - 1) | _ => vi end in
    match dir with
    | right =>
        let cc := c + 1 in
        if cc >? colMax then
          let vi := Z.min (len - 1) (vi + 1) in
          {| pos_r := visibleAt vi; pos_c := 0 |}
        else {| pos_r := Some r; pos_c := cc |}
    | left =>
        let cc := c - 1 in
        if cc <? 0 then
          let vi := Z.max 0 (vi - 1) in
          {| pos_r := visibleAt vi; pos_c := colMax |}
        else {| pos_r := Some r; pos_c := cc |}
    | _ => {| pos_r := visibleAt vi; pos_c := c |}
    end.

(** The column part of the drop handler of a header cell: the column at
    [from] is taken out and put back at [idx] ([splice]). *)
Definition moveColumn (cols : list ColumnDef) (from idx : nat)
  : option (list ColumnDef) :=
  match cols !! from with
  | Some moved =>
      let next := take from cols ++ drop (S from) cols in
      Some (take idx next ++ moved :: drop idx next)
  | None => None
  end.

(** [arr.findIndex((c) => c.key === k)] *)
Fixpoint findIndexFrom (i : Z) (arr : list ColumnDef) (k : string) : Z :=
  match arr with
  | [] => -1
  | c :: arr' =>
      if String.eqb (col_key c) k then i else findIndexFrom (i + 1) arr' k
  end.

(** [mapIndex(old)] of the drop handler: the place in the new order of the
    key that the old order has at [old].  Reading the key of a column that
    does not exist throws ([None]). *)
Definition mapIndex (cols : list ColumnDef) (from idx : nat) (old : Z)
  : option Z :=
  arr ← moveColumn cols from idx;
  c ← arrayGet cols old;
  Some (findIndexFrom 0 arr (col_key c)).

(** The selection update of the drop handler. *)
Definition remapSelection (cols : list ColumnDef) (from idx : nat)
    (s : Selection) : option Selection :=
  if negb (hasSel s) then Some s else
  c1' ← mapIndex cols from idx (c1 s);
  c2' ← mapIndex cols from idx (c2 s);
  Some {| r1 := r1 s; r2 := r2 s; c1 := c1'; c2 := c2' |}.

(* ================================================================== *)
(** * The component *)
(* ================================================================== *)

Section TableCore.

(** The numbers of JS are IEEE doubles; the core makes them from text by
    [Number(raw)] only and never computes with them, so the type and the
    conversion are left open. *)
Context {num : Type}.
Variable Number : string → num.

(** [parseClipboard] of src/core/utils/clipboard: the rows and cells of a
    clipboard text. *)
Variable parseClipboard : string → list (list string).

(** [CellValue = string | number | null | undefined] *)
Inductive CellValue : Type :=
  | VString (s : string)
  | VNumber (n : num)
  | VNull
  | VUndefined.

(** The [cells] object of a row, [Record<string, CellValue>]; a key that
    is not there reads as [undefined]. *)
Abbreviation Cells := (gmap string CellValue).

Definition cellGet (cells : Cells) (k : string) : CellValue :=
  default VUndefined (cells !! k).

(** The heap of [cells] objects; a new object gets the next location. *)
Abbreviation Heap := (list Cells).

(** [TableCoreCellCommit] *)
Record TableCoreCellCommit : Type := {
  commit_row : Z;
  commit_col : Z;
  commit_columnKey : string;
  commit_prev : CellValue;
  commit_next : CellValue
}.

(** The calls that the handlers make to the host's callbacks [onChange],
    [onCellCommit] and [onEditingChange].  The fourth callback,
    [onSelectionChange], is not called by a handler: an effect calls it
    after every render that has a new selection object; that effect is
    not modelled, and the log says nothing about it. *)
Inductive Event : Type :=
  | OnChange (next : list RowData)
  | OnCellCommit (evt : TableCoreCellCommit)
  | OnEditingChange (editing : option (Z * Z)).

(** The props that the modelled handlers read; an optional callback is
    [true] when the host supplied it.  ([onChange] is not optional;
    [onSelectionChange] is read by the selection effect only.) *)
Record Props : Type := {
  dateFormat : string;
  onCellCommit : bool;
  onEditingChange : bool
}.

(** The state and the refs of the component, between two events (then the
    refs [dataRef], [colsRef], [selRef], [editingRef] hold the state they
    mirror), together with the heap and the log of the calls made to the
    host so far (oldest first). *)
Record State : Type := {
  cols : list ColumnDef;
  data : list RowData;
  heap : Heap;
  sel : Selection;
  editing : option EditingState;
  collapsed : gset string;
  editSessionIdRef : Z;
  lastCommittedSessionRef : option Z;
  dragState : option DragState;
  log : list Event
}.

Definition setData (v : list RowData) (s : State) : State :=
  {| cols := cols s; data := v; heap := heap s; sel := sel s;
     editing := editing s; collapsed := collapsed s;
     editSessionIdRef := editSessionIdRef s;
     lastCommittedSessionRef := lastCommittedSessionRef s;
     dragState := dragState s; log := log s |}.

Definition setHeap (v : Heap) (s : State) : State :=
  {| cols := cols s; data := data s; heap := v; sel := sel s;
     editing := editing s; collapsed := collapsed s;
     editSessionIdRef := editSessionIdRef s;
     lastCommittedSessionRef := lastCommittedSessionRef s;
     dragState := dragState s; log := log s |}.

Definition setSel (v : Selection) (s : State) : State :=
  {| cols := cols s; data := data s; heap := heap s; sel := v;
     editing := editing s; collapsed := collapsed s;
     editSessionIdRef := editSessionIdRef s;
     lastCommittedSessionRef := lastCommittedSessionRef s;
     dragState := dragState s; log := log s |}.

Definition setCols (v : list ColumnDef) (s : State) : State :=
  {| cols := v; data := data s; heap := heap s; sel := sel s;
     editing := editing s; collapsed := collapsed s;
     editSessionIdRef := editSessionIdRef s;
     lastCommittedSessionRef := lastCommittedSessionRef s;
     dragState := dragState s; log := log s |}.

Definition setEditing (v : option EditingState) (s : State) : State :=
  {| cols := cols s; data := data s; heap := heap s; sel := sel s;
     editing := v; collapsed := collapsed s;
     editSessionIdRef := editSessionIdRef s;
     lastCommittedSessionRef := lastCommittedSessionRef s;
     dragState := dragState s; log := log s |}.

Definition setCollapsed (v : gset string) (s : State) : State :=
  {| cols := cols s; data := data s; heap := heap s; sel := sel s;
     editing := editing s; collapsed := v;
     editSessionIdRef := editSessionIdRef s;
     lastCommittedSessionRef := lastCommittedSessionRef s;
     dragState := dragState s; log := log s |}.

Definition setEditSessionIdRef (v : Z) (s : State) : State :=
  {| cols := cols s; data := data s; heap := heap s; sel := sel s;
     editing := editing s; collapsed := collapsed s;
     editSessionIdRef := v;
     lastCommittedSessionRef := lastCommittedSessionRef s;
     dragState := dragState s; log := log s |}.

Definition setLastCommittedSessionRef (v : option Z) (s : State) : State :=
  {| cols := cols s; data := data s; heap := heap s; sel := sel s;
     editing := editing s; collapsed := collapsed s;
     editSessionIdRef := editSessionIdRef s;
     lastCommittedSessionRef := v;
     dragState := dragState s; log := log s |}.

Definition setDragState (v : option DragState) (s : State) : State :=
  {| cols := cols s; data := data s; heap := heap s; sel := sel s;
     editing := editing s; collapsed := collapsed s;
     editSessionIdRef := editSessionIdRef s;
     lastCommittedSessionRef := lastCommittedSessionRef s;
     dragState := v; log := log s |}.

(** A call to a callback of the host. *)
Definition emit (e : Event) (s : State) : State :=
  {| cols := cols s; data := data s; heap := heap s; sel := sel s;
     editing := editing s; collapsed := collapsed s;
     editSessionIdRef := editSessionIdRef s;
     lastCommittedSessionRef := lastCommittedSessionRef s;
     dragState := dragState s; log := log s ++ [e] |}.

Variable props : Props.

(** [setAndPropagate(next)]: [setData(next); onChange(next)] *)
Definition setAndPropagate (next : list RowData) (s : State) : State :=
  emit (OnChange next) (setData next s).

(** [setEditingBoth(next)] *)
Definition setEditingBoth (next : option EditingState) (s : State) : State :=
  let s := setEditing next s in
  if onEditingChange props
  then emit (OnEditingChange ((λ e, (edit_r e, edit_c e)) <$> next)) s
  else s.

(** What a host that holds the array [rows] reads from it: the rows with
    the content of their [cells] objects. *)
Definition viewRows (h : Heap) (rows : list RowData)
  : list (string * Z * Cells) :=
  map (λ row, (row_id row, row_indent row, default ∅ (h !! row_cells row)))
      rows.

(** [dataRef.current[r]?.cells?.[key]] *)
Definition storedValue (s : State) (r : Z) (k : string) : CellValue :=
  match arrayGet (data s) r with
  | Some row => cellGet (default ∅ (heap s !! row_cells row)) k
  | None => VUndefined
  end.

(** ** Commit *)

(** The value stored for the text [raw] in a cell of column [col]: the
    coercion of [commitCellValue]. *)
Definition commitValue (col : ColumnDef) (raw : string) : CellValue :=
  if isNumericColumn col then
    if String.eqb raw "" then VString "" else VNumber (Number raw)
  else if isDateColumn col then
    let d := parseDateFlexible raw (Some (dateFormat props)) in
    match d with
    | Some _ =>
        if isDatetimeColumn col
        then VString (formatDatetimeByPattern d (dateFormat props))
        else VString (formatDateByPattern d (dateFormat props))
    | None => VString raw
    end
  else VString raw.

(** [commitCellValue(r, c, raw, { endEdit })].  [None]: the handler threw
    a TypeError ([col.key] of a column that does not exist).  The [map]
    over the rows builds a new array in which row [r], if there is one, is
    a new object with a new [cells] object. *)
Definition commitCellValue (r c : Z) (raw : string) (endEdit : bool)
    (s : State) : option State :=
  col ← arrayGet (cols s) c;
  let prev := storedValue s r (col_key col) in
  let parsed := commitValue col raw in
  let '(next, h) :=
    match arrayGet (data s) r with
    | Some row =>
        let cells' :=
          <[col_key col := parsed]> (default ∅ (heap s !! row_cells row)) in
        let row' :=
          {| row_id := row_id row; row_indent := row_indent row;
             row_cells := length (heap s) |} in
        (<[Z.to_nat r := row']> (data s), heap s ++ [cells'])
    | None => (data s, heap s)
    end in
  let s := setAndPropagate next (setHeap h s) in
  let evt :=
    {| commit_row := r; commit_col := c; commit_columnKey := col_key col;
       commit_prev := prev; commit_next := parsed |} in
  let s := if onCellCommit props then emit (OnCellCommit evt) s else s in
  Some (if endEdit then setEditingBoth None s else s).

(** [commitEdit(r, c, val)] *)
Definition commitEdit (r c : Z) (val : string) (s : State) : option State :=
  let sessionId := editSessionIdRef s in
  if bool_decide (lastCommittedSessionRef s = Some sessionId) then Some s
  else
    commitCellValue r c val true
      (setLastCommittedSessionRef (Some sessionId) s).

(** [startEditing(next)].  The text of the editor ([editValue]) is not
    part of the state: the editor's handlers pass it to [commitEdit]. *)
Definition startEditing (next : EditingState) (s : State) : option State :=
  let s := setEditSessionIdRef (editSessionIdRef s + 1) s in
  let s := setLastCommittedSessionRef None s in
  _ ← arrayGet (cols s) (edit_c next);
  Some (setEditingBoth (Some next) s).

(** ** Indent *)

(** [indentRow(rowIdx, delta)] *)
Definition indentRow (rowIdx delta : Z) (s : State) : State :=
  let arr := data s in
  match arrayGet arr rowIdx with
  | None => s
  | Some cur =>
      let prevIndent :=
        if rowIdx >? 0
        then default 0 (row_indent <$> arrayGet arr (rowIdx - 1))
        else 0 in
      let maxIndent := prevIndent + 1 in
      let desired := row_indent cur + delta in
      let nextIndent := clamp desired 0 maxIndent in
      if nextIndent =? row_indent cur then s
      else
        setAndPropagate
          (<[Z.to_nat rowIdx :=
               {| row_id := row_id cur; row_indent := nextIndent;
                  row_cells := row_cells cur |}]> arr)
          s
  end.

(** The Alt+ArrowLeft / Alt+ArrowRight branch of the key handler. *)
Definition onKeyAltArrow (arrowRight : bool) (s : State) : State :=
  match editing s with
  | Some _ => s
  | None =>
      let curSel := sel s in
      if negb (hasSel curSel) then s
      else indentRow (r1 curSel) (if arrowRight then 1 else -1) s
  end.

(** ** Pointer drag *)

(** [onCellMouseDown(r, c)] *)
Definition onCellMouseDown (r c clientX clientY : Z) (s : State) : State :=
  setDragState
    (Some {| drag_active := true; drag_dragging := false;
             drag_r0 := r; drag_c0 := c;
             drag_x0 := clientX; drag_y0 := clientY |})
    (setSel {| r1 := r; r2 := r; c1 := c; c2 := c |} s).

(** [onMouseMove(ev)]; [target] is the cell under the pointer, read from
    the [data-r] and [data-c] attributes of the closest [data-cell]
    element.  The source computes [dy] from [clientX]. *)
Definition onMouseMove (clientX : Z) (target : option (Z * Z)) (s : State)
  : State :=
  match dragState s with
  | None => s
  | Some d =>
      if negb (drag_active d) then s else
      let dx := clientX - drag_x0 d in
      let dy := clientX - drag_y0 d in
      let d :=
        if negb (drag_dragging d)
           && (dx * dx + dy * dy >? DRAG_THRESHOLD_PX * DRAG_THRESHOLD_PX)
        then {| drag_active := drag_active d; drag_dragging := true;
                drag_r0 := drag_r0 d; drag_c0 := drag_c0 d;
                drag_x0 := drag_x0 d; drag_y0 := drag_y0 d |}
        else d in
      let s := setDragState (Some d) s in
      if negb (drag_dragging d) then s else
      match target with
      | None => s
      | Some (r, c) =>
          setSel {| r1 := Z.min r (drag_r0 d); r2 := Z.max r (drag_r0 d);
                    c1 := Z.min c (drag_c0 d); c2 := Z.max c (drag_c0 d) |}
                 s
      end
  end.

(** ** Column reorder *)

(** The drop handler of the header cell at [idx], for the dragged column
    index [from] (an index of the current columns, as [onDragStart] wrote
    it). *)
Definition onDrop (from idx : nat) (s : State) : option State :=
  if bool_decide (from = idx) then Some s else
  next ← moveColumn (cols s) from idx;
  sel' ← remapSelection (cols s) from idx (sel s);
  Some (setSel sel' (setCols next s)).

(** ** Paste *)

(** The value stored by [onPaste] for the clipboard cell [raw]. *)
Definition pasteValue (col : ColumnDef) (raw : string) : CellValue :=
  if isNumericColumn col then
    if String.eqb raw "" then VString "" else VNumber (Number raw)
  else if isDateColumn col then
    let d := parseDateFlexible raw (Some (dateFormat props)) in
    match d with
    | Some _ =>
        if isDatetimeColumn col
        then VString (formatDatetimeByPattern d (dateFormat props))
        else VString (formatDateByPattern d (dateFormat props))
    | None => VString raw
    end
  else VString raw.

(** [obj[key] = v] on the [cells] object at [l] *)
Definition heapWrite (h : Heap) (l : loc) (k : string) (v : CellValue)
  : Heap :=
  match h !! l with
  | Some cells => <[l := <[k := v]> cells]> h
  | None => h
  end.

(** The inner loop of [onPaste] over the cells [line] of one clipboard
    row, from target column [cc] on, writing into the [cells] object at
    [l]. *)
Fixpoint pasteLine (cs : list ColumnDef) (l : loc) (cc : Z)
    (line : list string) (h : Heap) : option Heap :=
  match line with
  | [] => Some h
  | raw :: line' =>
      if cc >=? Z.of_nat (length cs) then Some h
      else
        col ← arrayGet cs cc;
        pasteLine cs l (cc + 1) line'
          (heapWrite h l (col_key col) (pasteValue col raw))
  end.

(** The outer loop of [onPaste]: [visibleFrom] are the entries
    [visibleRowIndices[startIdxInVisible + i]], i = 0, 1, ... *)
Fixpoint pasteLines (cs : list ColumnDef) (next : list RowData) (c1 : Z)
    (visibleFrom : list nat) (m : list (list string)) (h : Heap)
  : option Heap :=
  match m with
  | [] => Some h
  | line :: m' =>
      match visibleFrom with
      | [] => Some h
      | visRow :: visibleFrom' =>
          row ← next !! visRow;
          h ← pasteLine cs (row_cells row) c1 line h;
          pasteLines cs next c1 visibleFrom' m' h
      end
  end.

(** [onPaste(e)] with the clipboard text [txt] *)
Definition onPaste (txt : string) (s : State) : option State :=
  let curSel := sel s in
  if negb (hasSel curSel) then Some s else
  if JS.isEmpty txt then Some s else
  let m := parseClipboard txt in
  let next := data s in
  let visible := visibleRowIndices (data s) (collapsed s) in
  let startIdxInVisible := indexOf visible (r1 curSel) in
  if startIdxInVisible =? -1 then Some s else
  h ← pasteLines (cols s) next (c1 curSel)
        (drop (Z.to_nat startIdxInVisible) visible) m (heap s);
  Some (setAndPropagate next (setHeap h s)).

End TableCore.

(* ================================================================== *)
(** * Notions of the specification *)
(* ================================================================== *)

(** ** Calendar dates *)

(** The number of days of month [m] (1 = January) of year [y]. *)
Definition daysInMonth (y m : Z) : Z :=
  match m with
  | 1 | 3 | 5 | 7 | 8 | 10 | 12 => 31
  | 4 | 6 | 9 | 11 => 30
  | 2 => if JS.isLeapYear y then 29 else 28
  | _ => 0
  end.

(** Day [d] of month [m] of year [y] exists in the calendar. *)
Definition existingDate (y m d : Z) : bool :=
  (1 <=? m) && (m <=? 12) && (1 <=? d) && (d <=? daysInMonth y m).

(** [h:mi:s] is a time of the day. *)
Definition existingTime (h mi s : Z) : bool :=
  (0 <=? h) && (h <? 24) && (0 <=? mi) && (mi <? 60) && (0 <=? s) && (s <? 60).

(** The pattern hint begins with the day token [dd], in either case. *)
Definition beginsWithDayToken (p : string) : bool :=
  match p with
  | String a (String b _) =>
      (Ascii.eqb a "d" || Ascii.eqb a "D") && (Ascii.eqb b "d" || Ascii.eqb b "D")
  | _ => false
  end.

(** The resolution of a slash date [a/b/yyyy] in the words of the
    specification, as [(day, month)]: the one component above 12 is the
    day; otherwise the hint decides, day first when it begins with the day
    token and month first when it does not; without a hint (none, or the
    empty text) the day comes first. *)
Definition specSlashDayMonth (a b : Z) (patternHint : option string) : Z * Z :=
  if (a >? 12) && negb (b >? 12) then (a, b)
  else if (b >? 12) && negb (a >? 12) then (b, a)
  else
    match patternHint with
    | None | Some "" => (a, b)
    | Some p => if beginsWithDayToken p then (a, b) else (b, a)
    end.

(** The fields that a date text shows, read off its components in one of
    the three accepted shapes: (year, month 1..12, day, hour, minute,
    second); [None] when the text has none of the shapes. *)
Definition fieldsOf (input : string) (patternHint : option string)
  : option (Z * Z * Z * Z * Z * Z) :=
  let t := JS.trim input in
  match matchIso t with
  | Some (i1, i2, i3, i4, i5, i6) =>
      Some (JS.NumberOfDigits i1, JS.NumberOfDigits i2, JS.NumberOfDigits i3,
            numberOr0 i4, numberOr0 i5, numberOr0 i6)
  | None =>
  match matchDot t with
  | Some (d1, d2, d3, d4, d5) =>
      Some (JS.NumberOfDigits d3, JS.NumberOfDigits d2, JS.NumberOfDigits d1,
            numberOr0 d4, numberOr0 d5, 0)
  | None =>
  match matchSlash t with
  | Some (s1, s2, s3, s4, s5) =>
      let '(dd, mm) :=
        specSlashDayMonth (JS.NumberOfDigits s1) (JS.NumberOfDigits s2)
                          patternHint in
      Some (JS.NumberOfDigits s3, mm, dd, numberOr0 s4, numberOr0 s5, 0)
  | None => None
  end end end.

(** The calendar date (year, month 1..12, day) that a date text denotes. *)
Definition calendarOf (input : string) (patternHint : option string)
  : option (Z * Z * Z) :=
  (λ f, match f with (y, m, d, _, _, _) => (y, m, d) end)
    <$> fieldsOf input patternHint.

(** The calendar date of an instant, by the getters of [Date]. *)
Definition calendarOfDate (d : JS.Date) : option (Z * Z * Z) :=
  y ← JS.getFullYear d;
  m ← JS.getMonth d;
  dd ← JS.getDate d;
  Some (y, m + 1, dd).

(** The patterns that the documentation of [dateFormat] names, and the
    day-first slash pattern of the specification. *)
Definition knownPatterns : list string :=
  ["dd.mm.yyyy"; "mm/dd/yyyy"; "yyyy-mm-dd"; "dd/mm/yyyy"].

(** Two and four decimal digits, as [padStart(2, "0")] and [String] print
    the months and days, and the years from 1000 to 9999. *)
Definition twoDigits (n : Z) : string :=
  String (JS.digitChar (n / 10)) (String (JS.digitChar (n mod 10)) "").

Definition fourDigits (n : Z) : string :=
  String (JS.digitChar (n / 1000))
    (String (JS.digitChar (n / 100 mod 10))
       (String (JS.digitChar (n / 10 mod 10))
          (String (JS.digitChar (n mod 10)) ""))).

(** Every code unit of the text is a decimal digit. *)
Fixpoint allDigits (s : string) : bool :=
  match s with
  | EmptyString => true
  | String c s' => JS.isDigit c && allDigits s'
  end.

(* ================================================================== *)
(** * Facts about the run time *)
(* ================================================================== *)

(** [lia] with the divisions and remainders by constants spelled out. *)
Ltac zdiv := Z.div_mod_to_equations; lia.

(** [f] holds on the [n] integers from [start] on. *)
Fixpoint allFrom (f : Z → bool) (start : Z) (n : nat) : bool :=
  match n with
  | O => true
  | S n' => f start && allFrom f (start + 1) n'
  end.

(** A check over a range that computes gives the property on the range. *)
Lemma allFrom_spec (f : Z → bool) (n : nat) (start : Z) :
  allFrom f start n = true →
  ∀ z, start <= z < start + Z.of_nat n → f z = true.
Proof.
  revert start. induction n as [|n IH]; intros start H z Hz; [lia|].
  cbn [allFrom] in H. apply andb_prop in H as [H0 H].
  destruct (decide (z = start)) as [->|Hne]; [done|].
  apply (IH (start + 1) H). lia.
Qed.

Lemma forallb_range (f : Z → bool) (n : Z) :
  allFrom f 0 (Z.to_nat n) = true → ∀ z, 0 <= z < n → f z = true.
Proof. intros H z Hz. apply (allFrom_spec f _ 0 H). lia. Qed.

Lemma lowerUnit_is_d (c : ascii) :
  Ascii.eqb "d" (JS.lowerUnit c) = Ascii.eqb c "d" || Ascii.eqb c "D".
Proof.
  destruct c as [[] [] [] [] [] [] [] []]; reflexivity.
Qed.

Lemma startsWith_dd (p : string) :
  JS.startsWith (JS.toLowerCase p) "dd" = beginsWithDayToken p.
Proof.
  destruct p as [|a [|b p]]; [reflexivity| |];
    unfold JS.startsWith; cbn [JS.toLowerCase JS.stripPrefix];
    rewrite !lowerUnit_is_d; cbn [beginsWithDayToken].
  - destruct (Ascii.eqb a "d" || Ascii.eqb a "D"); reflexivity.
  - destruct (Ascii.eqb a "d" || Ascii.eqb a "D"); [|reflexivity].
    destruct (Ascii.eqb b "d" || Ascii.eqb b "D"); reflexivity.
Qed.

(** The day/month resolution of the code is the one the specification
    words. *)
Lemma slashDayMonth_spec (a b : Z) (patternHint : option string) :
  slashDayMonth a b patternHint = specSlashDayMonth a b patternHint.
Proof.
  unfold slashDayMonth, specSlashDayMonth.
  replace (b <=? 12) with (negb (b >? 12)) by lia.
  replace (a <=? 12) with (negb (a >? 12)) by lia.
  destruct (a >? 12), (b >? 12); simpl; try reflexivity;
    destruct patternHint as [[|c p]|]; try reflexivity;
    rewrite startsWith_dd; simpl; rewrite orb_false_r; reflexivity.
Qed.

(** ** The calendar of [Date] *)

Lemma DayFromYear_era (y q : Z) :
  JS.DayFromYear (y + 400 * q) = JS.DayFromYear y + 146097 * q.
Proof. unfold JS.DayFromYear. zdiv. Qed.

Lemma isLeapYear_era (y q : Z) :
  JS.isLeapYear (y + 400 * q) = JS.isLeapYear y.
Proof.
  unfold JS.isLeapYear.
  replace ((y + 400 * q) mod 4) with (y mod 4) by zdiv.
  replace ((y + 400 * q) mod 100) with (y mod 100) by zdiv.
  replace ((y + 400 * q) mod 400) with (y mod 400) by zdiv.
  reflexivity.
Qed.

Lemma MakeDay_era (y q m d : Z) :
  0 <= m < 12 →
  JS.MakeDay (y + 400 * q) m d = JS.MakeDay y m d + 146097 * q.
Proof.
  intros Hm. unfold JS.MakeDay.
  rewrite (Z.div_small m 12) by lia.
  rewrite !Z.add_0_r, DayFromYear_era, isLeapYear_era. lia.
Qed.

Lemma civilFromDay_era (n q : Z) :
  JS.civilFromDay (n + 146097 * q) =
  match JS.civilFromDay n with (y, m, d) => (y + 400 * q, m, d) end.
Proof.
  unfold JS.civilFromDay.
  replace (n + 146097 * q + 719468) with (n + 719468 + q * 146097) by lia.
  rewrite Z.div_add, Z.mod_add by lia.
  cbv zeta. f_equal. f_equal. lia.
Qed.

(** One era of 400 years, checked date by date: the dates are numbered
    [k = 416 y + 32 m + d]. *)
Definition civilCheck (y m d : Z) : bool :=
  negb (existingDate y m d) ||
  match JS.civilFromDay (JS.MakeDay y (m - 1) d) with
  | (y', m', d') => (y' =? y) && (m' =? m - 1) && (d' =? d)
  end.

Definition civilCheckAt (k : Z) : bool :=
  civilCheck (k / 416) (k / 32 mod 13) (k mod 32).

Lemma civilCheck_era :
  allFrom civilCheckAt 0 (Z.to_nat 166400) = true.
Proof. vm_compute. reflexivity. Qed.

Lemma existingDate_bounds (y m d : Z) :
  existingDate y m d = true → 1 <= m <= 12 ∧ 1 <= d <= 31.
Proof.
  unfold existingDate, daysInMonth. intros H.
  repeat (apply andb_prop in H as [H ?]).
  assert (1 <= m <= 12) as Hm by lia. split; [done|].
  assert (m = 1 ∨ m = 2 ∨ m = 3 ∨ m = 4 ∨ m = 5 ∨ m = 6 ∨ m = 7 ∨ m = 8
          ∨ m = 9 ∨ m = 10 ∨ m = 11 ∨ m = 12) as Hc by lia.
  destruct (JS.isLeapYear y);
    repeat (destruct Hc as [->|Hc]); try subst m; lia.
Qed.

Lemma existingDate_era (y q m d : Z) :
  existingDate (y + 400 * q) m d = existingDate y m d.
Proof.
  unfold existingDate, daysInMonth. rewrite isLeapYear_era. reflexivity.
Qed.

Lemma civilCheck_ok (y m d : Z) :
  0 <= y < 400 → 0 <= m < 13 → 0 <= d < 32 → civilCheck y m d = true.
Proof.
  intros Hy Hm Hd.
  assert (0 <= 416 * y + 32 * m + d < 166400) as Hk by lia.
  pose proof (forallb_range civilCheckAt 166400 civilCheck_era _ Hk) as Hc.
  unfold civilCheckAt in Hc.
  replace ((416 * y + 32 * m + d) / 416) with y in Hc by zdiv.
  replace ((416 * y + 32 * m + d) / 32 mod 13) with m in Hc by zdiv.
  replace ((416 * y + 32 * m + d) mod 32) with d in Hc by zdiv.
  exact Hc.
Qed.

Lemma civilCheck_true (y m d : Z) :
  civilCheck y m d = true → existingDate y m d = true →
  JS.civilFromDay (JS.MakeDay y (m - 1) d) = (y, m - 1, d).
Proof.
  unfold civilCheck. intros H Hex. rewrite Hex in H.
  change (negb true) with false in H. rewrite orb_false_l in H.
  destruct (JS.civilFromDay (JS.MakeDay y (m - 1) d)) as [[y' m'] d'].
  apply andb_prop in H as [H Hd'].
  apply andb_prop in H as [Hy' Hm'].
  apply Z.eqb_eq in Hy', Hm', Hd'. by subst.
Qed.

(** [MakeDay] and the getters agree on every date of the calendar. *)
Lemma civilFromDay_MakeDay (y m d : Z) :
  existingDate y m d = true →
  JS.civilFromDay (JS.MakeDay y (m - 1) d) = (y, m - 1, d).
Proof.
  intros Hex.
  pose proof (existingDate_bounds _ _ _ Hex) as [Hm Hd].
  set (r := y mod 400). set (q := y / 400).
  assert (y = r + 400 * q) as Hy by (subst r q; zdiv).
  assert (0 <= r < 400) as Hr by (subst r; zdiv).
  clearbody r q. subst y.
  rewrite existingDate_era in Hex.
  rewrite MakeDay_era, civilFromDay_era by lia.
  rewrite (civilCheck_true r m d); [reflexivity| |exact Hex].
  apply civilCheck_ok; lia.
Qed.

Lemma monthStart_bounds (l : bool) (m : Z) : 0 <= JS.monthStart l m <= 335.
Proof.
  unfold JS.monthStart.
  destruct l, m as [|p|p]; try lia;
    repeat (destruct p as [p|p|]; try lia).
Qed.

Lemma MakeDay_bounds (y m d : Z) :
  0 <= y <= 9999 → -1 <= m <= 98 → 0 <= d <= 99 →
  -720000 <= JS.MakeDay y m d <= 2940000.
Proof.
  intros Hy Hm Hd. unfold JS.MakeDay.
  pose proof (monthStart_bounds (JS.isLeapYear (y + m / 12)) (m mod 12)).
  unfold JS.DayFromYear. zdiv.
Qed.

Lemma MakeFullYear_bounds (y : Z) :
  0 <= y <= 9999 → 0 <= JS.MakeFullYear y <= 9999.
Proof.
  unfold JS.MakeFullYear. intros.
  destruct ((0 <=? y) && (y <=? 99)) eqn:E; lia.
Qed.

(** Fields of at most four and two digits never leave the range of time
    values: the constructor gives a valid date for them, whatever they
    are. *)
Lemma newDate_valid (y m d hh mi ss : Z) :
  0 <= y <= 9999 → 0 <= m <= 99 → 0 <= d <= 99 →
  0 <= hh <= 99 → 0 <= mi <= 99 → 0 <= ss <= 99 →
  JS.newDate y (m - 1) d hh mi ss =
  JS.DateValue
    (JS.MakeDate (JS.MakeDay (JS.MakeFullYear y) (m - 1) d)
                 (JS.MakeTime hh mi ss 0)).
Proof.
  intros Hy Hm Hd Hh Hmi Hs. unfold JS.newDate, JS.TimeClip.
  pose proof (MakeFullYear_bounds y Hy) as Hfy.
  pose proof (MakeDay_bounds (JS.MakeFullYear y) (m - 1) d Hfy
                ltac:(lia) Hd) as Hday.
  unfold JS.MakeDate, JS.MakeTime, JS.msPerDay, JS.msPerHour, JS.msPerMinute,
    JS.msPerSecond in *.
  destruct (Z.gtb_spec
    (Z.abs (JS.MakeDay (JS.MakeFullYear y) (m - 1) d * 86400000
            + (hh * 3600000 + mi * 60000 + ss * 1000 + 0)))
    8640000000000000); [lia|reflexivity].
Qed.

Lemma Day_MakeDate (day hh mi ss : Z) :
  existingTime hh mi ss = true →
  JS.Day (JS.MakeDate day (JS.MakeTime hh mi ss 0)) = day.
Proof.
  unfold existingTime. intros H.
  repeat (apply andb_prop in H as [H ?]).
  unfold JS.Day, JS.MakeDate, JS.MakeTime, JS.msPerDay, JS.msPerHour,
    JS.msPerMinute, JS.msPerSecond.
  zdiv.
Qed.

(** The getters give back the fields of an existing date and time. *)
Lemma calendarOfDate_newDate (y m d hh mi ss : Z) :
  100 <= y <= 9999 → existingDate y m d = true →
  existingTime hh mi ss = true →
  calendarOfDate (JS.newDate y (m - 1) d hh mi ss) = Some (y, m, d).
Proof.
  intros Hy Hex Ht.
  pose proof (existingDate_bounds _ _ _ Hex) as [Hm Hd].
  assert (0 <= hh <= 99 ∧ 0 <= mi <= 99 ∧ 0 <= ss <= 99) as (Hh & Hmi & Hs).
  { unfold existingTime in Ht.
    repeat (apply andb_prop in Ht as [Ht ?]). lia. }
  rewrite newDate_valid by lia.
  assert (JS.MakeFullYear y = y) as ->.
  { unfold JS.MakeFullYear.
    destruct ((0 <=? y) && (y <=? 99)) eqn:E; lia. }
  unfold calendarOfDate, JS.getFullYear, JS.getMonth, JS.getDate,
    JS.YearFromTime, JS.MonthFromTime, JS.DateFromTime.
  rewrite Day_MakeDate, civilFromDay_MakeDay by done.
  simpl. do 3 f_equal. lia.
Qed.

(** ** Digits *)

Lemma digitChar_isDigit (k : Z) :
  0 <= k <= 9 → JS.isDigit (JS.digitChar k) = true.
Proof.
  intros Hk.
  assert (k = 0 ∨ k = 1 ∨ k = 2 ∨ k = 3 ∨ k = 4 ∨ k = 5 ∨ k = 6 ∨ k = 7
          ∨ k = 8 ∨ k = 9) as Hc by lia.
  repeat (destruct Hc as [->|Hc]); try subst k; reflexivity.
Qed.

Lemma digitVal_digitChar (k : Z) :
  0 <= k <= 9 → JS.digitVal (JS.digitChar k) = k.
Proof.
  intros Hk.
  assert (k = 0 ∨ k = 1 ∨ k = 2 ∨ k = 3 ∨ k = 4 ∨ k = 5 ∨ k = 6 ∨ k = 7
          ∨ k = 8 ∨ k = 9) as Hc by lia.
  repeat (destruct Hc as [->|Hc]); try subst k; reflexivity.
Qed.

Lemma isDigit_digitVal (c : ascii) :
  JS.isDigit c = true → 0 <= JS.digitVal c <= 9.
Proof. unfold JS.isDigit, JS.digitVal. lia. Qed.

(** A digit is no white space and none of the separators. *)
Lemma isDigit_not_space (c : ascii) :
  JS.isDigit c = true → JS.isWhiteSpace c = false.
Proof. unfold JS.isDigit, JS.isWhiteSpace. lia. Qed.

Lemma eqb_not_digit (a c : ascii) :
  JS.isDigit a = false → JS.isDigit c = true → Ascii.eqb a c = false.
Proof.
  intros Ha Hc. destruct (Ascii.eqb_spec a c); [congruence|reflexivity].
Qed.

Lemma allDigits_twoDigits (n : Z) :
  0 <= n <= 99 → allDigits (twoDigits n) = true.
Proof.
  intros Hn. unfold twoDigits. cbn [allDigits].
  rewrite !digitChar_isDigit by zdiv. reflexivity.
Qed.

Lemma allDigits_fourDigits (n : Z) :
  0 <= n <= 9999 → allDigits (fourDigits n) = true.
Proof.
  intros Hn. unfold fourDigits. cbn [allDigits].
  rewrite !digitChar_isDigit by zdiv. reflexivity.
Qed.

Lemma Number_twoDigits (n : Z) :
  0 <= n <= 99 → JS.NumberOfDigits (twoDigits n) = n.
Proof.
  intros Hn. unfold twoDigits, JS.NumberOfDigits. cbn [JS.NumberAcc].
  rewrite !digitVal_digitChar by zdiv. zdiv.
Qed.

Lemma Number_fourDigits (n : Z) :
  0 <= n <= 9999 → JS.NumberOfDigits (fourDigits n) = n.
Proof.
  intros Hn. unfold fourDigits, JS.NumberOfDigits. cbn [JS.NumberAcc].
  rewrite !digitVal_digitChar by zdiv. zdiv.
Qed.

Lemma NumberAcc_bounds (s : string) (acc : Z) :
  allDigits s = true → 0 <= acc →
  acc * 10 ^ Z.of_nat (String.length s) <= JS.NumberAcc acc s
  < (acc + 1) * 10 ^ Z.of_nat (String.length s).
Proof.
  revert acc. induction s as [|c s IH]; intros acc Hs Hacc.
  - simpl. lia.
  - cbn [allDigits] in Hs. apply andb_prop in Hs as [Hc Hs].
    pose proof (isDigit_digitVal c Hc) as Hv.
    cbn [JS.NumberAcc String.length].
    specialize (IH (10 * acc + JS.digitVal c) Hs ltac:(lia)).
    rewrite Nat2Z.inj_succ, Z.pow_succ_r by lia.
    assert (0 < 10 ^ Z.of_nat (String.length s)) by (apply Z.pow_pos_nonneg; lia).
    nia.
Qed.

Lemma NumberOfDigits_bounds (s : string) :
  allDigits s = true →
  0 <= JS.NumberOfDigits s < 10 ^ Z.of_nat (String.length s).
Proof.
  intros Hs. pose proof (NumberAcc_bounds s 0 Hs ltac:(lia)).
  unfold JS.NumberOfDigits. lia.
Qed.

(** [String(y)] of a year of four digits, and the padded month and day:
    checked number by number. *)
Lemma ToString_fourDigits (y : Z) :
  1000 <= y <= 9999 → JS.ToString y = fourDigits y.
Proof.
  intros Hy.
  assert (allFrom (λ n, (n <? 1000) || String.eqb (JS.ToString n) (fourDigits n))
            0 (Z.to_nat 10000) = true) as Hall
    by (vm_compute; reflexivity).
  pose proof (forallb_range _ _ Hall y ltac:(lia)) as H.
  cbv beta in H. apply orb_prop in H as [H|H]; [lia|].
  by apply String.eqb_eq.
Qed.

Lemma padStart_twoDigits (n : Z) :
  0 <= n <= 99 → JS.padStart (JS.ToString n) 2 "0" = twoDigits n.
Proof.
  intros Hn.
  assert (allFrom
            (λ n, String.eqb (JS.padStart (JS.ToString n) 2 "0") (twoDigits n))
            0 (Z.to_nat 100) = true) as Hall
    by (vm_compute; reflexivity).
  pose proof (forallb_range _ _ Hall n ltac:(lia)) as H.
  by apply String.eqb_eq.
Qed.

(** ** The matchers *)

Lemma reDigits_inv (n : nat) (s g r : string) :
  reDigits n s = Some (g, r) →
  String.length g = n ∧ allDigits g = true ∧ s = g +:+ r.
Proof.
  revert s g r. induction n as [|n IH]; intros s g r H.
  - simpl in H. by simplify_eq.
  - destruct s as [|c s]; [done|]. cbn [reDigits] in H.
    destruct (JS.isDigit c) eqn:Hc; [|done].
    destruct (reDigits n s) as [[g' r']|] eqn:Hr; [|done].
    simplify_eq. destruct (IH _ _ _ Hr) as (Hl & Hd & ->).
    cbn [String.length allDigits]. rewrite Hc, Hd, Hl. done.
Qed.

Lemma reDigits1to2_inv (s g r : string) :
  reDigits1to2 s = Some (g, r) →
  (1 <= String.length g <= 2)%nat ∧ allDigits g = true ∧ s = g +:+ r.
Proof.
  unfold reDigits1to2. intros H.
  destruct (reDigits 2 s) as [[g' r']|] eqn:H2.
  - simplify_eq. apply reDigits_inv in H2 as (? & ? & ?). split; [lia|done].
  - apply reDigits_inv in H as (? & ? & ?). split; [lia|done].
Qed.

(** A capture of [\d{lo,hi}]. *)
Definition digitGroup (lo hi : nat) (g : string) : Prop :=
  (lo <= String.length g <= hi)%nat ∧ allDigits g = true.

Definition optDigitGroup (lo hi : nat) (g : option string) : Prop :=
  ∀ s, g = Some s → digitGroup lo hi s.

Lemma digitGroup_bounds (lo hi : nat) (g : string) :
  digitGroup lo hi g → 0 <= JS.NumberOfDigits g < 10 ^ Z.of_nat hi.
Proof.
  intros [Hl Hd]. pose proof (NumberOfDigits_bounds g Hd) as Hb.
  assert (10 ^ Z.of_nat (String.length g) <= 10 ^ Z.of_nat hi)
    by (apply Z.pow_le_mono_r; lia).
  lia.
Qed.

Lemma optDigitGroup_bounds (lo hi : nat) (g : option string) :
  optDigitGroup lo hi g → 0 <= numberOr0 g < 10 ^ Z.of_nat hi.
Proof.
  intros H. destruct g as [s|]; simpl.
  - eapply digitGroup_bounds, H. reflexivity.
  - split; [lia|]. apply Z.pow_pos_nonneg; lia.
Qed.

(** Inversion of a successful match, step by step. *)
Ltac inv_match H :=
  repeat first
    [ apply bind_Some in H as ([? ?] & ? & H); cbv beta iota in H
    | apply bind_Some in H as (? & ? & H); cbv beta iota in H
    | match type of H with
      | (if ?b then _ else _) = Some _ => destruct b eqn:?
      end ];
  simplify_eq.

Ltac digit_groups :=
  repeat match goal with
  | H : reDigits _ _ = Some _ |- _ => apply reDigits_inv in H as (? & ? & ?)
  | H : reDigits1to2 _ = Some _ |- _ =>
      apply reDigits1to2_inv in H as (? & ? & ?)
  end;
  unfold optDigitGroup, digitGroup;
  repeat split; intros; simplify_eq; try done; try lia.

Lemma matchIso_inv (t g1 g2 g3 : string) (g4 g5 g6 : option string) :
  matchIso t = Some (g1, g2, g3, g4, g5, g6) →
  digitGroup 4 4 g1 ∧ digitGroup 2 2 g2 ∧ digitGroup 2 2 g3
  ∧ optDigitGroup 2 2 g4 ∧ optDigitGroup 2 2 g5 ∧ optDigitGroup 2 2 g6.
Proof.
  unfold matchIso. intros H. inv_match H; digit_groups.
Qed.

Lemma matchSeparated_inv (sep : ascii) (t g1 g2 g3 : string)
    (g4 g5 : option string) :
  matchSeparated sep t = Some (g1, g2, g3, g4, g5) →
  digitGroup 1 2 g1 ∧ digitGroup 1 2 g2 ∧ digitGroup 4 4 g3
  ∧ optDigitGroup 1 2 g4 ∧ optDigitGroup 2 2 g5.
Proof.
  unfold matchSeparated. intros H. inv_match H; digit_groups.
Qed.

Lemma specSlashDayMonth_cases (a b : Z) (hint : option string) :
  specSlashDayMonth a b hint = (a, b) ∨ specSlashDayMonth a b hint = (b, a).
Proof.
  unfold specSlashDayMonth.
  destruct ((a >? 12) && negb (b >? 12)); [by left|].
  destruct ((b >? 12) && negb (a >? 12)); [by right|].
  destruct hint as [[|c p]|]; [by left| |by left].
  destruct (beginsWithDayToken (String c p)); [by left|by right].
Qed.

(** The fields of a text of one of the three shapes have at most four
    digits (the year) and two digits (the others). *)
Lemma fieldsOf_bounds (input : string) (hint : option string)
    (y m d hh mi ss : Z) :
  fieldsOf input hint = Some (y, m, d, hh, mi, ss) →
  0 <= y <= 9999 ∧ 0 <= m <= 99 ∧ 0 <= d <= 99
  ∧ 0 <= hh <= 99 ∧ 0 <= mi <= 99 ∧ 0 <= ss <= 99.
Proof.
  unfold fieldsOf, matchDot, matchSlash. intros H.
  destruct (matchIso (JS.trim input))
    as [[[[[[i1 i2] i3] i4] i5] i6]|] eqn:Hiso.
  { apply matchIso_inv in Hiso as (H1 & H2 & H3 & H4 & H5 & H6).
    apply digitGroup_bounds in H1, H2, H3.
    apply optDigitGroup_bounds in H4, H5, H6.
    simplify_eq. change (10 ^ Z.of_nat 4) with 10000 in *.
    change (10 ^ Z.of_nat 2) with 100 in *. lia. }
  destruct (matchSeparated "." (JS.trim input))
    as [[[[[d1 d2] d3] d4] d5]|] eqn:Hdot.
  { apply matchSeparated_inv in Hdot as (H1 & H2 & H3 & H4 & H5).
    apply digitGroup_bounds in H1, H2, H3.
    apply optDigitGroup_bounds in H4, H5.
    simplify_eq. change (10 ^ Z.of_nat 4) with 10000 in *.
    change (10 ^ Z.of_nat 2) with 100 in *. lia. }
  destruct (matchSeparated "/" (JS.trim input))
    as [[[[[s1 s2] s3] s4] s5]|] eqn:Hsl; [|done].
  apply matchSeparated_inv in Hsl as (H1 & H2 & H3 & H4 & H5).
  apply digitGroup_bounds in H1, H2, H3.
  apply optDigitGroup_bounds in H4, H5.
  change (10 ^ Z.of_nat 4) with 10000 in *.
  change (10 ^ Z.of_nat 2) with 100 in *.
  destruct (specSlashDayMonth_cases (JS.NumberOfDigits s1)
              (JS.NumberOfDigits s2) hint) as [E|E];
    rewrite E in H; simplify_eq; lia.
Qed.

(** The parser builds its date from the fields of the text: it is
    [new Date] of them, whatever they are. *)
Lemma parseDateFlexible_fields (input : string) (hint : option string) :
  parseDateFlexible input hint =
  match fieldsOf input hint with
  | Some (y, m, d, hh, mi, ss) =>
      validOrNull (JS.newDate y (m - 1) d hh mi ss)
  | None => None
  end.
Proof.
  unfold parseDateFlexible, fieldsOf.
  destruct input as [|c input]; [reflexivity|].
  cbn [JS.isEmpty].
  destruct (JS.trim (String c input)) as [|c' t] eqn:Ht; [reflexivity|].
  cbn [JS.isEmpty].
  destruct (matchIso (String c' t)) as [[[[[[i1 i2] i3] i4] i5] i6]|];
    [reflexivity|].
  destruct (matchDot (String c' t)) as [[[[[d1 d2] d3] d4] d5]|];
    [reflexivity|].
  destruct (matchSlash (String c' t)) as [[[[[s1 s2] s3] s4] s5]|];
    [|reflexivity].
  rewrite slashDayMonth_spec.
  destruct (specSlashDayMonth _ _ hint) as [dd mm]. reflexivity.
Qed.

(** Every text of one of the three shapes parses to a date: the test
    [isNaN(+d)] never fails. *)
Lemma parseDateFlexible_shape_not_null (input : string) (hint : option string)
    (y m d hh mi ss : Z) :
  fieldsOf input hint = Some (y, m, d, hh, mi, ss) →
  parseDateFlexible input hint =
  Some (JS.DateValue
          (JS.MakeDate (JS.MakeDay (JS.MakeFullYear y) (m - 1) d)
                       (JS.MakeTime hh mi ss 0))).
Proof.
  intros H. rewrite parseDateFlexible_fields, H.
  apply fieldsOf_bounds in H as (? & ? & ? & ? & ? & ?).
  rewrite newDate_valid by done. reflexivity.
Qed.

Lemma append_cons (c : ascii) (s t : string) :
  String c s +:+ t = String c (s +:+ t).
Proof. reflexivity. Qed.

Lemma append_nil (t : string) : "" +:+ t = t.
Proof. reflexivity. Qed.

(** A text of the slash shape has neither the ISO nor the dot shape. *)
Lemma matchSlash_only (t : string) g :
  matchSlash t = Some g → matchIso t = None ∧ matchDot t = None.
Proof.
  unfold matchSlash, matchDot, matchSeparated. intros H.
  destruct g as [[[[g1 g2] g3] g4] g5].
  apply bind_Some in H as ([g1' r] & Hg1 & H). cbv beta iota in H.
  apply bind_Some in H as (r' & Hsep & _).
  rewrite Hg1. cbn [mbind option_bind].
  apply reDigits1to2_inv in Hg1 as (Hlen & Hd & ->).
  destruct r as [|c r]; [done|]. cbn [reChar] in Hsep.
  destruct (Ascii.eqb_spec "/" c) as [<-|]; [|done].
  split; [|reflexivity].
  unfold matchIso.
  destruct g1' as [|c1 [|c2 [|c3 g1']]]; cbn [String.length] in Hlen;
    try lia; cbn [allDigits] in Hd.
  - apply andb_prop in Hd as [Hc1 _].
    rewrite !append_cons, append_nil. cbn [reDigits].
    rewrite Hc1. reflexivity.
  - apply andb_prop in Hd as [Hc1 Hd]. apply andb_prop in Hd as [Hc2 _].
    rewrite !append_cons, append_nil. cbn [reDigits].
    rewrite Hc1, Hc2. reflexivity.
Qed.

(** C2.  For every slash date [a/b/yyyy] (with or without a time of day,
    white space around it allowed), [parseDateFlexible] builds the date
    from the day and the month that the rule of the specification gives:
    the one component above 12 is the day, otherwise the hint decides (day
    first when it begins with [dd], month first when not), and without a
    hint the day comes first.  In particular "13/02/2026" is the 13th of
    February under every hint, and "02/03/2026" is the 3rd of February
    under "mm/dd/yyyy" and the 2nd of March under "dd/mm/yyyy" or no
    hint. *)
Theorem C2_slash_day_month_resolution :
  (∀ (input : string) (patternHint : option string)
     (a b yyyy : string) (hh mi : option string) (dd mm : Z),
      matchSlash (JS.trim input) = Some (a, b, yyyy, hh, mi) →
      specSlashDayMonth (JS.NumberOfDigits a) (JS.NumberOfDigits b)
                        patternHint = (dd, mm) →
      parseDateFlexible input patternHint =
      Some (JS.DateValue
              (JS.MakeDate
                 (JS.MakeDay (JS.MakeFullYear (JS.NumberOfDigits yyyy))
                             (mm - 1) dd)
                 (JS.MakeTime (numberOr0 hh) (numberOr0 mi) 0 0))))
  ∧ (∀ patternHint,
       calendarOfDate <$> parseDateFlexible "13/02/2026" patternHint
       = Some (Some (2026, 2, 13)))
  ∧ calendarOfDate <$> parseDateFlexible "02/03/2026" (Some "mm/dd/yyyy")
    = Some (Some (2026, 2, 3))
  ∧ calendarOfDate <$> parseDateFlexible "02/03/2026" (Some "dd/mm/yyyy")
    = Some (Some (2026, 3, 2))
  ∧ calendarOfDate <$> parseDateFlexible "02/03/2026" None
    = Some (Some (2026, 3, 2)).
Proof.
  split; [|split; [|split; [|split]]].
  - intros input hint a b yyyy hh mi dd mm Hm Hres.
    apply parseDateFlexible_shape_not_null.
    unfold fieldsOf.
    destruct (matchSlash_only _ _ Hm) as [-> ->].
    rewrite Hm, Hres. reflexivity.
  - intros hint.
    rewrite (parseDateFlexible_shape_not_null _ _ 2026 2 13 0 0 0).
    + vm_compute. reflexivity.
    + unfold fieldsOf.
      replace (JS.trim "13/02/2026") with "13/02/2026"
        by (vm_compute; reflexivity).
      replace (matchIso "13/02/2026") with
        (@None (string * string * string * option string * option string
                * option string)) by (vm_compute; reflexivity).
      replace (matchDot "13/02/2026") with
        (@None (string * string * string * option string * option string))
        by (vm_compute; reflexivity).
      replace (matchSlash "13/02/2026") with
        (Some ("13", "02", "2026", @None string, @None string))
        by (vm_compute; reflexivity).
      replace (JS.NumberOfDigits "13") with 13 by (vm_compute; reflexivity).
      replace (JS.NumberOfDigits "02") with 2 by (vm_compute; reflexivity).
      reflexivity.
  - vm_compute. reflexivity.
  - vm_compute. reflexivity.
  - vm_compute. reflexivity.
Qed.

(** The witness of C2: " 7/4/2026 09:30 " under the hint "mm/dd/yyyy" is
    the 4th of July. *)
Lemma C2_slash_day_month_resolution_witness :
  parseDateFlexible " 7/4/2026 09:30 " (Some "mm/dd/yyyy") =
  Some (JS.DateValue
          (JS.MakeDate (JS.MakeDay (JS.MakeFullYear 2026) (7 - 1) 4)
                       (JS.MakeTime 9 30 0 0))).
Proof.
  exact (proj1 C2_slash_day_month_resolution
           " 7/4/2026 09:30 " (Some "mm/dd/yyyy")
           "7" "4" "2026" (Some "09") (Some "30") 4 7
           eq_refl eq_refl).
Defined.

(** ** Texts built from digit groups *)

(** No code unit of the text is white space. *)
Fixpoint noSpace (s : string) : bool :=
  match s with
  | EmptyString => true
  | String c s' => negb (JS.isWhiteSpace c) && noSpace s'
  end.

Lemma noSpace_app (s t : string) :
  noSpace (s +:+ t) = noSpace s && noSpace t.
Proof.
  induction s as [|c s IH]; [reflexivity|].
  rewrite append_cons. cbn [noSpace]. rewrite IH. apply andb_assoc.
Qed.

Lemma allDigits_noSpace (s : string) : allDigits s = true → noSpace s = true.
Proof.
  induction s as [|c s IH]; [done|]. cbn [allDigits noSpace].
  intros [Hc Hs]%andb_prop. by rewrite (isDigit_not_space c Hc), IH.
Qed.

Lemma trimStart_noSpace (s : string) : noSpace s = true → JS.trimStart s = s.
Proof.
  destruct s as [|c s]; [done|]. cbn [noSpace JS.trimStart].
  intros [Hc _]%andb_prop. by destruct (JS.isWhiteSpace c).
Qed.

Lemma trimEnd_noSpace (s : string) : noSpace s = true → JS.trimEnd s = s.
Proof.
  induction s as [|c s IH]; [done|]. cbn [noSpace JS.trimEnd].
  intros [Hc Hs]%andb_prop. rewrite (IH Hs).
  by destruct (JS.isWhiteSpace c).
Qed.

Lemma trim_noSpace (s : string) : noSpace s = true → JS.trim s = s.
Proof.
  intros H. unfold JS.trim. by rewrite trimStart_noSpace, trimEnd_noSpace.
Qed.

Lemma reDigits_app (n : nat) (g r : string) :
  String.length g = n → allDigits g = true → reDigits n (g +:+ r) = Some (g, r).
Proof.
  revert n. induction g as [|c g IH]; intros n <- Hd; [reflexivity|].
  cbn [allDigits] in Hd. apply andb_prop in Hd as [Hc Hd].
  rewrite append_cons. cbn [String.length reDigits].
  by rewrite Hc, (IH _ eq_refl Hd).
Qed.

(** Fewer digits than asked for, and then a character that is no digit. *)
Lemma reDigits_short (n : nat) (g : string) (c : ascii) (r : string) :
  (String.length g < n)%nat → allDigits g = true → JS.isDigit c = false →
  reDigits n (g +:+ String c r) = None.
Proof.
  revert n. induction g as [|a g IH]; intros n Hn Hd Hc.
  - destruct n; [cbn in Hn; lia|]. rewrite append_nil. cbn [reDigits].
    by rewrite Hc.
  - cbn [allDigits] in Hd. apply andb_prop in Hd as [Ha Hd].
    destruct n; [cbn in Hn; lia|]. cbn [String.length] in Hn.
    rewrite append_cons. cbn [reDigits].
    by rewrite Ha, (IH n ltac:(lia) Hd Hc).
Qed.

Lemma reDigits1to2_app (g : string) (c : ascii) (r : string) :
  digitGroup 1 2 g → JS.isDigit c = false →
  reDigits1to2 (g +:+ String c r) = Some (g, String c r).
Proof.
  intros [Hl Hd] Hc. unfold reDigits1to2.
  destruct (decide (String.length g = 2%nat)) as [E|E].
  - by rewrite (reDigits_app 2 g _ E Hd).
  - rewrite (reDigits_short 2 g c r ltac:(lia) Hd Hc).
    apply reDigits_app; [lia|done].
Qed.

Lemma reDigits_end (n : nat) (g : string) :
  String.length g = n → allDigits g = true → reDigits n g = Some (g, "").
Proof.
  intros Hl Hd. pose proof (reDigits_app n g "" Hl Hd) as H.
  assert (g +:+ "" = g) as E; [|by rewrite E in H].
  clear. induction g as [|c g IH]; [done|]. by rewrite append_cons, IH.
Qed.

(** Every [a SEP b SEP yyyy] is matched, with these groups. *)
Lemma matchSeparated_app (sep : ascii) (g1 g2 g3 : string) :
  JS.isDigit sep = false →
  digitGroup 1 2 g1 → digitGroup 1 2 g2 → digitGroup 4 4 g3 →
  matchSeparated sep (g1 +:+ String sep (g2 +:+ String sep g3))
  = Some (g1, g2, g3, None, None).
Proof.
  intros Hsep H1 H2 [Hl3 Hd3]. unfold matchSeparated.
  rewrite (reDigits1to2_app g1 sep _ H1 Hsep). cbn [mbind option_bind reChar].
  rewrite Ascii.eqb_refl. cbn [mbind option_bind].
  rewrite (reDigits1to2_app g2 sep _ H2 Hsep). cbn [mbind option_bind reChar].
  rewrite Ascii.eqb_refl. cbn [mbind option_bind].
  rewrite (reDigits_end 4 g3 ltac:(lia) Hd3). reflexivity.
Qed.

(** A text that begins with one or two digits and a character that is
    neither a digit nor the separator is not matched. *)
Lemma matchSeparated_other (sep c : ascii) (g1 r : string) :
  JS.isDigit c = false → Ascii.eqb sep c = false → digitGroup 1 2 g1 →
  matchSeparated sep (g1 +:+ String c r) = None.
Proof.
  intros Hc Hne H1. unfold matchSeparated.
  rewrite (reDigits1to2_app g1 c _ H1 Hc). cbn [mbind option_bind reChar].
  by rewrite Hne.
Qed.

Lemma matchIso_other (c : ascii) (g1 r : string) :
  JS.isDigit c = false → digitGroup 1 2 g1 →
  matchIso (g1 +:+ String c r) = None.
Proof.
  intros Hc [Hl Hd]. unfold matchIso.
  by rewrite (reDigits_short 4 g1 c r ltac:(lia) Hd Hc).
Qed.

Lemma matchIso_app (g1 g2 g3 : string) :
  digitGroup 4 4 g1 → digitGroup 2 2 g2 → digitGroup 2 2 g3 →
  matchIso (g1 +:+ String "-" (g2 +:+ String "-" g3))
  = Some (g1, g2, g3, None, None, None).
Proof.
  intros [Hl1 Hd1] [Hl2 Hd2] [Hl3 Hd3]. unfold matchIso.
  rewrite (reDigits_app 4 g1 _ ltac:(lia) Hd1). cbn [mbind option_bind reChar].
  rewrite Ascii.eqb_refl. cbn [mbind option_bind].
  rewrite (reDigits_app 2 g2 _ ltac:(lia) Hd2). cbn [mbind option_bind reChar].
  rewrite Ascii.eqb_refl. cbn [mbind option_bind].
  rewrite (reDigits_end 2 g3 ltac:(lia) Hd3). reflexivity.
Qed.

Lemma replace_found (pat rep s rest : string) :
  JS.stripPrefix pat s = Some rest → JS.replace pat rep s = rep +:+ rest.
Proof. intros H. destruct s; cbn [JS.replace]; rewrite H; reflexivity. Qed.

Lemma replace_skip (pat rep : string) (c : ascii) (s : string) :
  JS.stripPrefix pat (String c s) = None →
  JS.replace pat rep (String c s) = String c (JS.replace pat rep s).
Proof. intros H. cbn [JS.replace]. rewrite H. reflexivity. Qed.

(** The search of [replace] runs over a group of digits. *)
Lemma replace_skip_digits (a : ascii) (pat rep g s : string) :
  JS.isDigit a = false → allDigits g = true →
  JS.replace (String a pat) rep (g +:+ s)
  = g +:+ JS.replace (String a pat) rep s.
Proof.
  intros Ha. induction g as [|c g IH]; intros Hd; [reflexivity|].
  cbn [allDigits] in Hd. apply andb_prop in Hd as [Hc Hd].
  rewrite !append_cons. rewrite replace_skip.
  - by rewrite IH.
  - cbn [JS.stripPrefix]. by rewrite (eqb_not_digit a c).
Qed.

Lemma append_empty_r (s : string) : s +:+ "" = s.
Proof. induction s as [|c s IH]; [done|]. by rewrite append_cons, IH. Qed.

(** One step of the search of [replace], on a text built from literal
    characters and groups of digits. *)
Ltac replace_step :=
  first
    [ rewrite replace_skip_digits by (reflexivity || assumption)
    | rewrite replace_skip by reflexivity
    | erewrite replace_found by reflexivity ];
  rewrite ?append_cons, ?append_nil, ?append_empty_r.

(** What the three substitutions of [formatDateByPattern] make of the
    known patterns, for a year of four digits and a month and a day of
    two. *)
Lemma replace_known_patterns (Y M D : string) :
  allDigits Y = true → allDigits M = true → allDigits D = true →
  let fmt p := JS.replace "dd" D (JS.replace "mm" M (JS.replace "yyyy" Y p)) in
  fmt "dd.mm.yyyy" = D +:+ String "." (M +:+ String "." Y)
  ∧ fmt "mm/dd/yyyy" = M +:+ String "/" (D +:+ String "/" Y)
  ∧ fmt "yyyy-mm-dd" = Y +:+ String "-" (M +:+ String "-" D)
  ∧ fmt "dd/mm/yyyy" = D +:+ String "/" (M +:+ String "/" Y).
Proof.
  intros HY HM HD fmt. subst fmt. cbv beta.
  repeat split.
  - assert (JS.replace "yyyy" Y "dd.mm.yyyy" = "dd.mm." +:+ Y) as ->
      by (repeat replace_step; reflexivity).
    rewrite !append_cons, append_nil.
    assert (JS.replace "mm" M (String "d" (String "d" (String "." (String "m" (String "m" (String "." Y))))))
            = "dd." +:+ (M +:+ String "." Y)) as ->
      by (repeat replace_step; reflexivity).
    rewrite !append_cons, append_nil.
    repeat replace_step. reflexivity.
  - assert (JS.replace "yyyy" Y "mm/dd/yyyy" = "mm/dd/" +:+ Y) as ->
      by (repeat replace_step; reflexivity).
    rewrite !append_cons, append_nil.
    assert (JS.replace "mm" M (String "m" (String "m" (String "/" (String "d" (String "d" (String "/" Y))))))
            = M +:+ ("/dd/" +:+ Y)) as ->
      by (repeat replace_step; reflexivity).
    rewrite !append_cons, append_nil.
    repeat replace_step. reflexivity.
  - assert (JS.replace "yyyy" Y "yyyy-mm-dd" = Y +:+ "-mm-dd") as ->
      by (repeat replace_step; reflexivity).
    assert (JS.replace "mm" M (Y +:+ "-mm-dd") = Y +:+ String "-" (M +:+ "-dd"))
      as -> by (repeat replace_step; reflexivity).
    repeat replace_step. reflexivity.
  - assert (JS.replace "yyyy" Y "dd/mm/yyyy" = "dd/mm/" +:+ Y) as ->
      by (repeat replace_step; reflexivity).
    rewrite !append_cons, append_nil.
    assert (JS.replace "mm" M (String "d" (String "d" (String "/" (String "m" (String "m" (String "/" Y))))))
            = "dd/" +:+ (M +:+ String "/" Y)) as ->
      by (repeat replace_step; reflexivity).
    rewrite !append_cons, append_nil.
    repeat replace_step. reflexivity.
Qed.

Lemma noSpace_separated (sep : ascii) (g1 g2 g3 : string) :
  JS.isWhiteSpace sep = false →
  allDigits g1 = true → allDigits g2 = true → allDigits g3 = true →
  noSpace (g1 +:+ String sep (g2 +:+ String sep g3)) = true.
Proof.
  intros Hsep H1 H2 H3.
  rewrite noSpace_app. cbn [noSpace]. rewrite noSpace_app. cbn [noSpace].
  by rewrite Hsep, !allDigits_noSpace.
Qed.

Lemma digitGroup_2_12 (g : string) : digitGroup 2 2 g → digitGroup 1 2 g.
Proof. intros [? ?]. split; [lia|done]. Qed.


Lemma digitGroup_twoDigits (n : Z) : 0 <= n <= 99 → digitGroup 2 2 (twoDigits n).
Proof. intros Hn. split; [simpl; lia|by apply allDigits_twoDigits]. Qed.

Lemma digitGroup_fourDigits (n : Z) :
  0 <= n <= 9999 → digitGroup 4 4 (fourDigits n).
Proof. intros Hn. split; [simpl; lia|by apply allDigits_fourDigits]. Qed.

(** [formatDateByPattern] of a date with a year of four digits. *)
Lemma formatDateByPattern_digits (dt : JS.Date) (p : string) (y m d : Z) :
  calendarOfDate dt = Some (y, m, d) →
  1000 <= y <= 9999 → 1 <= m <= 12 → 1 <= d <= 31 →
  formatDateByPattern (Some dt) p =
  JS.replace "dd" (twoDigits d)
    (JS.replace "mm" (twoDigits m) (JS.replace "yyyy" (fourDigits y) p)).
Proof.
  intros Hc Hy Hm Hd. destruct dt as [|t]; [done|].
  unfold calendarOfDate, JS.getFullYear, JS.getMonth, JS.getDate in Hc.
  cbn [mbind option_bind] in Hc. simplify_eq.
  unfold formatDateByPattern, JS.getFullYear, JS.getMonth, JS.getDate,
    stringOfNumber.
  cbn [fmap option_fmap option_map].
  rewrite !padStart_twoDigits by lia.
  by rewrite ToString_fourDigits by lia.
Qed.

(** The claim of the round trip, at a text [s] and a pattern [p]: the
    text that formatting the parsed date gives denotes the calendar date
    that [s] denotes. *)
Definition formatKeepsCalendar (s p : string) : Prop :=
  ∀ dt, parseDateFlexible s (Some p) = Some dt →
    calendarOf s (Some p) ≠ None
    ∧ calendarOf (formatDateByPattern (Some dt) p) (Some p)
      = calendarOf s (Some p).




(** The other hypotheses of the amended C9 are needed as well: a text
    that is no date of the calendar is accepted and comes back as another
    date; the years 0 to 99 are read as 1900 to 1999; and a year below
    1000 is printed without its leading zeros, which no shape accepts. *)
Lemma format_parse_outside_the_calendar :
  ¬ formatKeepsCalendar "31.02.2026" "dd.mm.yyyy"
  ∧ ¬ formatKeepsCalendar "01.01.0050" "dd.mm.yyyy"
  ∧ ¬ formatKeepsCalendar "01.01.0500" "dd.mm.yyyy".
Proof.
  split; [|split]; intros H.
  - destruct (H (JS.newDate 2026 1 31 0 0 0)) as [_ Heq].
    + vm_compute. reflexivity.
    + vm_compute in Heq. discriminate Heq.
  - destruct (H (JS.newDate 50 0 1 0 0 0)) as [_ Heq].
    + vm_compute. reflexivity.
    + vm_compute in Heq. discriminate Heq.
  - destruct (H (JS.newDate 500 0 1 0 0 0)) as [_ Heq].
    + vm_compute. reflexivity.
    + vm_compute in Heq. discriminate Heq.
Qed.

(** C1.  The claim fails on the code: "31.02.2026" has the dot shape and
    is no date of the calendar, and so has "32.01.2026", yet
    [parseDateFlexible] returns a date for both, the 3rd of March and the
    1st of February 2026: [new Date] carries the days over, and the test
    [isNaN(+d)] does not see it. *)
Theorem C1_parse_of_a_date_outside_the_calendar :
  fieldsOf "31.02.2026" (Some "dd.mm.yyyy") = Some (2026, 2, 31, 0, 0, 0)
  ∧ existingDate 2026 2 31 = false
  ∧ parseDateFlexible "31.02.2026" (Some "dd.mm.yyyy")
    = Some (JS.newDate 2026 2 3 0 0 0)
  ∧ calendarOfDate <$> parseDateFlexible "31.02.2026" (Some "dd.mm.yyyy")
    = Some (Some (2026, 3, 3))
  ∧ existingDate 2026 1 32 = false
  ∧ calendarOfDate <$> parseDateFlexible "32.01.2026" (Some "dd.mm.yyyy")
    = Some (Some (2026, 2, 1)).
Proof.
  repeat split; vm_compute; reflexivity.
Qed.

(* ================================================================== *)
(** * The hierarchy: ancestors, descendant runs and the visible rows *)
(* ================================================================== *)

(** The indent and the identifier of row [k]. *)
Definition indentAt (data : list RowData) (k : nat) : Z :=
  default 0 (row_indent <$> data !! k).

Definition idAt (data : list RowData) (k : nat) : string :=
  default "" (row_id <$> data !! k).

(** Row [a] is an ancestor of row [i]: [a] comes before [i], and every row
    after [a] up to and including [i] is indented deeper than [a].  These
    are the rows that the stack discipline keeps on the stack when it
    reaches row [i] (pop while the top is indented at least as deep). *)
Definition isAncestor (data : list RowData) (a i : nat) : bool :=
  (a <? i)%nat
  && forallb (λ k, indentAt data a <? indentAt data k) (seq (S a) (i - a)).

(** The number of rows at the head of [rows] indented deeper than
    [indent]. *)
Fixpoint runLength (indent : Z) (rows : list RowData) : nat :=
  match rows with
  | row :: rows' =>
      if indent <? row_indent row then S (runLength indent rows') else O
  | [] => O
  end.

(** The descendant run of row [p]: the rows that follow [p], as long as
    they are indented deeper than [p] (up to the next row whose indent is
    at most the indent of [p]). *)
Definition descendantRun (data : list RowData) (p : nat) : list nat :=
  seq (S p) (runLength (indentAt data p) (drop (S p) data)).

(** Row [i] has a collapsed ancestor. *)
Definition hasCollapsedAncestor (data : list RowData) (collapsed : gset string)
    (i : nat) : bool :=
  existsb (λ a, isAncestor data a i && bool_decide (idAt data a ∈ collapsed))
          (seq 0 i).

(** ** The stack discipline *)

(** The numbers below [n], largest first. *)
Fixpoint below (n : nat) : list nat :=
  match n with
  | O => []
  | S j => j :: below j
  end.

Lemma elem_of_below (n a : nat) : a ∈ below n ↔ (a < n)%nat.
Proof.
  induction n as [|n IH]; cbn [below].
  - rewrite elem_of_nil. lia.
  - rewrite elem_of_cons, IH. lia.
Qed.

(** The stack when the loop is done with row [i]'s pops: the ancestors of
    [i], nearest first. *)
Definition ancestors (data : list RowData) (i : nat) : list nat :=
  filter (λ a, isAncestor data a i = true) (below i).

(** The stack when the loop reaches row [i]. *)
Definition stackAt (data : list RowData) (i : nat) : list nat :=
  match i with
  | O => []
  | S j => j :: ancestors data j
  end.

Lemma isAncestor_lt (data : list RowData) (a i : nat) :
  isAncestor data a i = true → (a < i)%nat.
Proof. unfold isAncestor. intros [H _]%andb_prop. by apply Nat.ltb_lt. Qed.

Lemma isAncestor_spec (data : list RowData) (a i : nat) :
  isAncestor data a i = true ↔
  (a < i)%nat ∧ ∀ k, (a < k <= i)%nat → indentAt data a < indentAt data k.
Proof.
  unfold isAncestor. rewrite andb_true_iff, Nat.ltb_lt, forallb_forall.
  split; intros [Hlt H]; (split; [done|]).
  - intros k Hk. apply Z.ltb_lt, H, in_seq. lia.
  - intros k Hk%in_seq. apply Z.ltb_lt, H. lia.
Qed.

Lemma isAncestor_S (data : list RowData) (a i : nat) :
  isAncestor data a (S i) = true ↔
  (a = i ∨ isAncestor data a i = true)
  ∧ indentAt data a < indentAt data (S i).
Proof.
  rewrite !isAncestor_spec. split.
  - intros [Hlt H]. split; [|apply H; lia].
    destruct (decide (a = i)) as [->|Hne]; [by left|right].
    split; [lia|]. intros k Hk. apply H. lia.
  - intros [[->|[Hlt H]] HS].
    + split; [lia|]. intros k Hk. by replace k with (S i) by lia.
    + split; [lia|]. intros k Hk.
      destruct (decide (k = S i)) as [->|]; [done|]. apply H. lia.
Qed.

Lemma filter_ext_elem {A} (P Q : A → Prop) `{!∀ x, Decision (P x)}
    `{!∀ x, Decision (Q x)} (l : list A) :
  (∀ x, x ∈ l → (P x ↔ Q x)) → filter P l = filter Q l.
Proof.
  induction l as [|x l IH]; intros Hext; [done|].
  rewrite !filter_cons.
  rewrite IH by (intros y Hy; apply Hext; by right).
  pose proof (Hext x ltac:(by left)) as Hx.
  destruct (decide (P x)) as [HP|HP], (decide (Q x)) as [HQ|HQ];
    try done; tauto.
Qed.

(** Popping the rows that are not ancestors of the next row, and pushing
    the row, is what [stackAt] and [ancestors] say. *)
Lemma ancestors_stackAt (data : list RowData) (i : nat) :
  ancestors data i =
  filter (λ a, indentAt data a < indentAt data i) (stackAt data i).
Proof.
  destruct i as [|j]; [done|].
  unfold ancestors, stackAt. cbn [below].
  rewrite !filter_cons.
  assert (filter (λ a, isAncestor data a (S j) = true) (below j)
          = filter (λ a, indentAt data a < indentAt data (S j))
              (filter (λ a, isAncestor data a j = true) (below j))) as ->.
  { rewrite list_filter_filter. apply filter_ext_elem. intros a Ha.
    apply elem_of_below in Ha. rewrite isAncestor_S.
    split; [intros [[->|?] ?]; [lia|done]|intros [? ?]; auto]. }
  destruct (decide (isAncestor data j (S j) = true)) as [Hj|Hj];
    rewrite isAncestor_S in Hj.
  - rewrite decide_True by apply Hj. done.
  - rewrite decide_False; [done|]. intros H. apply Hj. auto.
Qed.

Lemma ancestors_sorted_aux (data : list RowData) (j n : nat) :
  StronglySorted (λ a b, indentAt data b < indentAt data a)
    (filter (λ a, isAncestor data a j = true) (below n)).
Proof.
  induction n as [|n IH]; [constructor|].
  cbn [below]. rewrite filter_cons.
  destruct (decide (isAncestor data n j = true)) as [Hn|Hn]; [|done].
  constructor; [done|].
  apply Forall_forall. intros b [Hb Hlt]%list_elem_of_filter.
  apply elem_of_below in Hlt.
  apply isAncestor_spec in Hb as [_ Hb]. apply Hb.
  apply isAncestor_lt in Hn. lia.
Qed.

(** From the top of the stack down, the indents go down. *)
Lemma stackAt_sorted (data : list RowData) (i : nat) :
  StronglySorted (λ a b, indentAt data b < indentAt data a) (stackAt data i).
Proof.
  destruct i as [|j]; [constructor|]. cbn [stackAt].
  constructor; [apply ancestors_sorted_aux|].
  apply Forall_forall. intros b [Hb _]%list_elem_of_filter.
  apply isAncestor_spec in Hb as [Hlt Hb]. apply Hb. lia.
Qed.

(** On a stack whose indents go down, popping while the top is at least
    as deep as [indent] keeps the entries that are less deep. *)
Lemma popWhile_filter {E} (f : E → Z) (indent : Z) (stack : list E) :
  StronglySorted (λ x y, f y < f x) stack →
  popWhile f indent stack = filter (λ e, f e < indent) stack.
Proof.
  induction 1 as [|e stack Hs IH Hall]; [done|].
  cbn [popWhile]. rewrite filter_cons.
  destruct (Z.geb_spec (f e) indent) as [Hge|Hlt].
  - rewrite decide_False by lia. done.
  - rewrite decide_True by lia. f_equal.
    symmetry. clear IH Hs. induction Hall as [|y l Hy Hall IH]; [done|].
    rewrite filter_cons, decide_True by lia. by f_equal.
Qed.

Lemma popWhile_fmap {E F} (g : E → F) (f : F → Z) (indent : Z)
    (stack : list E) :
  popWhile f indent (g <$> stack) = g <$> popWhile (f ∘ g) indent stack.
Proof.
  induction stack as [|e stack IH]; [done|].
  cbn [fmap list_fmap popWhile]. unfold compose at 1.
  destruct (f (g e) >=? indent); [apply IH|done].
Qed.

(** The pops of the loops at row [i] leave the ancestors of [i]. *)
Lemma popWhile_stackAt {F} (g : nat → F) (f : F → Z) (data : list RowData)
    (i : nat) :
  (∀ a, f (g a) = indentAt data a) →
  popWhile f (indentAt data i) (g <$> stackAt data i)
  = g <$> ancestors data i.
Proof.
  intros Hf. rewrite popWhile_fmap. f_equal.
  rewrite ancestors_stackAt.
  rewrite <- (popWhile_filter (indentAt data)) by apply stackAt_sorted.
  generalize (stackAt data i) as l. intros l.
  induction l as [|e l IH]; [done|].
  cbn [popWhile]. unfold compose at 1. rewrite Hf.
  destruct (indentAt data e >=? indentAt data i); [apply IH|done].
Qed.

Lemma drop_lookup_cons {A} (l : list A) (i : nat) (x : A) (rest : list A) :
  drop i l = x :: rest → l !! i = Some x ∧ drop (S i) l = rest.
Proof.
  intros H.
  assert (l !! i = Some x) as Hx.
  { rewrite <- (Nat.add_0_r i), <- lookup_drop, H. done. }
  split; [done|]. rewrite (drop_S _ _ _ Hx) in H. by simplify_eq.
Qed.

Lemma indentAt_lookup (data : list RowData) (i : nat) (row : RowData) :
  data !! i = Some row → indentAt data i = row_indent row.
Proof. unfold indentAt. by intros ->. Qed.

Lemma idAt_lookup (data : list RowData) (i : nat) (row : RowData) :
  data !! i = Some row → idAt data i = row_id row.
Proof. unfold idAt. by intros ->. Qed.

(** The nearest ancestor is the row just before, when that row is less
    deep. *)
Lemma ancestors_head (data : list RowData) (i : nat) :
  indentAt data i < indentAt data (S i) →
  ∃ rest, ancestors data (S i) = i :: rest.
Proof.
  intros H. unfold ancestors. cbn [below]. rewrite filter_cons_True; [eauto|].
  apply isAncestor_S. auto.
Qed.

Lemma ancestor_is_parent (data : list RowData) (a i : nat) :
  isAncestor data a i = true →
  (S a <= i)%nat ∧ indentAt data a < indentAt data (S a).
Proof.
  intros [Hlt H]%isAncestor_spec. split; [lia|]. apply H. lia.
Qed.

(** ** [computeHasChildren] *)

Lemma computeHasChildrenLoop_dom (data : list RowData) :
  ∀ (rows : list RowData) (i : nat) (childrenMap : gmap nat (list nat)),
    drop i data = rows → (i <= length data)%nat →
    (∀ a, a ∈ dom childrenMap ↔
          (S a < i)%nat ∧ indentAt data a < indentAt data (S a)) →
    ∀ a, a ∈ dom (computeHasChildrenLoop i rows childrenMap
                    ((λ a, (a, indentAt data a)) <$> stackAt data i)) ↔
         (S a < length data)%nat ∧ indentAt data a < indentAt data (S a).
Proof.
  induction rows as [|row rows IH]; intros i cm Hdrop Hi Hcm a.
  - cbn [computeHasChildrenLoop]. rewrite Hcm.
    apply drop_nil_inv in Hdrop. replace i with (length data) by lia. done.
  - apply drop_lookup_cons in Hdrop as [Hrow Hdrop].
    pose proof (lookup_lt_Some _ _ _ Hrow) as Hlt.
    cbn [computeHasChildrenLoop].
    rewrite <- (indentAt_lookup _ _ _ Hrow).
    rewrite (popWhile_stackAt (λ a, (a, indentAt data a)) snd) by done.
    change ((i, indentAt data i)
            :: ((λ a0, (a0, indentAt data a0)) <$> ancestors data i))
      with ((λ a0, (a0, indentAt data a0)) <$> stackAt data (S i)).
    apply IH; [done|lia|]. clear IH a. intros a.
    destruct (ancestors data i) as [|p rest] eqn:Hanc.
    + cbn [fmap list_fmap]. rewrite Hcm. split; [intros [? ?]; split; [lia|done]|].
      intros [HS Hind]. split; [|done].
      destruct (decide (S a = i)) as [<-|]; [|lia].
      destruct (ancestors_head data a Hind) as [rest Hrest]. congruence.
    + cbn [fmap list_fmap fst].
      assert (isAncestor data p i = true) as Hp.
      { assert (p ∈ ancestors data i) as Hin by (rewrite Hanc; by left).
        by apply list_elem_of_filter in Hin as [? _]. }
      destruct (ancestor_is_parent _ _ _ Hp) as [HSp Hpind].
      replace (Z.of_nat p >=? 0) with true by lia.
      rewrite Nat2Z.id, dom_insert_L, elem_of_union, elem_of_singleton, Hcm.
      split.
      * intros [->|[? ?]]; split; (lia || done).
      * intros [HS Hind].
        destruct (decide (S a = i)) as [<-|]; [left|right; split; [lia|done]].
        destruct (ancestors_head data a Hind) as [rest' Hrest]. congruence.
Qed.

(** A row has children exactly when the next row is indented deeper. *)
Lemma elem_of_computeHasChildren (data : list RowData) (a : nat) :
  a ∈ computeHasChildren data ↔
  (S a < length data)%nat ∧ indentAt data a < indentAt data (S a).
Proof.
  unfold computeHasChildren.
  apply (computeHasChildrenLoop_dom data data 0 ∅); [done|lia|].
  intros b. rewrite dom_empty_L, elem_of_empty. lia.
Qed.

(** ** [visibleRowIndices] *)

(** The entry that the loop of [visibleRowIndices] pushes for row [a]. *)
Definition visEntry (data : list RowData) (collapsed : gset string) (a : nat)
  : VisEntry :=
  {| vis_id := idAt data a;
     vis_indent := indentAt data a;
     vis_collapsed :=
       if bool_decide (a ∈ computeHasChildren data)
       then bool_decide (idAt data a ∈ collapsed) else false |}.

Lemma hidden_spec (data : list RowData) (collapsed : gset string) (i : nat) :
  (i < length data)%nat →
  existsb vis_collapsed (visEntry data collapsed <$> ancestors data i)
  = hasCollapsedAncestor data collapsed i.
Proof.
  intros Hi. apply eq_true_iff_eq. unfold hasCollapsedAncestor.
  rewrite !existsb_exists. split.
  - intros (e & He & Hc).
    apply list_elem_of_In, list_elem_of_fmap in He as (a & -> & Ha).
    apply list_elem_of_filter in Ha as [Ha Hlt%elem_of_below].
    exists a. split; [apply in_seq; lia|].
    rewrite Ha. cbn [andb]. cbn [visEntry vis_collapsed] in Hc.
    by destruct (bool_decide (a ∈ computeHasChildren data)).
  - intros (a & Ha%in_seq & [Hanc Hc]%andb_prop).
    exists (visEntry data collapsed a). split.
    + apply list_elem_of_In, list_elem_of_fmap. exists a. split; [done|].
      apply list_elem_of_filter. split; [done|]. apply elem_of_below. lia.
    + cbn [visEntry vis_collapsed]. rewrite bool_decide_eq_true_2; [done|].
      apply elem_of_computeHasChildren.
      destruct (ancestor_is_parent _ _ _ Hanc). split; [lia|done].
Qed.

Lemma visibleLoop_filter (data : list RowData) (collapsed : gset string) :
  ∀ (rows : list RowData) (i : nat),
    drop i data = rows →
    visibleLoop (computeHasChildren data) collapsed i rows
      (visEntry data collapsed <$> stackAt data i)
    = filter (λ k, hasCollapsedAncestor data collapsed k = false)
        (seq i (length rows)).
Proof.
  induction rows as [|row rows IH]; intros i Hdrop; [done|].
  apply drop_lookup_cons in Hdrop as [Hrow Hdrop].
  pose proof (lookup_lt_Some _ _ _ Hrow) as Hlt.
  cbn [visibleLoop length seq]. rewrite filter_cons.
  rewrite <- (indentAt_lookup _ _ _ Hrow), <- (idAt_lookup _ _ _ Hrow).
  rewrite (popWhile_stackAt (visEntry data collapsed) vis_indent) by done.
  rewrite hidden_spec by done.
  change ({| vis_id := idAt data i; vis_indent := indentAt data i;
             vis_collapsed :=
               if bool_decide (i ∈ computeHasChildren data)
               then bool_decide (idAt data i ∈ collapsed) else false |}
          :: (visEntry data collapsed <$> ancestors data i))
    with (visEntry data collapsed <$> stackAt data (S i)).
  rewrite (IH (S i) Hdrop).
  destruct (hasCollapsedAncestor data collapsed i).
  - by rewrite decide_False.
  - by rewrite decide_True.
Qed.

(** The visible rows are the rows none of whose ancestors is collapsed,
    in the order of the rows. *)
Lemma visibleRowIndices_filter (data : list RowData) (collapsed : gset string) :
  visibleRowIndices data collapsed
  = filter (λ k, hasCollapsedAncestor data collapsed k = false)
      (seq 0 (length data)).
Proof. apply (visibleLoop_filter data collapsed data 0). done. Qed.

Lemma hasCollapsedAncestor_spec (data : list RowData) (collapsed : gset string)
    (i : nat) :
  hasCollapsedAncestor data collapsed i = true ↔
  ∃ a, isAncestor data a i = true ∧ idAt data a ∈ collapsed.
Proof.
  unfold hasCollapsedAncestor. rewrite existsb_exists. split.
  - intros (a & _ & [Ha Hc%bool_decide_eq_true]%andb_prop). eauto.
  - intros (a & Ha & Hc). exists a. split.
    + apply in_seq. apply isAncestor_lt in Ha. lia.
    + by rewrite Ha, bool_decide_eq_true_2.
Qed.

Lemma elem_of_visibleRowIndices (data : list RowData) (collapsed : gset string)
    (i : nat) :
  i ∈ visibleRowIndices data collapsed ↔
  (i < length data)%nat
  ∧ ∀ a, isAncestor data a i = true → idAt data a ∉ collapsed.
Proof.
  rewrite visibleRowIndices_filter, list_elem_of_filter, elem_of_seq.
  rewrite <- not_true_iff_false, hasCollapsedAncestor_spec.
  split.
  - intros [Hn Hi]. split; [lia|]. intros a Ha Hc. apply Hn. eauto.
  - intros [Hi Hn]. split; [|lia]. intros (a & Ha & Hc). by apply (Hn a).
Qed.

Lemma runLength_spec (indent : Z) (rows : list RowData) (n : nat) :
  (n < runLength indent rows)%nat ↔
  ∀ j, (j <= n)%nat → ∃ row, rows !! j = Some row ∧ indent < row_indent row.
Proof.
  revert n. induction rows as [|r rows IH]; intros n; cbn [runLength].
  - split; [lia|]. intros H. destruct (H 0%nat ltac:(lia)) as (? & ? & _).
    done.
  - destruct (Z.ltb_spec indent (row_indent r)) as [Hlt|Hge].
    + split.
      * intros Hn [|j] Hj; [by exists r|]. cbn. apply IH with (n := pred n); lia.
      * intros H. destruct n as [|n]; [lia|].
        apply ->Nat.succ_lt_mono. apply IH. intros j Hj.
        apply (H (S j)). lia.
    + split; [lia|]. intros H.
      destruct (H 0%nat ltac:(lia)) as (? & ? & ?). simplify_eq/=. lia.
Qed.

(** The descendant run of [p] holds the rows of which [p] is an
    ancestor. *)
Lemma elem_of_descendantRun (data : list RowData) (p i : nat) :
  i ∈ descendantRun data p ↔
  (i < length data)%nat ∧ isAncestor data p i = true.
Proof.
  unfold descendantRun. rewrite elem_of_seq, isAncestor_spec. split.
  - intros [Hp Hi].
    assert (i - S p < runLength (indentAt data p) (drop (S p) data))%nat
      as Hrun by lia.
    rewrite runLength_spec in Hrun.
    assert (∀ k, (p < k <= i)%nat →
                 ∃ row, data !! k = Some row
                        ∧ indentAt data p < row_indent row) as Hk.
    { intros k Hk. destruct (Hrun (k - S p)%nat ltac:(lia)) as (row & Hr & ?).
      rewrite lookup_drop in Hr. exists row.
      by replace (S p + (k - S p))%nat with k in Hr by lia. }
    split; [|split; [lia|]].
    + destruct (Hk i ltac:(lia)) as (row & Hr & _).
      by apply lookup_lt_Some in Hr.
    + intros k Hki. destruct (Hk k Hki) as (row & Hr & ?).
      by rewrite (indentAt_lookup _ _ _ Hr).
  - intros [Hi [Hp Hk]]. split; [lia|].
    assert (i - S p < runLength (indentAt data p) (drop (S p) data))%nat;
      [|lia].
    apply runLength_spec. intros j Hj.
    destruct (lookup_lt_is_Some_2 data (S p + j)) as [row Hr]; [lia|].
    exists row. rewrite lookup_drop. split; [done|].
    rewrite <- (indentAt_lookup _ _ _ Hr). apply Hk. lia.
Qed.

Lemma idAt_unique (data : list RowData) (p q : nat) :
  NoDup (row_id <$> data) →
  (p < length data)%nat → (q < length data)%nat →
  idAt data q = idAt data p → q = p.
Proof.
  intros Hnd Hp Hq Heq.
  destruct (lookup_lt_is_Some_2 data p Hp) as [rp Hrp].
  destruct (lookup_lt_is_Some_2 data q Hq) as [rq Hrq].
  rewrite (idAt_lookup _ _ _ Hrp), (idAt_lookup _ _ _ Hrq) in Heq.
  apply (NoDup_lookup _ q p (row_id rq) Hnd).
  - by rewrite list_lookup_fmap, Hrq.
  - by rewrite list_lookup_fmap, Hrp, Heq.
Qed.

(** Collapsing one more row hides its descendant run, and nothing else. *)
Lemma visibleRowIndices_collapse (data : list RowData)
    (collapsed : gset string) (p : nat) :
  NoDup (row_id <$> data) → (p < length data)%nat →
  visibleRowIndices data (collapsed ∪ {[idAt data p]})
  = filter (λ i, i ∉ descendantRun data p)
      (visibleRowIndices data collapsed).
Proof.
  intros Hnd Hp. rewrite !visibleRowIndices_filter, list_filter_filter.
  apply filter_ext_elem. intros k [_ Hk]%elem_of_seq.
  rewrite elem_of_descendantRun, <- !not_true_iff_false,
    !hasCollapsedAncestor_spec.
  split.
  - intros Hn. split.
    + intros [_ Hanc]. apply Hn. exists p. split; [done|].
      apply elem_of_union_r. by apply elem_of_singleton.
    + intros (a & Ha & Hc). apply Hn. exists a. split; [done|].
      by apply elem_of_union_l.
  - intros [Hrun Hn] (a & Ha & [Hc|Hc%elem_of_singleton]%elem_of_union).
    + apply Hn. eauto.
    + apply Hrun. split; [lia|].
      assert (a = p) as <-; [|done].
      pose proof (isAncestor_lt _ _ _ Ha).
      apply (idAt_unique data p a Hnd); [done|lia|done].
Qed.

Lemma toggleCollapsed_twice (rowId : string) (collapsed : gset string) :
  toggleCollapsed rowId (toggleCollapsed rowId collapsed) = collapsed.
Proof.
  unfold toggleCollapsed.
  destruct (bool_decide_reflect (rowId ∈ collapsed)) as [Hin|Hnin].
  - rewrite bool_decide_eq_false_2.
    + apply set_eq. intros x.
      rewrite elem_of_union, elem_of_difference, elem_of_singleton.
      destruct (decide (x = rowId)) as [->|]; tauto.
    + rewrite elem_of_difference, elem_of_singleton. tauto.
  - rewrite bool_decide_eq_true_2.
    + apply set_eq. intros x.
      rewrite elem_of_difference, elem_of_union, elem_of_singleton.
      destruct (decide (x = rowId)) as [->|]; tauto.
    + rewrite elem_of_union, elem_of_singleton. tauto.
Qed.

(** C7.  For every row collection and collapse set: a row is in the
    visible-row projection if and only if none of its ancestors (the rows
    that the indent stack holds when the walk reaches the row) is
    collapsed.  Hence, when the identifiers of the rows are distinct,
    collapsing a row that is expanded hides its descendant run (the rows
    that follow it, indented deeper, up to the next row that is not) and
    no other row, and expanding it again gives back the visible rows there
    were before. *)
Theorem C7_visible_row_projection (data : list RowData)
    (collapsed : gset string) :
  (∀ i, i ∈ visibleRowIndices data collapsed ↔
        (i < length data)%nat
        ∧ ∀ a, isAncestor data a i = true → idAt data a ∉ collapsed)
  ∧ (∀ p, NoDup (row_id <$> data) → (p < length data)%nat →
          idAt data p ∉ collapsed →
          let collapsed' := toggleCollapsed (idAt data p) collapsed in
          visibleRowIndices data collapsed'
          = filter (λ i, i ∉ descendantRun data p)
              (visibleRowIndices data collapsed)
          ∧ visibleRowIndices data
              (toggleCollapsed (idAt data p) collapsed')
            = visibleRowIndices data collapsed).
Proof.
  split; [apply elem_of_visibleRowIndices|].
  intros p Hnd Hp Hnin collapsed'. subst collapsed'. split.
  - unfold toggleCollapsed. rewrite bool_decide_eq_false_2 by done.
    by apply visibleRowIndices_collapse.
  - by rewrite toggleCollapsed_twice.
Qed.

(** ** Navigation from a hidden anchor row *)

Lemma seq_sorted (i n : nat) : StronglySorted lt (seq i n).
Proof.
  revert i. induction n as [|n IH]; intros i; [constructor|].
  cbn [seq]. constructor; [apply IH|].
  apply Forall_forall. intros k Hk%elem_of_seq. lia.
Qed.

Lemma filter_sorted {A} (R : relation A) (P : A → Prop)
    `{!∀ x, Decision (P x)} (l : list A) :
  StronglySorted R l → StronglySorted R (filter P l).
Proof.
  induction 1 as [|x l Hs IH Hall]; [constructor|].
  rewrite filter_cons. destruct (decide (P x)); [|done].
  constructor; [done|].
  apply Forall_forall. intros y [_ Hy]%list_elem_of_filter.
  by apply (proj1 (Forall_forall _ _) Hall).
Qed.

(** The visible rows come in rising order. *)
Lemma visibleRowIndices_sorted (data : list RowData) (collapsed : gset string) :
  StronglySorted lt (visibleRowIndices data collapsed).
Proof. rewrite visibleRowIndices_filter. apply filter_sorted, seq_sorted. Qed.

(** The first row is always visible. *)
Lemma visibleRowIndices_first (data : list RowData) (collapsed : gset string) :
  data ≠ [] → 0%nat ∈ visibleRowIndices data collapsed.
Proof.
  intros Hne. apply elem_of_visibleRowIndices. split.
  - destruct data; [done|]. cbn. lia.
  - intros a Ha%isAncestor_lt. lia.
Qed.

Lemma indexOfFrom_absent (visible : list nat) (r i : Z) :
  (∀ v, v ∈ visible → Z.of_nat v ≠ r) → indexOfFrom i visible r = -1.
Proof.
  revert i. induction visible as [|v visible IH]; intros i H; [done|].
  cbn [indexOfFrom].
  destruct (Z.eqb_spec (Z.of_nat v) r) as [Heq|_].
  - exfalso. apply (H v); [by left|done].
  - apply IH. intros w Hw. apply H. by right.
Qed.

Lemma find_sorted_least (r : Z) (visible : list nat) (v : nat) :
  StronglySorted lt visible →
  find (λ v, Z.of_nat v >=? r) visible = Some v →
  v ∈ visible ∧ r <= Z.of_nat v
  ∧ ∀ w, w ∈ visible → r <= Z.of_nat w → (v <= w)%nat.
Proof.
  induction 1 as [|x l Hs IH Hall]; [done|].
  cbn [find]. destruct (Z.geb_spec (Z.of_nat x) r) as [Hge|Hlt].
  - intros [= <-]. split; [by left|]. split; [lia|].
    intros w [->|Hw]%elem_of_cons _; [lia|].
    apply (proj1 (Forall_forall _ _) Hall) in Hw. lia.
  - intros Hf. destruct (IH Hf) as (Hin & Hr & Hleast).
    split; [by right|]. split; [done|].
    intros w [->|Hw]%elem_of_cons Hw'; [lia|]. by apply Hleast.
Qed.

Lemma find_none_below (r : Z) (visible : list nat) :
  find (λ v, Z.of_nat v >=? r) visible = None →
  ∀ w, w ∈ visible → Z.of_nat w < r.
Proof.
  intros Hf w Hw%list_elem_of_In.
  pose proof (find_none _ _ Hf w Hw) as H. cbv beta in H. lia.
Qed.

Lemma arrayGet_last {A} (l : list A) :
  arrayGet l (Z.of_nat (length l) - 1) = last l.
Proof.
  unfold arrayGet. destruct l as [|x l] using rev_ind; [done|].
  rewrite length_app, last_snoc. cbn [length].
  clear IHl.
  assert ((Z.of_nat (length l + 1) - 1 <? 0) = false) as ->
    by (apply Z.ltb_ge; lia).
  replace (Z.to_nat (Z.of_nat (length l + 1) - 1)) with (length l) by lia.
  by rewrite lookup_app_r, Nat.sub_diag by lia.
Qed.

(** C10.  When the anchor row [r] is not among the visible rows (and the
    grid has rows), [nextPosAfter] returns, for every direction, the
    nearest visible row at or after [r], or the last visible row when
    there is none, and leaves the column as it is. *)
Theorem C10_nextPosAfter_hidden_anchor (data : list RowData)
    (collapsed : gset string) (colsLength r c : Z) (dir : Direction) :
  let visible := visibleRowIndices data collapsed in
  data ≠ [] →
  (∀ v, v ∈ visible → Z.of_nat v ≠ r) →
  ∃ v, v ∈ visible
       ∧ nextPosAfter visible colsLength r c dir
         = {| pos_r := Some (Z.of_nat v); pos_c := c |}
       ∧ ((r <= Z.of_nat v
           ∧ ∀ w, w ∈ visible → r <= Z.of_nat w → (v <= w)%nat)
          ∨ ((∀ w, w ∈ visible → Z.of_nat w < r) ∧ last visible = Some v)).
Proof.
  intros visible Hdata Habsent.
  pose proof (visibleRowIndices_sorted data collapsed) as Hsorted.
  pose proof (visibleRowIndices_first data collapsed Hdata) as Hfirst.
  fold visible in Hsorted, Hfirst.
  unfold nextPosAfter, indexOf.
  rewrite (indexOfFrom_absent visible r 0 Habsent). cbn [Z.eqb Pos.eqb].
  destruct (find (λ v, Z.of_nat v >=? r) visible) as [v|] eqn:Hfind.
  - destruct (find_sorted_least r visible v Hsorted Hfind)
      as (Hin & Hr & Hleast).
    exists v. split; [done|]. split; [done|]. left. done.
  - pose proof (find_none_below r visible Hfind) as Hbelow.
    rewrite arrayGet_last.
    destruct (last visible) as [v|] eqn:Hlast.
    + exists v. split; [|split; [done|right; done]].
      apply last_Some in Hlast as [l' ->]. apply elem_of_app. right. by left.
    + apply last_None in Hlast. rewrite Hlast in Hfirst.
      by apply elem_of_nil in Hfirst.
Qed.

(* ================================================================== *)
(** * The handlers *)
(* ================================================================== *)

(** The indent of row [i] is at least 0 and at most one more than the
    indent of the row before (0 before the first row). *)
Definition indentOk (data : list RowData) (i : nat) : bool :=
  (0 <=? indentAt data i)
  && (indentAt data i <=?
      match i with O => 0 | S j => indentAt data j end + 1).

Definition indentInvariant (data : list RowData) : Prop :=
  ∀ i, (i < length data)%nat → indentOk data i = true.

(** Projections of updated states. *)
Ltac simpl_state :=
  cbn [cols data heap sel editing collapsed editSessionIdRef
       lastCommittedSessionRef dragState log
       setData setHeap setSel setCols setEditing setCollapsed
       setEditSessionIdRef setLastCommittedSessionRef setDragState emit
       setAndPropagate setEditingBoth].

Ltac simpl_state_in H :=
  cbn [cols data heap sel editing collapsed editSessionIdRef
       lastCommittedSessionRef dragState log
       setData setHeap setSel setCols setEditing setCollapsed
       setEditSessionIdRef setLastCommittedSessionRef setDragState emit
       setAndPropagate setEditingBoth] in H.

Section TableCoreFacts.

Context {num : Type}.
Variable Number : string → num.
Variable parseClipboard : string → list (list string).
Variable props : Props.

Implicit Types s : @State num.

(** ** Indent *)

Lemma arrayGet_Some {A} (l : list A) (i : Z) (x : A) :
  arrayGet l i = Some x ↔ 0 <= i ∧ l !! Z.to_nat i = Some x.
Proof.
  unfold arrayGet. destruct (Z.ltb_spec i 0) as [Hlt|Hge].
  - split; [done|]. intros [? _]. lia.
  - split; [by intros ?|by intros [_ ?]].
Qed.

Lemma indentAt_insert (data : list RowData) (k i : nat) (row : RowData) :
  (k < length data)%nat →
  indentAt (<[k := row]> data) i
  = if decide (i = k) then row_indent row else indentAt data i.
Proof.
  intros Hk. unfold indentAt. destruct (decide (i = k)) as [->|Hne].
  - by rewrite list_lookup_insert_eq.
  - by rewrite list_lookup_insert_ne.
Qed.

(** What [indentRow] does to the rows: nothing, or row [k] gets the
    clamped indent. *)
Lemma indentRow_data (rowIdx delta : Z) s :
  data (indentRow rowIdx delta s) = data s
  ∨ ∃ (k : nat) (cur : RowData),
      rowIdx = Z.of_nat k ∧ data s !! k = Some cur
      ∧ data (indentRow rowIdx delta s)
        = <[k := {| row_id := row_id cur;
                    row_indent :=
                      clamp (row_indent cur + delta) 0
                        (match k with O => 0 | S j => indentAt (data s) j end
                         + 1);
                    row_cells := row_cells cur |}]> (data s).
Proof.
  unfold indentRow.
  destruct (arrayGet (data s) rowIdx) as [cur|] eqn:Hcur; [|by left].
  apply arrayGet_Some in Hcur as [Hge Hcur].
  set (prevIndent := if rowIdx >? 0 then _ else _).
  destruct (clamp (row_indent cur + delta) 0 (prevIndent + 1)
            =? row_indent cur); [by left|].
  right. exists (Z.to_nat rowIdx), cur. split; [lia|]. split; [done|].
  cbn. do 3 f_equal.
  subst prevIndent. destruct (Z.gtb_spec rowIdx 0) as [Hpos|Hle].
  - destruct (Z.to_nat rowIdx) as [|j] eqn:Hj; [lia|].
    unfold arrayGet, indentAt.
    assert ((rowIdx - 1 <? 0) = false) as -> by (apply Z.ltb_ge; lia).
    by replace (Z.to_nat (rowIdx - 1)) with j by lia.
  - by replace (Z.to_nat rowIdx) with 0%nat by lia.
Qed.

Lemma indentOk_spec (data : list RowData) (i : nat) :
  indentOk data i = true ↔
  0 <= indentAt data i
       <= match i with O => 0 | S j => indentAt data j end + 1.
Proof. unfold indentOk. rewrite andb_true_iff, Z.leb_le, Z.leb_le. tauto. Qed.

(** What [indentRow] leaves alone. *)
Lemma indentRow_frame (rowIdx delta : Z) s :
  heap (indentRow rowIdx delta s) = heap s
  ∧ cols (indentRow rowIdx delta s) = cols s
  ∧ sel (indentRow rowIdx delta s) = sel s.
Proof.
  unfold indentRow. destruct (arrayGet (data s) rowIdx) as [cur|]; [|done].
  by destruct (clamp _ _ _ =? row_indent cur).
Qed.

(** ** Commit *)

(** Every row of the collection has its [cells] object in the heap. *)
Definition heapClosed (s : @State num) : Prop :=
  ∀ row, row ∈ data s → (row_cells row < length (heap s))%nat.

(** The state after a cell commit. *)
Lemma commitCellValue_inv (r c : Z) (raw : string) (endEdit : bool)
    (s s' : @State num) :
  commitCellValue Number props r c raw endEdit s = Some s' →
  ∃ col, arrayGet (cols s) c = Some col
    ∧ cols s' = cols s ∧ sel s' = sel s
    ∧ match arrayGet (data s) r with
      | Some row =>
          data s' = <[Z.to_nat r :=
                        {| row_id := row_id row; row_indent := row_indent row;
                           row_cells := length (heap s) |}]> (data s)
          ∧ heap s' =
            heap s ++ [<[col_key col := commitValue Number props col raw]>
                         (default ∅ (heap s !! row_cells row))]
      | None => data s' = data s ∧ heap s' = heap s
      end.
Proof.
  unfold commitCellValue. intros H.
  apply bind_Some in H as (col & Hcol & H). exists col. split; [done|].
  destruct (arrayGet (data s) r) as [row|] eqn:Hrow; simplify_eq;
    unfold setEditingBoth, setAndPropagate;
    by destruct endEdit, (onCellCommit props), (onEditingChange props).
Qed.

(** What a cell commit stores: the cell, when its row exists, reads back
    as the coerced value; every other cell reads as before (the rows
    having their [cells] objects in the heap); the rows keep their
    identifiers and indents, and the columns and the selection stay. *)
Lemma commitCellValue_cells (r c : Z) (raw : string) (endEdit : bool)
    (s s' : @State num) (col : ColumnDef) :
  arrayGet (cols s) c = Some col →
  commitCellValue Number props r c raw endEdit s = Some s' →
  (∀ row, arrayGet (data s) r = Some row →
          storedValue s' r (col_key col) = commitValue Number props col raw)
  ∧ (heapClosed s →
     ∀ r' k, r' ≠ r ∨ k ≠ col_key col →
             storedValue s' r' k = storedValue s r' k)
  ∧ row_id <$> data s' = row_id <$> data s
  ∧ row_indent <$> data s' = row_indent <$> data s
  ∧ cols s' = cols s ∧ sel s' = sel s.
Proof.
  intros Hcol Hcommit.
  destruct (commitCellValue_inv _ _ _ _ _ _ Hcommit)
    as (col' & Hcol' & Hcols & Hsel & Hstate).
  assert (col' = col) as -> by congruence.
  destruct (arrayGet (data s) r) as [row|] eqn:Hrow.
  - destruct Hstate as [Hd Hh].
    apply arrayGet_Some in Hrow as [Hr Hrow].
    pose proof (lookup_lt_Some _ _ _ Hrow) as Hlt.
    split; [|split; [|split; [|split]]]; [..|done].
    + intros _ _. unfold storedValue, arrayGet.
      assert ((r <? 0) = false) as -> by (apply Z.ltb_ge; lia).
      rewrite Hd, Hh, list_lookup_insert_eq by done. cbn [row_cells].
      rewrite lookup_app_r, Nat.sub_diag by done. cbn.
      unfold cellGet. by rewrite lookup_insert_eq.
    + intros Hclosed r' k Hother. unfold storedValue, arrayGet.
      destruct (Z.ltb_spec r' 0) as [|Hr']; [done|].
      rewrite Hd, Hh.
      destruct (decide (Z.to_nat r' = Z.to_nat r)) as [E|E].
      * assert (r' = r) as -> by lia.
        destruct Hother as [?|Hk]; [done|].
        rewrite list_lookup_insert_eq, Hrow by done. cbn [row_cells].
        rewrite lookup_app_r, Nat.sub_diag by done. cbn.
        unfold cellGet. by rewrite lookup_insert_ne.
      * rewrite list_lookup_insert_ne by done.
        destruct (data s !! Z.to_nat r') as [other|] eqn:Ho; [|done].
        rewrite lookup_app_l; [done|].
        apply Hclosed. by eapply list_elem_of_lookup_2.
    + rewrite Hd, list_fmap_insert. cbn [row_id].
      apply list_insert_id. by rewrite list_lookup_fmap, Hrow.
    + rewrite Hd, list_fmap_insert. cbn [row_indent].
      apply list_insert_id. by rewrite list_lookup_fmap, Hrow.
  - destruct Hstate as [Hd Hh].
    split; [done|]. split; [|by rewrite Hd].
    intros _ r' k _. unfold storedValue. by rewrite Hd, Hh.
Qed.

(** A run of calls of [commitEdit]. *)
Fixpoint commitEdits (calls : list (Z * Z * string)) (s : @State num)
  : option (@State num) :=
  match calls with
  | [] => Some s
  | (r, c, val) :: calls' =>
      match commitEdit Number props r c val s with
      | Some s' => commitEdits calls' s'
      | None => None
      end
  end.

(** The number of row-collection mutations handed to the host, and of
    cell-commit notifications, in a log. *)
Fixpoint countEvents (f : @Event num → bool) (l : list (@Event num)) : nat :=
  match l with
  | [] => 0
  | e :: l' => ((if f e then 1 else 0) + countEvents f l')%nat
  end.

Definition countOnChange : list (@Event num) → nat :=
  countEvents (λ e, match e with OnChange _ => true | _ => false end).

Definition countOnCellCommit : list (@Event num) → nat :=
  countEvents (λ e, match e with OnCellCommit _ => true | _ => false end).

Lemma countEvents_app (f : @Event num → bool) (l1 l2 : list (@Event num)) :
  countEvents f (l1 ++ l2) = (countEvents f l1 + countEvents f l2)%nat.
Proof.
  induction l1 as [|e l1 IH]; [done|]. cbn [app countEvents]. rewrite IH. lia.
Qed.

Lemma startEditing_inv (next : EditingState) (s0 s : @State num) :
  startEditing props next s0 = Some s →
  lastCommittedSessionRef s = None
  ∧ editSessionIdRef s = editSessionIdRef s0 + 1
  ∧ editing s = Some next
  ∧ cols s = cols s0 ∧ data s = data s0 ∧ heap s = heap s0
  ∧ ∃ col, arrayGet (cols s) (edit_c next) = Some col.
Proof.
  unfold startEditing, setEditingBoth. intros H.
  apply bind_Some in H as (col & Hcol & H). simplify_eq.
  cbn in Hcol. destruct (onEditingChange props); cbn; eauto 10.
Qed.

(** A session that has committed commits no more. *)
Lemma commitEdits_committed (calls : list (Z * Z * string)) (s : @State num) :
  lastCommittedSessionRef s = Some (editSessionIdRef s) →
  commitEdits calls s = Some s.
Proof.
  intros Hs. induction calls as [|[[r c] val] calls IH]; [done|].
  cbn [commitEdits]. unfold commitEdit.
  by rewrite bool_decide_eq_true_2.
Qed.

(** The first commit of a session. *)
Lemma commitEdit_first (r c : Z) (val : string) (col : ColumnDef)
    (s : @State num) :
  lastCommittedSessionRef s ≠ Some (editSessionIdRef s) →
  arrayGet (cols s) c = Some col →
  ∃ s', commitEdit Number props r c val s = Some s'
        ∧ lastCommittedSessionRef s' = Some (editSessionIdRef s')
        ∧ editSessionIdRef s' = editSessionIdRef s
        ∧ editing s' = None
        ∧ cols s' = cols s
        ∧ log s' =
          log s
          ++ [OnChange (data s')]
          ++ (if onCellCommit props
              then [OnCellCommit
                      {| commit_row := r; commit_col := c;
                         commit_columnKey := col_key col;
                         commit_prev := storedValue s r (col_key col);
                         commit_next := commitValue Number props col val |}]
              else [])
          ++ (if onEditingChange props then [OnEditingChange None] else [])
        ∧ (∀ row, arrayGet (data s) r = Some row →
                  storedValue s' r (col_key col)
                  = commitValue Number props col val).
Proof.
  intros Hfresh Hcol. unfold commitEdit.
  rewrite bool_decide_eq_false_2 by done.
  unfold commitCellValue. simpl_state.
  rewrite Hcol. cbn [mbind option_bind].
  change (storedValue (setLastCommittedSessionRef
                         (Some (editSessionIdRef s)) s) r (col_key col))
    with (storedValue s r (col_key col)).
  destruct (arrayGet (data s) r) as [row|] eqn:Hrow.
  - pose proof Hrow as Hrow'.
    apply arrayGet_Some in Hrow as [Hr Hrow].
    pose proof (lookup_lt_Some _ _ _ Hrow) as Hlt.
    eexists. split; [reflexivity|].
    assert (∀ s1 : @State num,
              data s1 = <[Z.to_nat r :=
                            {| row_id := row_id row;
                               row_indent := row_indent row;
                               row_cells := length (heap s) |}]> (data s) →
              heap s1 = heap s ++ [<[col_key col :=
                                       commitValue Number props col val]>
                                     (default ∅ (heap s !! row_cells row))] →
              storedValue s1 r (col_key col)
              = commitValue Number props col val) as Hstored.
    { intros s1 Hd Hh. unfold storedValue, arrayGet.
      assert ((r <? 0) = false) as -> by (apply Z.ltb_ge; lia).
      rewrite Hd, Hh, list_lookup_insert_eq by done. cbn [row_cells].
      rewrite lookup_app_r, Nat.sub_diag by done. cbn.
      unfold cellGet. by rewrite lookup_insert_eq. }
    unfold setEditingBoth, setAndPropagate.
    destruct (onCellCommit props), (onEditingChange props); simpl_state;
      rewrite <- ?app_assoc; (repeat split; try done);
      intros row' _; by apply Hstored.
  - eexists. split; [reflexivity|].
    unfold setEditingBoth, setAndPropagate.
    destruct (onCellCommit props), (onEditingChange props); simpl_state;
      rewrite <- ?app_assoc; by repeat split.
Qed.

(** C3.  In an editing session (opened by [startEditing], with the host
    listening to cell commits), any number of calls of [commitEdit], at
    least one, the first one for the cell being edited, hands exactly one
    new row collection to the host and emits exactly one cell-commit
    notification, which carries the previous and the new value of the
    cell, whether they differ or not; every call after the first changes
    nothing.  The one mutation is the commit of the text: in the new
    collection the edited cell reads as the coerced value, every other
    cell reads as before, and the rows keep their identifiers and indents;
    the columns and the selection stay and the editor is closed. *)
Theorem C3_commit_once_per_session (s0 s : @State num) (next : EditingState)
    (val : string) (later : list (Z * Z * string)) :
  onCellCommit props = true →
  startEditing props next s0 = Some s →
  ∃ col s',
    arrayGet (cols s) (edit_c next) = Some col
    ∧ commitEdit Number props (edit_r next) (edit_c next) val s = Some s'
    ∧ commitEdits ((edit_r next, edit_c next, val) :: later) s = Some s'
    ∧ (∀ r c v, commitEdit Number props r c v s' = Some s')
    ∧ log s' =
      log s
      ++ [OnChange (data s');
          OnCellCommit
            {| commit_row := edit_r next; commit_col := edit_c next;
               commit_columnKey := col_key col;
               commit_prev := storedValue s (edit_r next) (col_key col);
               commit_next := commitValue Number props col val |}]
      ++ (if onEditingChange props then [OnEditingChange None] else [])
    ∧ countOnChange (log s') = S (countOnChange (log s))
    ∧ countOnCellCommit (log s') = S (countOnCellCommit (log s))
    ∧ (∀ row, arrayGet (data s) (edit_r next) = Some row →
              storedValue s' (edit_r next) (col_key col)
              = commitValue Number props col val)
    ∧ (heapClosed s →
       ∀ r k, r ≠ edit_r next ∨ k ≠ col_key col →
              storedValue s' r k = storedValue s r k)
    ∧ row_id <$> data s' = row_id <$> data s
    ∧ row_indent <$> data s' = row_indent <$> data s
    ∧ cols s' = cols s ∧ sel s' = sel s ∧ editing s' = None.
Proof.
  intros Hhook Hstart.
  destruct (startEditing_inv _ _ _ Hstart)
    as (Hlast & _ & _ & _ & _ & _ & col & Hcol).
  destruct (commitEdit_first (edit_r next) (edit_c next) val col s)
    as (s' & Hcommit & Hguard & _ & Hedit & _ & Hlog & _);
    [by rewrite Hlast|done|].
  rewrite Hhook in Hlog.
  exists col, s'. split; [done|]. split; [done|]. split.
  { cbn [commitEdits]. rewrite Hcommit. by apply commitEdits_committed. }
  split.
  { intros r c v. unfold commitEdit. by rewrite bool_decide_eq_true_2. }
  split; [exact Hlog|].
  split; [|split].
  1,2: rewrite Hlog; unfold countOnChange, countOnCellCommit;
    rewrite !countEvents_app; destruct (onEditingChange props); cbn; lia.
  pose proof Hcommit as Hcells. unfold commitEdit in Hcells.
  rewrite bool_decide_eq_false_2 in Hcells by (by rewrite Hlast).
  destruct (commitCellValue_cells (edit_r next) (edit_c next) val true
              (setLastCommittedSessionRef (Some (editSessionIdRef s)) s)
              s' col Hcol Hcells)
    as (Hcell & Hframe & Hids & Hindents & Hcols & Hsel).
  repeat split; done.
Qed.

(** ** Selection *)

(** A selection that is not empty is ordered and within the rows and the
    columns. *)
Definition selectionOk (sel : Selection) (rowCount colCount : Z) : bool :=
  negb (hasSel sel)
  || ((r1 sel <=? r2 sel) && (c1 sel <=? c2 sel)
      && (r2 sel <? rowCount) && (c2 sel <? colCount)).

Definition cellInBounds (r c rowCount colCount : Z) : Prop :=
  0 <= r < rowCount ∧ 0 <= c < colCount.

(** A press on a cell selects that cell. *)
Lemma onCellMouseDown_selectionOk (r c x y : Z) (s : @State num) :
  cellInBounds r c (Z.of_nat (length (data s))) (Z.of_nat (length (cols s))) →
  let s' := onCellMouseDown r c x y s in
  selectionOk (sel s') (Z.of_nat (length (data s')))
              (Z.of_nat (length (cols s'))) = true
  ∧ dragState s' = Some {| drag_active := true; drag_dragging := false;
                           drag_r0 := r; drag_c0 := c;
                           drag_x0 := x; drag_y0 := y |}.
Proof.
  intros [Hr Hc] s'. subst s'. unfold onCellMouseDown, selectionOk, hasSel.
  simpl_state. cbn [r1 r2 c1 c2]. split; [|done].
  apply orb_true_iff. right. rewrite !andb_true_iff. lia.
Qed.

(** The rectangle of a pointer drag keeps the selection ordered and within
    bounds, when the press and the cell under the pointer are cells of the
    grid. *)
Lemma onMouseMove_selectionOk (clientX : Z) (target : option (Z * Z))
    (s : @State num) :
  let rowCount := Z.of_nat (length (data s)) in
  let colCount := Z.of_nat (length (cols s)) in
  selectionOk (sel s) rowCount colCount = true →
  (∀ d, dragState s = Some d →
        cellInBounds (drag_r0 d) (drag_c0 d) rowCount colCount) →
  (∀ r c, target = Some (r, c) → cellInBounds r c rowCount colCount) →
  let s' := onMouseMove clientX target s in
  selectionOk (sel s') (Z.of_nat (length (data s')))
              (Z.of_nat (length (cols s'))) = true.
Proof.
  intros rowCount colCount Hok Hdrag Htarget s'. subst s'.
  unfold onMouseMove.
  destruct (dragState s) as [d|] eqn:Hd; [|done].
  destruct (drag_active d); cbn [negb]; [|done].
  destruct (Hdrag d eq_refl) as [Hr0 Hc0].
  set (d' := if negb (drag_dragging d) && _ then _ else d).
  assert (drag_r0 d' = drag_r0 d ∧ drag_c0 d' = drag_c0 d) as [Er Ec].
  { subst d'. by destruct (negb (drag_dragging d) && _). }
  destruct (drag_dragging d'); cbn [negb]; [|done].
  destruct target as [[r c]|]; [|done].
  destruct (Htarget r c eq_refl) as [Hr Hc].
  simpl_state. unfold selectionOk, hasSel. cbn [r1 r2 c1 c2].
  rewrite Er, Ec. apply orb_true_iff. right. rewrite !andb_true_iff.
  fold rowCount colCount. lia.
Qed.

(** ** The previous row collection *)

Lemma viewRows_app (h extra : list (gmap string (@CellValue num)))
    (rows : list RowData) :
  (∀ row, row ∈ rows → (row_cells row < length h)%nat) →
  viewRows (h ++ extra) rows = viewRows h rows.
Proof.
  intros Hclosed. unfold viewRows. apply map_ext_in. intros row Hrow.
  by rewrite lookup_app_l by (apply Hclosed; by apply list_elem_of_In).
Qed.

(** A cell commit leaves the collection that was there before as it was:
    the new collection has a new row object with a new [cells] object. *)
Lemma commitCellValue_keeps_previous (r c : Z) (raw : string) (endEdit : bool)
    (s s' : @State num) :
  heapClosed s →
  commitCellValue Number props r c raw endEdit s = Some s' →
  viewRows (heap s') (data s) = viewRows (heap s) (data s).
Proof.
  intros Hclosed. unfold commitCellValue. intros H.
  apply bind_Some in H as (col & Hcol & H).
  destruct (arrayGet (data s) r) as [row|]; simplify_eq;
    unfold setEditingBoth, setAndPropagate;
    destruct endEdit, (onCellCommit props), (onEditingChange props);
    simpl_state; try done; by apply viewRows_app.
Qed.

(** So does an indent change: the heap is not written to. *)
Lemma indentRow_keeps_previous (rowIdx delta : Z) (s : @State num) :
  viewRows (heap (indentRow rowIdx delta s)) (data s)
  = viewRows (heap s) (data s).
Proof.
  unfold indentRow. destruct (arrayGet (data s) rowIdx); [|done].
  by destruct (_ =? _).
Qed.

(** ** Paste *)

(** The writes of one clipboard row [line] from column [c] on: the key and
    the value for each cell that has a column. *)
Definition lineWrites (cs : list ColumnDef) (c : nat) (line : list string)
  : list (string * @CellValue num) :=
  zip_with (λ col raw, (col_key col, pasteValue Number props col raw))
           (drop c cs) line.

Definition applyWrites (cells : gmap string (@CellValue num))
    (ws : list (string * @CellValue num)) : gmap string (@CellValue num) :=
  foldl (λ acc w, <[w.1 := w.2]> acc) cells ws.

Lemma pasteLine_spec (cs : list ColumnDef) (l : loc) :
  ∀ (line : list string) (c : nat) (h : list (gmap string (@CellValue num)))
    (cells : gmap string (@CellValue num)),
    h !! l = Some cells →
    pasteLine Number props cs l (Z.of_nat c) line h
    = Some (<[l := applyWrites cells (lineWrites cs c line)]> h).
Proof.
  induction line as [|raw line IH]; intros c h cells Hl.
  - unfold lineWrites. rewrite zip_with_nil_r. cbn.
    by rewrite list_insert_id.
  - cbn [pasteLine].
    destruct (Z.geb_spec (Z.of_nat c) (Z.of_nat (length cs))) as [Hge|Hlt].
    + unfold lineWrites. rewrite drop_ge by lia. cbn.
      by rewrite list_insert_id.
    + destruct (lookup_lt_is_Some_2 cs c ltac:(lia)) as [col Hcol].
      rewrite (proj2 (arrayGet_Some cs (Z.of_nat c) col)); cycle 1.
      { split; [lia|]. by rewrite Nat2Z.id. }
      cbn [mbind option_bind].
      unfold heapWrite. rewrite Hl.
      replace (Z.of_nat c + 1) with (Z.of_nat (S c)) by lia.
      rewrite (IH (S c) _ (<[col_key col :=
                              pasteValue Number props col raw]> cells)).
      * rewrite list_insert_insert_eq. unfold lineWrites.
        by rewrite (drop_S _ _ _ Hcol).
      * apply list_lookup_insert_eq. by eapply lookup_lt_Some.
Qed.

(** One step of the outer loop, as a function on the heap. *)
Definition pasteStep (cs : list ColumnDef) (next : list RowData) (c : nat)
    (h : list (gmap string (@CellValue num))) (t : nat * list string)
  : list (gmap string (@CellValue num)) :=
  match next !! t.1 with
  | Some row =>
      match h !! row_cells row with
      | Some cells =>
          <[row_cells row := applyWrites cells (lineWrites cs c t.2)]> h
      | None => h
      end
  | None => h
  end.

Lemma pasteStep_length cs next c h t :
  length (pasteStep cs next c h t) = length h.
Proof.
  unfold pasteStep. destruct (next !! t.1); [|done].
  destruct (h !! _); [|done]. apply length_insert.
Qed.

Lemma pasteSteps_length cs next c ts h :
  length (foldl (pasteStep cs next c) h ts) = length h.
Proof.
  revert h. induction ts as [|t ts IH]; intros h; [done|].
  cbn [foldl]. by rewrite IH, pasteStep_length.
Qed.

Lemma pasteLines_spec (cs : list ColumnDef) (next : list RowData) (c : nat) :
  ∀ (m : list (list string)) (vis : list nat)
    (h : list (gmap string (@CellValue num))),
    (∀ v, v ∈ vis → ∃ row, next !! v = Some row
                           ∧ (row_cells row < length h)%nat) →
    pasteLines Number props cs next (Z.of_nat c) vis m h
    = Some (foldl (pasteStep cs next c) h (zip vis m)).
Proof.
  induction m as [|line m IH]; intros vis h Hvis.
  - by destruct vis.
  - destruct vis as [|v vis]; [done|]. cbn [pasteLines zip zip_with foldl].
    destruct (Hvis v ltac:(by left)) as (row & Hrow & Hlt).
    rewrite Hrow. cbn [mbind option_bind].
    destruct (lookup_lt_is_Some_2 h _ Hlt) as [cells Hcells].
    rewrite (pasteLine_spec cs _ line c h cells Hcells).
    cbn [mbind option_bind].
    rewrite IH.
    + assert (pasteStep cs next c h (v, line)
              = <[row_cells row := applyWrites cells (lineWrites cs c line)]> h)
        as ->; [|done].
      unfold pasteStep. cbn [fst snd]. rewrite Hrow. cbv beta iota.
      by rewrite Hcells.
    + intros w Hw. destruct (Hvis w ltac:(by right)) as (row' & ? & ?).
      exists row'. by rewrite length_insert.
Qed.

(** A location that no step aims at keeps its object. *)
Lemma pasteSteps_other cs next c ts h l :
  (∀ t row, t ∈ ts → next !! t.1 = Some row → row_cells row ≠ l) →
  foldl (pasteStep cs next c) h ts !! l = h !! l.
Proof.
  revert h. induction ts as [|t ts IH]; intros h Hts; [done|].
  cbn [foldl]. rewrite IH by (intros; eapply Hts; [by right|done]).
  unfold pasteStep. destruct (next !! t.1) as [row|] eqn:Hrow; [|done].
  destruct (h !! row_cells row); [|done].
  apply list_lookup_insert_ne. eapply Hts; [by left|done].
Qed.

(** The location that step [i] aims at gets the writes of line [i], when
    no other step aims at it. *)
Lemma pasteSteps_target cs next c ts h i v line row cells :
  ts !! i = Some (v, line) → next !! v = Some row →
  h !! row_cells row = Some cells →
  (∀ j t row', ts !! j = Some t → next !! t.1 = Some row' → j ≠ i →
               row_cells row' ≠ row_cells row) →
  foldl (pasteStep cs next c) h ts !! row_cells row
  = Some (applyWrites cells (lineWrites cs c line)).
Proof.
  revert h i cells. induction ts as [|t ts IH]; intros h i cells Hi Hrow Hc Hd;
    [done|].
  cbn [foldl]. destruct i as [|i].
  - cbn in Hi. simplify_eq.
    rewrite pasteSteps_other.
    + unfold pasteStep. cbn [fst snd]. rewrite Hrow. cbv beta iota.
      rewrite Hc. apply list_lookup_insert_eq. by eapply lookup_lt_Some.
    + intros t row' Ht Hrow'.
      apply list_elem_of_lookup in Ht as [j Hj].
      by apply (Hd (S j) t row').
  - cbn in Hi. apply (IH _ i cells Hi Hrow).
    + unfold pasteStep. destruct (next !! t.1) as [row'|] eqn:Hrow'; [|done].
      destruct (h !! row_cells row') eqn:Hc'; [|done].
      rewrite list_lookup_insert_ne; [done|].
      by apply (Hd 0%nat t row').
    + intros j t' row' Hj Hrow' Hne. apply (Hd (S j) t' row'); [done|done|lia].
Qed.

Lemma applyWrites_miss (cells : gmap string (@CellValue num))
    (ws : list (string * @CellValue num)) (k : string) :
  k ∉ ws.*1 → applyWrites cells ws !! k = cells !! k.
Proof.
  unfold applyWrites. revert cells.
  induction ws as [|[k' v] ws IH]; intros cells Hk; [done|].
  cbn [foldl fst snd]. cbn in Hk. apply not_elem_of_cons in Hk as [Hne Hk].
  rewrite IH by done. by apply lookup_insert_ne.
Qed.

Lemma applyWrites_hit (cells : gmap string (@CellValue num))
    (ws : list (string * @CellValue num)) (k : string) (v : @CellValue num) :
  NoDup ws.*1 → (k, v) ∈ ws → applyWrites cells ws !! k = Some v.
Proof.
  unfold applyWrites. revert cells.
  induction ws as [|[k' v'] ws IH]; intros cells Hnd Hin.
  - by apply elem_of_nil in Hin.
  - cbn [foldl fst snd]. cbn in Hnd. apply NoDup_cons in Hnd as [Hk' Hnd].
    apply elem_of_cons in Hin as [Heq|Hin].
    + simplify_eq. fold (applyWrites (<[k' := v']> cells) ws).
      rewrite applyWrites_miss by done. apply lookup_insert_eq.
    + by apply IH.
Qed.

Lemma lineWrites_keys (cs : list ColumnDef) (c : nat) (line : list string) :
  (lineWrites cs c line).*1
  = col_key <$> take (length line) (drop c cs).
Proof.
  unfold lineWrites. generalize (drop c cs). intros l.
  revert line. induction l as [|col l IH]; intros [|raw line]; try done.
  cbn. by rewrite IH.
Qed.

Lemma lineWrites_NoDup (cs : list ColumnDef) (c : nat) (line : list string) :
  NoDup (col_key <$> cs) → NoDup (lineWrites cs c line).*1.
Proof.
  intros Hnd. rewrite lineWrites_keys.
  eapply sublist_NoDup; [exact Hnd|].
  apply fmap_sublist. etrans; [apply sublist_take|apply sublist_drop].
Qed.

Lemma lineWrites_elem (cs : list ColumnDef) (c j : nat) (line : list string)
    (col : ColumnDef) (raw : string) :
  cs !! (c + j)%nat = Some col → line !! j = Some raw →
  (col_key col, pasteValue Number props col raw) ∈ lineWrites cs c line.
Proof.
  intros Hcol Hraw. unfold lineWrites.
  apply list_elem_of_lookup. exists j.
  rewrite lookup_zip_with, lookup_drop, Hcol. cbn. by rewrite Hraw.
Qed.

Lemma lineWrites_key_inv (cs : list ColumnDef) (c : nat) (line : list string)
    (k : string) :
  k ∈ (lineWrites cs c line).*1 →
  ∃ j col raw, cs !! (c + j)%nat = Some col ∧ line !! j = Some raw
               ∧ col_key col = k.
Proof.
  intros Hk. apply list_elem_of_fmap in Hk as ([k' v] & -> & Hin).
  unfold lineWrites in Hin.
  apply list_elem_of_lookup in Hin as [j Hj].
  rewrite lookup_zip_with in Hj.
  apply bind_Some in Hj as (col & Hcol & Hj).
  apply bind_Some in Hj as (raw & Hraw & Hj). simplify_eq.
  rewrite lookup_drop in Hcol. eauto 6.
Qed.

(** The content of the [cells] object of a row. *)
Definition cellsOf (h : list (gmap string (@CellValue num))) (row : RowData)
  : gmap string (@CellValue num) :=
  default ∅ (h !! row_cells row).

Lemma visibleRowIndices_NoDup (rows : list RowData) (coll : gset string) :
  NoDup (visibleRowIndices rows coll).
Proof. rewrite visibleRowIndices_filter. apply NoDup_filter, NoDup_seq. Qed.

Lemma indexOfFrom_found (visible : list nat) (r : Z) :
  ∀ (start : nat) (i : Z) (anchor : nat),
    NoDup visible → visible !! start = Some anchor → Z.of_nat anchor = r →
    indexOfFrom i visible r = i + Z.of_nat start.
Proof.
  induction visible as [|v visible IH]; intros start i anchor Hnd Hs Hr;
    [done|].
  apply NoDup_cons in Hnd as [Hv Hnd]. cbn [indexOfFrom].
  destruct start as [|start].
  - cbn in Hs. simplify_eq. rewrite Z.eqb_refl. lia.
  - cbn in Hs. destruct (Z.eqb_spec (Z.of_nat v) r) as [Heq|_].
    + exfalso. apply Hv. assert (v = anchor) as -> by lia.
      by eapply list_elem_of_lookup_2.
    + rewrite (IH start (i + 1) anchor) by done. lia.
Qed.

Lemma row_cells_inj (rows : list RowData) (i j : nat) (ri rj : RowData) :
  NoDup (row_cells <$> rows) →
  rows !! i = Some ri → rows !! j = Some rj →
  row_cells ri = row_cells rj → i = j.
Proof.
  intros Hnd Hi Hj Heq.
  apply (NoDup_lookup _ i j (row_cells ri) Hnd).
  - by rewrite list_lookup_fmap, Hi.
  - by rewrite list_lookup_fmap, Hj, Heq.
Qed.

(** C8.  An empty clipboard text changes nothing.  Otherwise, with a
    selection whose first row is at place [start] of the visible-row
    projection (and with distinct column keys, every row owning its
    [cells] object), pasting the block [parseClipboard txt] hands the rows
    back to the host, as many rows and columns as before, after writing
    cell [j] of clipboard row [i] into the row at place [start + i] of the
    projection, at column [c1 + j], coerced by the type of the column,
    whenever that place and that column exist.  Every other cell keeps
    its value: cells of hidden rows, cells that have no clipboard cell,
    and clipboard cells beyond the last visible row or the last column
    are dropped. *)
Theorem C8_paste_placement (s : @State num) (txt : string)
    (start anchor : nat) :
  onPaste Number parseClipboard props "" s = Some s
  ∧ (let visible := visibleRowIndices (data s) (collapsed s) in
     let m := parseClipboard txt in
     let c0 := Z.to_nat (c1 (sel s)) in
     hasSel (sel s) = true → txt ≠ "" →
     visible !! start = Some anchor → Z.of_nat anchor = r1 (sel s) →
     NoDup (col_key <$> cols s) → NoDup (row_cells <$> data s) →
     heapClosed s →
     ∃ s', onPaste Number parseClipboard props txt s = Some s'
       ∧ data s' = data s ∧ cols s' = cols s
       ∧ length (heap s') = length (heap s)
       ∧ log s' = log s ++ [OnChange (data s)]
       ∧ (∀ i j line raw visRow row col,
            m !! i = Some line → line !! j = Some raw →
            visible !! (start + i)%nat = Some visRow →
            data s !! visRow = Some row →
            cols s !! (c0 + j)%nat = Some col →
            cellGet (cellsOf (heap s') row) (col_key col)
            = pasteValue Number props col raw)
       ∧ (∀ ri row k,
            data s !! ri = Some row →
            (∀ i j line raw col,
               m !! i = Some line → line !! j = Some raw →
               visible !! (start + i)%nat = Some ri →
               cols s !! (c0 + j)%nat = Some col → col_key col ≠ k) →
            cellsOf (heap s') row !! k = cellsOf (heap s) row !! k)
       ∧ (∀ ri row,
            data s !! ri = Some row → ri ∉ visible →
            cellsOf (heap s') row = cellsOf (heap s) row)).
Proof.
  split.
  { unfold onPaste. by destruct (negb (hasSel (sel s))). }
  intros visible m c0 Hsel Htxt Hstart Hanchor Hkeys Hlocs Hclosed.
  pose proof (visibleRowIndices_NoDup (data s) (collapsed s)) as Hvnd.
  fold visible in Hvnd.
  assert (∀ v, v ∈ visible → ∃ row, data s !! v = Some row
                               ∧ (row_cells row < length (heap s))%nat)
    as Hrows.
  { intros v [Hv _]%elem_of_visibleRowIndices.
    destruct (lookup_lt_is_Some_2 _ _ Hv) as [row Hrow].
    exists row. split; [done|]. apply Hclosed.
    by eapply list_elem_of_lookup_2. }
  set (ts := zip (drop start visible) m).
  set (h' := foldl (pasteStep (cols s) (data s) c0) (heap s) ts).
  assert (onPaste Number parseClipboard props txt s
          = Some (setAndPropagate (data s) (setHeap h' s))) as Hpaste.
  { unfold onPaste. rewrite Hsel. cbn [negb].
    destruct txt as [|ch txt]; [done|]. cbn [JS.isEmpty].
    fold visible. unfold indexOf.
    rewrite (indexOfFrom_found _ _ start 0 anchor Hvnd Hstart Hanchor).
    assert ((0 + Z.of_nat start =? -1) = false) as ->
      by (apply Z.eqb_neq; lia).
    replace (Z.to_nat (0 + Z.of_nat start)) with start by lia.
    replace (c1 (sel s)) with (Z.of_nat c0)
      by (subst c0; unfold hasSel in Hsel; lia).
    rewrite pasteLines_spec; [done|].
    intros v Hv. apply Hrows. by apply (subseteq_drop start visible). }
  assert (∀ i v line, ts !! i = Some (v, line) ↔
                      visible !! (start + i)%nat = Some v ∧ m !! i = Some line)
    as Hts.
  { intros i v line. subst ts. rewrite lookup_zip_with, lookup_drop.
    split.
    - intros H. apply bind_Some in H as (v' & Hv' & H).
      apply bind_Some in H as (line' & Hl' & H). by simplify_eq.
    - intros [-> ->]. done. }
  assert (∀ i j vi vj li lj ri rj,
            ts !! i = Some (vi, li) → ts !! j = Some (vj, lj) →
            data s !! vi = Some ri → data s !! vj = Some rj →
            row_cells ri = row_cells rj → i = j) as Hdistinct.
  { intros i j vi vj li lj ri rj [Hi _]%Hts [Hj _]%Hts Hri Hrj Heq.
    pose proof (row_cells_inj _ _ _ _ _ Hlocs Hri Hrj Heq) as ->.
    pose proof (NoDup_lookup _ _ _ _ Hvnd Hi Hj). lia. }
  exists (setAndPropagate (data s) (setHeap h' s)).
  split; [exact Hpaste|]. simpl_state.
  split; [done|]. split; [done|].
  split; [apply pasteSteps_length|]. split; [done|].
  assert (∀ i visRow line row,
            ts !! i = Some (visRow, line) → data s !! visRow = Some row →
            cellsOf h' row
            = applyWrites (cellsOf (heap s) row)
                          (lineWrites (cols s) c0 line)) as Htarget.
  { intros i visRow line row Hi Hrow.
    assert (row_cells row < length (heap s))%nat as Hlt
      by (apply Hclosed; by eapply list_elem_of_lookup_2).
    destruct (lookup_lt_is_Some_2 _ _ Hlt) as [cells Hcells].
    unfold cellsOf. rewrite Hcells. cbn [default].
    subst h'.
    rewrite (pasteSteps_target _ _ _ ts _ i visRow line row cells);
      [done|done|done|done|].
    intros j [vj lj] row' Hj Hrow' Hne Heq. cbn [fst] in Hrow'.
    apply Hne. by eapply (Hdistinct j i). }
  assert (∀ ri row,
            data s !! ri = Some row →
            (∀ i line, ts !! i ≠ Some (ri, line)) →
            cellsOf h' row = cellsOf (heap s) row) as Hother.
  { intros ri row Hrow Hno. unfold cellsOf. subst h'.
    rewrite pasteSteps_other; [done|].
    intros [v line] row' Ht Hrow'. cbn [fst] in Hrow'. intros Heq.
    apply list_elem_of_lookup in Ht as [i Hi].
    pose proof (row_cells_inj _ _ _ _ _ Hlocs Hrow' Hrow Heq) as ->.
    by apply (Hno i line). }
  split; [|split].
  - intros i j line raw visRow row col Hline Hraw Hvis Hrow Hcol.
    rewrite (Htarget i visRow line row
               (proj2 (Hts _ _ _) (conj Hvis Hline)) Hrow).
    unfold cellGet.
    rewrite (applyWrites_hit _ _ (col_key col)
               (pasteValue Number props col raw)); [done| |].
    + by apply lineWrites_NoDup.
    + by apply (lineWrites_elem _ _ j).
  - intros ri row k Hrow Hmiss.
    destruct (decide (Exists (λ t, t.1 = ri) ts)) as [Hex|Hnex].
    + apply Exists_exists in Hex as ([v line] & Ht & Hv). cbn in Hv. subst v.
      apply list_elem_of_lookup in Ht as [i Hi].
      rewrite (Htarget i ri line row Hi Hrow).
      apply applyWrites_miss. intros Hk.
      apply lineWrites_key_inv in Hk as (j & col & raw & Hcol & Hraw & Hkey).
      apply Hts in Hi as [Hvis Hline].
      by apply (Hmiss i j line raw col).
    + rewrite (Hother ri row Hrow); [done|].
      intros i line Hi. apply Hnex, Exists_exists.
      exists (ri, line). split; [by eapply list_elem_of_lookup_2|done].
  - intros ri row Hrow Hhidden. apply (Hother ri row Hrow).
    intros i line [Hvis _]%Hts. apply Hhidden.
    by eapply list_elem_of_lookup_2.
Qed.

End TableCoreFacts.

(* ================================================================== *)
(** * Worked examples *)
(* ================================================================== *)

(** Four rows: a, b under a, c under b, and d. *)
Definition exampleRows : list RowData :=
  [ {| row_id := "a"; row_indent := 0; row_cells := 0%nat |};
    {| row_id := "b"; row_indent := 1; row_cells := 1%nat |};
    {| row_id := "c"; row_indent := 2; row_cells := 2%nat |};
    {| row_id := "d"; row_indent := 0; row_cells := 3%nat |} ].

(** The visible rows of the example under some collapse sets. *)
Lemma exampleRows_visible :
  visibleRowIndices exampleRows ∅ = [0; 1; 2; 3]%nat
  ∧ visibleRowIndices exampleRows {["a"]} = [0; 3]%nat
  ∧ visibleRowIndices exampleRows {["b"]} = [0; 1; 3]%nat
  ∧ visibleRowIndices exampleRows {["c"]} = [0; 1; 2; 3]%nat
  ∧ descendantRun exampleRows 0 = [1; 2]%nat.
Proof. repeat split; vm_compute; reflexivity. Qed.

(** The witness of C7: collapsing row "a" of the example, and expanding it
    again. *)
Lemma C7_visible_row_projection_witness :
  visibleRowIndices exampleRows (toggleCollapsed "a" ∅)
  = filter (λ i, i ∉ descendantRun exampleRows 0)
      (visibleRowIndices exampleRows ∅)
  ∧ visibleRowIndices exampleRows (toggleCollapsed "a" (toggleCollapsed "a" ∅))
    = visibleRowIndices exampleRows ∅.
Proof.
  apply (proj2 (C7_visible_row_projection exampleRows ∅) 0%nat).
  - apply (@bool_decide_unpack _ (NoDup_dec _)). vm_compute. exact I.
  - cbn. lia.
  - apply not_elem_of_empty.
Defined.

(** The witness of C10: row "a" is collapsed and the anchor is the hidden
    row 1; Shift+Tab from column 2 goes to the visible row 3 and stays in
    column 2. *)
Lemma C10_nextPosAfter_hidden_anchor_witness :
  ∃ v, v ∈ visibleRowIndices exampleRows {["a"]}
       ∧ nextPosAfter (visibleRowIndices exampleRows {["a"]}) 3 1 2 left
         = {| pos_r := Some (Z.of_nat v); pos_c := 2 |}
       ∧ ((1 <= Z.of_nat v
           ∧ ∀ w, w ∈ visibleRowIndices exampleRows {["a"]} →
                  1 <= Z.of_nat w → (v <= w)%nat)
          ∨ ((∀ w, w ∈ visibleRowIndices exampleRows {["a"]} →
                   Z.of_nat w < 1)
             ∧ last (visibleRowIndices exampleRows {["a"]}) = Some v)).
Proof.
  apply (C10_nextPosAfter_hidden_anchor exampleRows {["a"]} 3 1 2 left).
  - discriminate.
  - intros v Hv.
    replace (visibleRowIndices exampleRows {["a"]}) with [0; 3]%nat in Hv
      by (vm_compute; reflexivity).
    apply elem_of_cons in Hv as [->|Hv]; [lia|].
    apply elem_of_cons in Hv as [->|Hv]; [lia|].
    by apply elem_of_nil in Hv.
Defined.

(** For the examples the numbers are the integers written as a run of
    digits; [None] stands for the other results of [Number]. *)
Definition exampleNumber (raw : string) : option Z :=
  if allDigits raw && negb (JS.isEmpty raw)
  then Some (JS.NumberOfDigits raw) else None.

(** Modelled from the spec: [parseClipboard] of src/core/utils/clipboard
    is not among the sources; the specification has it split the text on
    newline, then each row on the tab character, keeping empty cells, and
    give the empty block for the empty text. *)
Fixpoint splitOn (sep : ascii) (s : string) : list string :=
  match s with
  | EmptyString => [EmptyString]
  | String c s' =>
      if Ascii.eqb c sep then EmptyString :: splitOn sep s'
      else
        match splitOn sep s' with
        | cur :: rest => String c cur :: rest
        | [] => [String c EmptyString]
        end
  end.

Definition parseClipboardOfSpec (txt : string) : list (list string) :=
  if JS.isEmpty txt then [] else map (splitOn "009") (splitOn "010" txt).

Definition exampleProps : Props :=
  {| dateFormat := "dd.mm.yyyy"; onCellCommit := true;
     onEditingChange := true |}.

Definition exampleCols : list ColumnDef :=
  [ {| col_key := "title"; col_title := "Title"; col_type := Some text;
       col_width := None |};
    {| col_key := "value"; col_title := "Value"; col_type := Some number;
       col_width := None |};
    {| col_key := "start"; col_title := "Start"; col_type := Some date;
       col_width := None |} ].

(** The rows [exampleRows] (a, b under a, c under b, d), each with its
    [cells] object, and the cell (1, 0) selected. *)
Definition exampleState : @State (option Z) :=
  {| cols := exampleCols;
     data := exampleRows;
     heap := [ {["title" := VString "A"]};
               {["title" := VString "B"; "value" := VString "12"]};
               {["title" := VString "C"]};
               {["title" := VString "D"]} ];
     sel := {| r1 := 1; c1 := 0; r2 := 1; c2 := 0 |};
     editing := None;
     collapsed := ∅;
     editSessionIdRef := 0;
     lastCommittedSessionRef := None;
     dragState := None;
     log := [] |}.

Lemma exampleRows_indentInvariant : indentInvariant exampleRows.
Proof.
  intros i Hi. cbn in Hi.
  do 4 (destruct i as [|i]; [reflexivity|]). exfalso. lia.
Qed.

(** C5.  The indent invariant is not kept by every indent-adjust
    operation: from the indents 0, 1, 2, 0, which keep the invariant,
    Alt+ArrowLeft on row 1 gives 0, 0, 2, 0, where row 2 is two levels
    deeper than the row before it.  [indentRow] clamps the adjusted row
    against the row before it and leaves the row after it as it was. *)
Theorem C5_outdent_leaves_the_next_row_too_deep :
  indentInvariant (data exampleState)
  ∧ r1 (sel exampleState) = 1
  ∧ row_indent <$> data exampleState = [0; 1; 2; 0]
  ∧ row_indent <$> data (onKeyAltArrow false exampleState) = [0; 0; 2; 0]
  ∧ indentOk (data (onKeyAltArrow false exampleState)) 2 = false
  ∧ ¬ indentInvariant (data (onKeyAltArrow false exampleState)).
Proof.
  split; [exact exampleRows_indentInvariant|].
  do 4 (split; [reflexivity|]).
  intros H.
  assert (2 < length (data (onKeyAltArrow false exampleState)))%nat as Hlt
    by (vm_compute; lia).
  specialize (H 2%nat Hlt). vm_compute in H. discriminate H.
Qed.

(** The session opened by typing "1" into the cell (1, 1). *)
Definition exampleEdit : EditingState :=
  {| edit_r := 1; edit_c := 1; edit_mode := replace; edit_seed := Some "1" |}.

Definition exampleEditing : @State (option Z) :=
  default exampleState (startEditing exampleProps exampleEdit exampleState).

Lemma exampleState_heapClosed : heapClosed exampleState.
Proof.
  intros row Hrow. cbn in Hrow.
  repeat (apply elem_of_cons in Hrow as [->|Hrow]; [cbn; lia|]).
  by apply elem_of_nil in Hrow.
Qed.

(** The witness of C3: the text "15" committed by a blur and again by
    Enter; the cell held the text "12", and holds the number 15
    afterwards, beside the title "B". *)
Lemma C3_commit_once_per_session_witness :
  ∃ s', commitEdits exampleNumber exampleProps
          [(1, 1, "15"); (1, 1, "15")] exampleEditing = Some s'
        ∧ log s' =
          log exampleEditing
          ++ [OnChange (data s');
              OnCellCommit
                {| commit_row := 1; commit_col := 1;
                   commit_columnKey := "value";
                   commit_prev := VString "12";
                   commit_next := VNumber (Some 15) |}]
          ++ [OnEditingChange None]
        ∧ countOnChange (log s') = S (countOnChange (log exampleEditing))
        ∧ countOnCellCommit (log s')
          = S (countOnCellCommit (log exampleEditing))
        ∧ storedValue s' 1 "value" = VNumber (Some 15)
        ∧ storedValue s' 1 "title" = VString "B"
        ∧ storedValue s' 0 "title" = VString "A".
Proof.
  destruct (C3_commit_once_per_session exampleNumber exampleProps
              exampleState exampleEditing exampleEdit "15" [(1, 1, "15")]
              eq_refl eq_refl)
    as (col & s' & Hcol & _ & Hrun & _ & Hlog & Hn1 & Hn2 & Hcell & Hframe
        & _).
  exists s'. split; [exact Hrun|].
  injection Hcol as <-. split; [exact Hlog|].
  split; [exact Hn1|]. split; [exact Hn2|].
  assert (heapClosed exampleEditing) as Hclosed.
  { change (heapClosed exampleState). exact exampleState_heapClosed. }
  split; [exact (Hcell _ eq_refl)|]. split.
  - rewrite (Hframe Hclosed 1 "title") by (right; discriminate). reflexivity.
  - rewrite (Hframe Hclosed 0 "title") by (left; discriminate). reflexivity.
Defined.

(** C4.  The claim fails on the code at the column reorder.  With the
    columns title, value, start and the cells (0, 0) to (0, 1) selected
    (ordered, within bounds), dropping column 0 on column 2 gives the
    order value, start, title and remaps the edges one by one, by key:
    the selection becomes c1 = 2, c2 = 0, no longer ordered.  The pointer
    drag orders the edges with min and max ([onMouseMove_selectionOk]);
    the remap does not. *)
Theorem C4_reorder_remap_breaks_selection_order :
  let s0 := setSel {| r1 := 0; c1 := 0; r2 := 0; c2 := 1 |} exampleState in
  selectionOk (sel s0) (Z.of_nat (length (data s0)))
              (Z.of_nat (length (cols s0))) = true
  ∧ ∃ s1, onDrop 0 2 s0 = Some s1
          ∧ col_key <$> cols s1 = ["value"; "start"; "title"]
          ∧ sel s1 = {| r1 := 0; c1 := 2; r2 := 0; c2 := 0 |}
          ∧ selectionOk (sel s1) (Z.of_nat (length (data s1)))
                        (Z.of_nat (length (cols s1))) = false.
Proof.
  split; [reflexivity|].
  eexists. split; [reflexivity|]. repeat split.
Qed.

(** C6.  The claim fails on the code at the paste.  The host holds the
    rows of [exampleState]; row 1 shows the title "B".  After pasting the
    text "X" at the cell (1, 0), the rows that the host held before the
    paste show the title "X" in row 1: [onPaste] copies the array and
    then writes into the [cells] objects that the old and the new array
    share.  A cell commit and an indent change leave the previous rows as
    they were ([commitCellValue_keeps_previous],
    [indentRow_keeps_previous]). *)
Theorem C6_paste_writes_into_the_previous_rows :
  ∃ s1, onPaste exampleNumber parseClipboardOfSpec exampleProps "X"
          exampleState = Some s1
        ∧ log s1 = [OnChange (data exampleState)]
        ∧ (λ v, cellGet v.2 "title")
            <$> viewRows (heap exampleState) (data exampleState)
          = [VString "A"; VString "B"; VString "C"; VString "D"]
        ∧ (λ v, cellGet v.2 "title")
            <$> viewRows (heap s1) (data exampleState)
          = [VString "A"; VString "X"; VString "C"; VString "D"].
Proof.
  eexists. split; [vm_compute; reflexivity|]. repeat split.
Qed.

(** A clipboard block of two rows and three columns: the cells are
    separated by TAB, the rows by LF. *)
Definition exampleClipboard : string :=
  "7" +:+ String "009" ("05.01.2026" +:+ String "009" ("z" +:+ String "010"
    ("8" +:+ String "009" ("2026-01-06" +:+ String "009" "w")))).

(** The witness of C8: with row "a" collapsed (rows 1 and 2 hidden) and
    the cell (0, 1) selected, the block of two rows and three columns
    lands in the visible rows 0 and 3, in the columns 1 and 2; its third
    column is dropped, and the hidden rows keep their cells. *)
Lemma C8_paste_placement_witness :
  let s := setSel {| r1 := 0; c1 := 1; r2 := 0; c2 := 1 |}
             (setCollapsed {["a"]} exampleState) in
  ∃ s', onPaste exampleNumber parseClipboardOfSpec exampleProps
          exampleClipboard s = Some s'
        ∧ data s' = data s ∧ cols s' = cols s
        ∧ (λ v, (cellGet v.2 "title", cellGet v.2 "value", cellGet v.2 "start"))
            <$> viewRows (heap s') (data s')
          = [ (VString "A", VNumber (Some 7), VString "05.01.2026");
              (VString "B", VString "12", VUndefined);
              (VString "C", VUndefined, VUndefined);
              (VString "D", VNumber (Some 8), VString "06.01.2026") ].
Proof.
  intros s.
  destruct (proj2 (C8_paste_placement exampleNumber parseClipboardOfSpec
                     exampleProps s
                     exampleClipboard 0%nat 0%nat))
    as (s' & Hpaste & Hdata & Hcols & _).
  - reflexivity.
  - vm_compute. discriminate.
  - vm_compute. reflexivity.
  - reflexivity.
  - apply (@bool_decide_unpack _ (NoDup_dec _)). vm_compute. exact I.
  - apply (@bool_decide_unpack _ (NoDup_dec _)). vm_compute. exact I.
  - exact exampleState_heapClosed.
  - exists s'. split; [exact Hpaste|]. split; [exact Hdata|].
    split; [exact Hcols|].
    assert (onPaste exampleNumber parseClipboardOfSpec exampleProps
              exampleClipboard s = Some s') as Hp by exact Hpaste.
    vm_compute in Hp. injection Hp as <-. vm_compute. reflexivity.
Defined.

(* ================================================================== *)
(** * The rest of the grid core *)
(* ================================================================== *)

(** The other functions and closures of src/core/TableCore.tsx that work
    on the rows, the columns and the selection: the ISO text for the
    native date input, the end of a pointer gesture, the value shown for a
    stored cell, the key handlers of the document and of the editor, and
    the copy handler.  What the component renders, and what it does to the
    DOM (focus, the native date picker, the width of a column under the
    resizer), is not modelled. *)


(** The fields of a [KeyboardEvent] that the handlers read. *)
Record KeyboardEvent : Type := {
  ev_key : string;
  ev_altKey : bool;
  ev_shiftKey : bool;
  ev_ctrlKey : bool;
  ev_metaKey : bool
}.

(** [["ArrowUp", "ArrowDown", "ArrowLeft", "ArrowRight", "Tab", "Enter"]] *)
Definition navigationKeys : list string :=
  ["ArrowUp"; "ArrowDown"; "ArrowLeft"; "ArrowRight"; "Tab"; "Enter"].

(** [e.altKey && !e.shiftKey && (e.key === "ArrowLeft" || e.key ===
    "ArrowRight")] *)
Definition isIndentChord (e : KeyboardEvent) : bool :=
  ev_altKey e && negb (ev_shiftKey e)
  && (String.eqb (ev_key e) "ArrowLeft" || String.eqb (ev_key e) "ArrowRight").

(** The row and the column of a position, [n.r] and [n.c]; [None] when
    the row is [undefined]. *)
Definition posCell (n : Pos) : option (Z * Z) :=
  r ← pos_r n; Some (r, pos_c n).

Section TableCoreRest.

Context {num : Type}.
Variable Number : string → num.
Variable props : Props.

(** ** Pointer *)

(** [onMouseUp()].  The class that [setGlobalNoSelect] toggles on the
    root element, and the flag [suppressClickToEditOnce], which no other
    handler reads, are not part of the state. *)
Definition onMouseUp (s : @State num) : @State num :=
  match dragState s with
  | None => s
  | Some d =>
      setDragState
        (Some {| drag_active := false; drag_dragging := false;
                 drag_r0 := drag_r0 d; drag_c0 := drag_c0 d;
                 drag_x0 := drag_x0 d; drag_y0 := drag_y0 d |})
        s
  end.

(** ** Display *)

(** [displayValue(_rowIndex, col, stored)] *)
Definition displayValue (col : ColumnDef) (stored : @CellValue num)
  : @CellValue num :=
  if isDateColumn col then
    match stored with
    | VString str =>
        match parseDateFlexible str (Some (dateFormat props)) with
        | None => stored
        | Some d =>
            if isDatetimeColumn col
            then VString (formatDatetimeByPattern (Some d) (dateFormat props))
            else VString (formatDateByPattern (Some d) (dateFormat props))
        end
    | _ => stored
    end
  else stored.

(** ** Keys *)

(** [onKey(e)], the [keydown] listener of the document.  The effect that
    registers it depends on [startEditing] only, so the [nextPosAfter] it
    calls is the one of the render in which it was registered: [visible]
    is the [visibleRowIndices] of that render, while the columns are read
    from [colsRef] when the key comes.  [None]: the handler threw, or the
    selection would get an [undefined] row. *)
Definition onKey (visible : list nat) (e : KeyboardEvent) (s : @State num)
  : option (@State num) :=
  match editing s with
  | Some _ => Some s
  | None =>
      let colsLength := Z.of_nat (length (cols s)) in
      let colMax := colsLength - 1 in
      let curSel := sel s in
      let k := ev_key e in
      if isIndentChord e then
        if negb (hasSel curSel) then Some s
        else
          Some (indentRow (r1 curSel)
                  (if String.eqb k "ArrowRight" then 1 else -1) s)
      else if bool_decide (k ∈ navigationKeys) then
        if negb (hasSel curSel) then Some s
        else
          let r := r1 curSel in
          let c := c1 curSel in
          r ← (if String.eqb k "ArrowUp"
               then pos_r (nextPosAfter visible colsLength r c up)
               else Some r);
          r ← (if String.eqb k "ArrowDown"
               then pos_r (nextPosAfter visible colsLength r c down)
               else Some r);
          let c := if String.eqb k "ArrowLeft" then clamp (c - 1) 0 colMax
                   else c in
          let c := if String.eqb k "ArrowRight" then clamp (c + 1) 0 colMax
                   else c in
          '(r, c) ← (if String.eqb k "Tab"
                     then posCell (nextPosAfter visible colsLength r c
                                     (if ev_shiftKey e then left else right))
                     else Some (r, c));
          '(r, c) ← (if String.eqb k "Enter"
                     then posCell (nextPosAfter visible colsLength r c
                                     (if ev_shiftKey e then up else down))
                     else Some (r, c));
          Some (setSel {| r1 := r; r2 := r; c1 := c; c2 := c |} s)
      else if (String.length k =? 1)%nat && negb (ev_ctrlKey e)
              && negb (ev_metaKey e) then
        if negb (hasSel curSel) then Some s
        else
          startEditing props
            {| edit_r := r1 curSel; edit_c := c1 curSel;
               edit_mode := replace; edit_seed := Some k |} s
      else if String.eqb k "F2" then
        if negb (hasSel curSel) then Some s
        else
          startEditing props
            {| edit_r := r1 curSel; edit_c := c1 curSel;
               edit_mode := caretEnd; edit_seed := None |} s
      else Some s
  end.

(** The [onKeyDown] handler of the editor of the cell
    [(rVisibleIdx, cIdx)], with the text [editValue] of the editor; its
    [nextPosAfter] is the one of the render that shows the editor. *)
Definition onEditorKeyDown (rVisibleIdx cIdx : Z) (editValue : string)
    (e : KeyboardEvent) (s : @State num) : option (@State num) :=
  let k := ev_key e in
  if String.eqb k "Escape" then Some (setEditingBoth props None s)
  else if String.eqb k "Enter" || String.eqb k "Tab" then
    s' ← commitEdit Number props rVisibleIdx cIdx editValue s;
    let next :=
      nextPosAfter (visibleRowIndices (data s) (collapsed s))
        (Z.of_nat (length (cols s))) rVisibleIdx cIdx
        (if String.eqb k "Enter"
         then if ev_shiftKey e then up else down
         else if ev_shiftKey e then left else right) in
    '(r, c) ← posCell next;
    Some (setSel {| r1 := r; r2 := r; c1 := c; c2 := c |} s')
  else Some s.

(** ** Copy *)

(** [stored ?? ""] *)
Definition orEmptyText (stored : @CellValue num) : @CellValue num :=
  match stored with
  | VNull | VUndefined => VString ""
  | _ => stored
  end.

(** The inner loop of [onCopy], [for (let c = c1; c <= c2; c++)], with
    [n] columns still to go from [c] on.  [None]: [col.key] of a column
    that does not exist. *)
Fixpoint copyLine (cs : list ColumnDef) (cells : gmap string (@CellValue num))
    (c : Z) (n : nat) : option (list (@CellValue num)) :=
  match n with
  | O => Some []
  | S n' =>
      col ← arrayGet cs c;
      let stored := orEmptyText (cellGet cells (col_key col)) in
      line ← copyLine cs cells (c + 1) n';
      Some (displayValue col stored :: line)
  end.

(** The outer loop of [onCopy], over the visible rows. *)
Fixpoint copyRows (s : @State num) (visible : list nat)
  : option (list (list (@CellValue num))) :=
  match visible with
  | [] => Some []
  | r :: visible' =>
      let curSel := sel s in
      if (Z.of_nat r <? r1 curSel) || (Z.of_nat r >? r2 curSel)
      then copyRows s visible'
      else
        row ← data s !! r;
        line ← copyLine (cols s) (default ∅ (heap s !! row_cells row))
                 (c1 curSel) (Z.to_nat (c2 curSel - c1 curSel + 1));
        m ← copyRows s visible';
        Some (line :: m)
  end.

(** [onCopy(e)]: the matrix [m] of the copied cells.  When it has a row
    it goes to the clipboard through [toTSV] of src/core/utils/clipboard;
    an empty matrix leaves the clipboard alone. *)
Definition onCopy (s : @State num) : option (list (list (@CellValue num))) :=
  let curSel := sel s in
  if negb (hasSel curSel) then Some []
  else copyRows s (visibleRowIndices (data s) (collapsed s)).

End TableCoreRest.

(* ================================================================== *)
(** * The demo rows (src/App.tsx) *)
(* ================================================================== *)

(** [pad2(n)] *)
Definition pad2 (n : option Z) : string :=
  JS.padStart (stringOfNumber n) 2 "0".

(** [dateDMY(year, month, day)] *)
Definition dateDMY (year month day : option Z) : string :=
  pad2 day +:+ "." +:+ pad2 month +:+ "." +:+ stringOfNumber year.



(** [toDMY(d)] *)
Definition toDMY (d : JS.Date) : string :=
  dateDMY (JS.getFullYear d) ((λ m, m + 1) <$> JS.getMonth d) (JS.getDate d).

(* ================================================================== *)
(** * Parents and visible rows *)
(* ================================================================== *)

(** X1.  [computeHasChildren] marks exactly the rows whose next row is
    indented deeper: row [p] is in the set if and only if there is a row
    [p + 1] and its indent is greater than the indent of row [p]. *)
Theorem computeHasChildren_next_row_deeper (rows : list RowData) (p : nat) :
  p ∈ computeHasChildren rows ↔
  ∃ row next, rows !! p = Some row ∧ rows !! S p = Some next
              ∧ row_indent row < row_indent next.
Proof.
  rewrite elem_of_computeHasChildren. split.
  - intros [Hlt Hind].
    destruct (lookup_lt_is_Some_2 rows p ltac:(lia)) as [row Hrow].
    destruct (lookup_lt_is_Some_2 rows (S p) Hlt) as [next Hnext].
    exists row, next.
    by rewrite <- (indentAt_lookup _ _ _ Hrow), <- (indentAt_lookup _ _ _ Hnext).
  - intros (row & next & Hrow & Hnext & Hind). split.
    + by apply lookup_lt_Some in Hnext.
    + by rewrite (indentAt_lookup _ _ _ Hrow), (indentAt_lookup _ _ _ Hnext).
Qed.

Lemma filter_all {A} (P : A → Prop) `{!∀ x, Decision (P x)} (l : list A) :
  (∀ x, x ∈ l → P x) → filter P l = l.
Proof.
  induction l as [|x l IH]; intros Hall; [done|].
  rewrite filter_cons, decide_True by (apply Hall; by left).
  f_equal. apply IH. intros y Hy. apply Hall. by right.
Qed.

(** X2.  The collapse set only counts at parent rows: when no row that
    has children has its identifier in the set, every row is visible,
    whatever else the set holds (identifiers of leaf rows, or of rows that
    are gone). *)
Theorem visibleRowIndices_no_parent_collapsed (data : list RowData)
    (collapsed : gset string) :
  (∀ p row, p ∈ computeHasChildren data → data !! p = Some row →
            row_id row ∉ collapsed) →
  visibleRowIndices data collapsed = seq 0 (length data).
Proof.
  intros Hleaf. rewrite visibleRowIndices_filter. apply filter_all.
  intros k [_ Hk]%elem_of_seq.
  apply not_true_iff_false. rewrite hasCollapsedAncestor_spec.
  intros (a & Ha & Hc).
  destruct (ancestor_is_parent _ _ _ Ha) as [Hlt Hind].
  destruct (lookup_lt_is_Some_2 data a ltac:(lia)) as [row Hrow].
  apply (Hleaf a row); [|done|by rewrite <- (idAt_lookup _ _ _ Hrow)].
  apply elem_of_computeHasChildren. split; [lia|done].
Qed.

(** X3.  Collapsing more rows never shows a row that was hidden: the
    visible rows under a larger collapse set are a sublist of the visible
    rows under the smaller one. *)
Theorem visibleRowIndices_collapse_more (data : list RowData)
    (collapsed collapsed' : gset string) :
  collapsed ⊆ collapsed' →
  visibleRowIndices data collapsed' `sublist_of` visibleRowIndices data collapsed.
Proof.
  intros Hsub. rewrite !visibleRowIndices_filter.
  assert (filter (λ k, hasCollapsedAncestor data collapsed' k = false)
            (seq 0 (length data))
          = filter (λ k, hasCollapsedAncestor data collapsed' k = false)
              (filter (λ k, hasCollapsedAncestor data collapsed k = false)
                 (seq 0 (length data)))) as ->.
  { rewrite list_filter_filter. apply filter_ext_elem. intros k _.
    split; [|tauto]. intros Hk. split; [done|].
    apply not_true_iff_false. apply not_true_iff_false in Hk.
    rewrite hasCollapsedAncestor_spec in *.
    intros (a & Ha & Hc). apply Hk. exists a. split; [done|]. by apply Hsub. }
  apply sublist_filter.
Qed.

Lemma StronglySorted_lookup_lt {A} (R : relation A) (l : list A) (i j : nat)
    (a b : A) :
  StronglySorted R l → l !! i = Some a → l !! j = Some b → (i < j)%nat →
  R a b.
Proof.
  intros Hs. revert i j. induction Hs as [|x l Hs IH Hall]; intros i j Hi Hj Hlt;
    [done|].
  destruct j as [|j]; [lia|]. cbn in Hj.
  destruct i as [|i].
  - cbn in Hi. simplify_eq.
    apply (proj1 (Forall_forall _ _) Hall). by eapply list_elem_of_lookup_2.
  - cbn in Hi. apply (IH i j); [done|done|lia].
Qed.

(** X4.  [visibleRowIndices] lists the visible rows in the order of the
    rows: the indices rise strictly, so none comes twice and there are at
    most as many as rows; and when there is a row at all, the list starts
    with row 0. *)
Theorem visibleRowIndices_in_row_order (data : list RowData)
    (collapsed : gset string) :
  let visible := visibleRowIndices data collapsed in
  (∀ i j a b, visible !! i = Some a → visible !! j = Some b →
              (i < j)%nat → (a < b)%nat)
  ∧ NoDup visible
  ∧ (length visible <= length data)%nat
  ∧ (data ≠ [] → visible !! 0%nat = Some 0%nat).
Proof.
  intros visible. subst visible.
  pose proof (visibleRowIndices_sorted data collapsed) as Hs.
  split; [|split; [|split]].
  - intros i j a b Hi Hj Hlt.
    by apply (StronglySorted_lookup_lt lt _ i j a b Hs).
  - apply visibleRowIndices_NoDup.
  - rewrite visibleRowIndices_filter.
    etrans; [apply length_filter|]. by rewrite length_seq.
  - intros Hne. pose proof (visibleRowIndices_first data collapsed Hne) as H0.
    destruct (visibleRowIndices data collapsed) as [|v l] eqn:E;
      [by apply elem_of_nil in H0|].
    cbn. f_equal.
    apply elem_of_cons in H0 as [->|Hin]; [done|].
    apply StronglySorted_cons in Hs as [Hall _].
    apply (proj1 (Forall_forall _ _) Hall) in Hin. lia.
Qed.

(* ================================================================== *)
(** * Navigation *)
(* ================================================================== *)

(** [indexOf]: -1 when no entry is [r], and otherwise the place of an
    entry that is. *)
Lemma indexOfFrom_cases (visible : list nat) (r i : Z) :
  (indexOfFrom i visible r = -1 ∧ ∀ v, v ∈ visible → Z.of_nat v ≠ r)
  ∨ ∃ (k v : nat), indexOfFrom i visible r = i + Z.of_nat k
                   ∧ visible !! k = Some v ∧ Z.of_nat v = r.
Proof.
  revert i. induction visible as [|v visible IH]; intros i.
  - left. split; [done|]. intros v Hv. by apply elem_of_nil in Hv.
  - cbn [indexOfFrom].
    destruct (Z.eqb_spec (Z.of_nat v) r) as [Heq|Hne].
    + right. exists 0%nat, v. split; [lia|done].
    + destruct (IH (i + 1)) as [[-> Habs]|(k & w & -> & Hk & Hw)].
      * left. split; [done|]. intros w [->|Hw]%elem_of_cons; auto.
      * right. exists (S k), w. split; [lia|done].
Qed.

Lemma arrayGet_in_range {A} (l : list A) (i : Z) :
  0 <= i < Z.of_nat (length l) →
  ∃ x, arrayGet l i = Some x ∧ x ∈ l.
Proof.
  intros Hi. destruct (lookup_lt_is_Some_2 l (Z.to_nat i) ltac:(lia)) as [x Hx].
  exists x. split; [|by eapply list_elem_of_lookup_2].
  apply arrayGet_Some. split; [lia|done].
Qed.

(** The row that [nextPosAfter] returns. *)
Lemma nextPosAfter_row (visible : list nat) (colsLength r c : Z)
    (dir : Direction) :
  ∃ r', pos_r (nextPosAfter visible colsLength r c dir) = Some r'
        ∧ match visible with
          | [] => r' = r
          | _ :: _ => ∃ v, v ∈ visible ∧ r' = Z.of_nat v
          end.
Proof.
  unfold nextPosAfter, indexOf.
  destruct (indexOfFrom_cases visible r 0) as [[-> Habs]|(k & w & -> & Hk & Hw)].
  - cbn [Z.eqb Pos.eqb pos_r].
    destruct (find (λ v, Z.of_nat v >=? r) visible) as [v|] eqn:Hfind.
    + exists (Z.of_nat v). split; [done|].
      apply find_some in Hfind as [Hin%list_elem_of_In _].
      destruct visible; [by apply elem_of_nil in Hin|eauto].
    + rewrite arrayGet_last. destruct visible as [|v0 visible]; [by exists r|].
      destruct (last (v0 :: visible)) as [v|] eqn:Hlast.
      * exists (Z.of_nat v). split; [done|]. exists v. split; [|done].
        apply last_Some in Hlast as [l' ->]. apply elem_of_app. right. by left.
      * by apply last_None in Hlast.
  - pose proof (lookup_lt_Some _ _ _ Hk) as Hlt.
    assert ((0 + Z.of_nat k =? -1) = false) as -> by (apply Z.eqb_neq; lia).
    set (len := Z.of_nat (length visible)) in *.
    assert (∃ v, v ∈ visible ∧ r = Z.of_nat v) as Hr.
    { exists w. split; [by eapply list_elem_of_lookup_2|done]. }
    assert (∀ vi, 0 <= vi < len →
              ∃ r', Z.of_nat <$> arrayGet visible vi = Some r'
                    ∧ ∃ v, v ∈ visible ∧ r' = Z.of_nat v) as Hat.
    { intros vi Hvi. destruct (arrayGet_in_range visible vi Hvi) as (v & -> & Hv).
      exists (Z.of_nat v). split; [done|]. eauto. }
    destruct visible as [|v0 visible']; [done|].
    set (visible := v0 :: visible') in *.
    destruct dir; cbn [pos_r].
    + apply Hat. lia.
    + apply Hat. lia.
    + destruct (c + 1 >? colsLength - 1); cbn [pos_r];
        [apply Hat; lia|by exists r].
    + destruct (c - 1 <? 0); cbn [pos_r]; [apply Hat; lia|by exists r].
Qed.

(** The column that [nextPosAfter] returns. *)
Lemma nextPosAfter_column (visible : list nat) (colsLength r c : Z)
    (dir : Direction) :
  0 <= c < colsLength →
  0 <= pos_c (nextPosAfter visible colsLength r c dir) < colsLength.
Proof.
  intros Hc. unfold nextPosAfter.
  destruct (indexOf visible r =? -1); [done|].
  destruct dir; cbn [pos_c]; try done.
  - destruct (Z.gtb_spec (c + 1) (colsLength - 1)); cbn [pos_c]; lia.
  - destruct (Z.ltb_spec (c - 1) 0); cbn [pos_c]; lia.
Qed.

(** X5.  [nextPosAfter] never returns an [undefined] row, whatever the
    anchor, the direction, the visible rows and the number of columns are:
    with no visible row it returns the anchor row, and otherwise a visible
    row. *)
Theorem nextPosAfter_row_is_visible (visible : list nat)
    (colsLength r c : Z) (dir : Direction) :
  ∃ r', pos_r (nextPosAfter visible colsLength r c dir) = Some r'
        ∧ match visible with
          | [] => r' = r
          | _ :: _ => ∃ v, v ∈ visible ∧ r' = Z.of_nat v
          end.
Proof.
  destruct (nextPosAfter_row visible colsLength r c dir) as (r' & Hr & Hv).
  exists r'. split; [exact Hr|exact Hv].
Qed.

(** X6.  From a column of the grid, [nextPosAfter] returns a column of
    the grid, for every direction and every anchor row, visible or not. *)
Theorem nextPosAfter_column_in_range (visible : list nat)
    (colsLength r c : Z) (dir : Direction) :
  0 <= c < colsLength →
  0 <= pos_c (nextPosAfter visible colsLength r c dir) < colsLength.
Proof.
  intros Hc. pose proof (nextPosAfter_column visible colsLength r c dir Hc).
  lia.
Qed.

(** The moves from a visible anchor, read off the place [k] of the anchor
    among the visible rows. *)
Lemma nextPosAfter_at (visible : list nat) (colsLength : Z) (k w : nat)
    (cc : Z) (dir : Direction) :
  NoDup visible → visible !! k = Some w →
  let last := (length visible - 1)%nat in
  nextPosAfter visible colsLength (Z.of_nat w) cc dir =
  match dir with
  | down =>
      {| pos_r := Z.of_nat <$> visible !! Nat.min last (S k); pos_c := cc |}
  | up => {| pos_r := Z.of_nat <$> visible !! pred k; pos_c := cc |}
  | right =>
      if cc + 1 >? colsLength - 1
      then {| pos_r := Z.of_nat <$> visible !! Nat.min last (S k); pos_c := 0 |}
      else {| pos_r := Some (Z.of_nat w); pos_c := cc + 1 |}
  | left =>
      if cc - 1 <? 0
      then {| pos_r := Z.of_nat <$> visible !! pred k;
              pos_c := colsLength - 1 |}
      else {| pos_r := Some (Z.of_nat w); pos_c := cc - 1 |}
  end.
Proof.
  intros Hnd Hk last. pose proof (lookup_lt_Some _ _ _ Hk) as Hlt.
  unfold nextPosAfter, indexOf.
  rewrite (indexOfFrom_found visible _ k 0 w Hnd Hk eq_refl).
  assert ((0 + Z.of_nat k =? -1) = false) as -> by (apply Z.eqb_neq; lia).
  assert (∀ j : nat, (j < length visible)%nat →
            arrayGet visible (Z.of_nat j) = visible !! j) as Hget.
  { intros j Hj. unfold arrayGet.
    assert ((Z.of_nat j <? 0) = false) as -> by (apply Z.ltb_ge; lia).
    by rewrite Nat2Z.id. }
  assert (Z.min (Z.of_nat (length visible) - 1) (0 + Z.of_nat k + 1)
          = Z.of_nat (Nat.min last (S k))) as Hmin by (subst last; lia).
  assert (Z.max 0 (0 + Z.of_nat k - 1) = Z.of_nat (pred k)) as Hmax by lia.
  destruct dir; cbv zeta; rewrite ?Hmin, ?Hmax, ?Hget by (subst last; lia);
    reflexivity.
Qed.

(** X7.  On visible rows that are listed once each, opposite moves undo
    each other as long as the first one is not stopped by the end of the
    grid: from the visible row at place [vi] and a column of the grid,
    down then up and up then down come back to the cell when the row is
    not the last, respectively the first, visible row; right then left
    (Tab, Shift+Tab) comes back unless the cell is the last cell of the
    last visible row, and left then right unless it is the first cell of
    the first one. *)
Theorem nextPosAfter_opposite_moves (visible : list nat) (colsLength : Z)
    (vi v : nat) (c : Z) :
  NoDup visible → visible !! vi = Some v → 0 <= c < colsLength →
  let r := Z.of_nat v in
  let last := (length visible - 1)%nat in
  let there_and_back (dir back : Direction) :=
    ∃ r' c', nextPosAfter visible colsLength r c dir
             = {| pos_r := Some r'; pos_c := c' |}
             ∧ nextPosAfter visible colsLength r' c' back
               = {| pos_r := Some r; pos_c := c |} in
  ((vi < last)%nat → there_and_back down up)
  ∧ ((0 < vi)%nat → there_and_back up down)
  ∧ ((vi < last)%nat ∨ c < colsLength - 1 → there_and_back right left)
  ∧ ((0 < vi)%nat ∨ 0 < c → there_and_back left right).
Proof.
  intros Hnd Hv Hc r last there_and_back. subst there_and_back r. cbv beta.
  pose proof (lookup_lt_Some _ _ _ Hv) as Hlt.
  assert (∀ k, (k < length visible)%nat →
            ∃ w, visible !! k = Some w) as Hat
    by (intros k Hk; by apply lookup_lt_is_Some_2).
  split; [|split; [|split]].
  - intros Hvi. destruct (Hat (S vi) ltac:(lia)) as [w Hw].
    exists (Z.of_nat w), c.
    rewrite (nextPosAfter_at _ _ vi v) by done.
    rewrite (nextPosAfter_at _ _ (S vi) w) by done.
    fold last. replace (Nat.min last (S vi)) with (S vi) by lia.
    cbn [pred]. by rewrite Hw, Hv.
  - intros Hvi. destruct (Hat (pred vi) ltac:(lia)) as [w Hw].
    exists (Z.of_nat w), c.
    rewrite (nextPosAfter_at _ _ vi v) by done.
    rewrite (nextPosAfter_at _ _ (pred vi) w) by done.
    fold last. replace (Nat.min last (S (pred vi))) with vi by lia.
    by rewrite Hw, Hv.
  - intros Hnotlast.
    rewrite (nextPosAfter_at _ _ vi v) by done. fold last.
    destruct (Z.gtb_spec (c + 1) (colsLength - 1)) as [Hwrap|Hstay].
    + destruct Hnotlast as [Hvi|?]; [|lia].
      destruct (Hat (S vi) ltac:(lia)) as [w Hw].
      exists (Z.of_nat w), 0.
      replace (Nat.min last (S vi)) with (S vi) by lia.
      rewrite Hw. split; [done|].
      rewrite (nextPosAfter_at _ _ (S vi) w) by done.
      cbn [Z.sub Z.opp Z.add Z.pos_sub Z.ltb Z.compare pred].
      rewrite Hv. cbn. do 2 f_equal. lia.
    + exists (Z.of_nat v), (c + 1). split; [done|].
      rewrite (nextPosAfter_at _ _ vi v) by done.
      assert ((c + 1 - 1 <? 0) = false) as -> by (apply Z.ltb_ge; lia).
      do 2 f_equal. lia.
  - intros Hnotfirst.
    rewrite (nextPosAfter_at _ _ vi v) by done. fold last.
    destruct (Z.ltb_spec (c - 1) 0) as [Hwrap|Hstay].
    + destruct Hnotfirst as [Hvi|?]; [|lia].
      destruct (Hat (pred vi) ltac:(lia)) as [w Hw].
      exists (Z.of_nat w), (colsLength - 1).
      rewrite Hw. split; [done|].
      rewrite (nextPosAfter_at _ _ (pred vi) w) by done. fold last.
      assert ((colsLength - 1 + 1 >? colsLength - 1) = true) as -> by lia.
      replace (Nat.min last (S (pred vi))) with vi by lia.
      rewrite Hv. cbn. do 2 f_equal. lia.
    + exists (Z.of_nat v), (c - 1). split; [done|].
      rewrite (nextPosAfter_at _ _ vi v) by done.
      assert ((c - 1 + 1 >? colsLength - 1) = false) as -> by lia.
      do 2 f_equal. lia.
Qed.

(** X8.  At the ends of the grid [nextPosAfter] stays on the row: down on
    the last visible row and up on the first one return the cell itself;
    right (Tab) on the last cell of the last visible row returns column 0
    of that same row, and left (Shift+Tab) on the first cell of the first
    visible row returns the last column of that same row. *)
Theorem nextPosAfter_at_the_ends (visible : list nat) (colsLength : Z)
    (vi v : nat) (c : Z) :
  NoDup visible → visible !! vi = Some v →
  let r := Z.of_nat v in
  let last := (length visible - 1)%nat in
  (vi = last → nextPosAfter visible colsLength r c down
               = {| pos_r := Some r; pos_c := c |})
  ∧ (vi = 0%nat → nextPosAfter visible colsLength r c up
                  = {| pos_r := Some r; pos_c := c |})
  ∧ (vi = last → c = colsLength - 1 →
     nextPosAfter visible colsLength r c right
     = {| pos_r := Some r; pos_c := 0 |})
  ∧ (vi = 0%nat → c = 0 →
     nextPosAfter visible colsLength r c left
     = {| pos_r := Some r; pos_c := colsLength - 1 |}).
Proof.
  intros Hnd Hv r last. subst r.
  pose proof (lookup_lt_Some _ _ _ Hv) as Hlt.
  repeat split; intros; rewrite (nextPosAfter_at _ _ vi v) by done;
    fold last; subst.
  - replace (Nat.min last (S last)) with last by lia. by rewrite Hv.
  - cbn [pred]. by rewrite Hv.
  - assert ((colsLength - 1 + 1 >? colsLength - 1) = true) as -> by lia.
    replace (Nat.min last (S last)) with last by lia. by rewrite Hv.
  - cbn [pred Z.sub Z.opp Z.add Z.pos_sub Z.ltb Z.compare]. by rewrite Hv.
Qed.

(* ================================================================== *)
(** * Column reorder *)
(* ================================================================== *)

Lemma moveColumn_Some (cols : list ColumnDef) (from idx : nat)
    (moved : ColumnDef) :
  cols !! from = Some moved → (idx < length cols)%nat →
  ∃ next, moveColumn cols from idx = Some next
          ∧ next !! idx = Some moved
          ∧ delete idx next = delete from cols
          ∧ next ≡ₚ cols.
Proof.
  intros Hfrom Hidx. unfold moveColumn. rewrite Hfrom.
  rewrite <- delete_take_drop. set (rest := delete from cols).
  assert (length rest = pred (length cols)) as Hlen.
  { subst rest. rewrite length_delete; [lia|by eexists]. }
  assert (length (take idx rest) = idx) as Htake
    by (rewrite length_take_le; lia).
  eexists. split; [reflexivity|]. split; [|split].
  - rewrite lookup_app_r by lia. by rewrite Htake, Nat.sub_diag.
  - rewrite <- Htake at 1. by rewrite delete_middle, take_drop.
  - rewrite <- Permutation_middle, take_drop. subst rest.
    symmetry. by apply delete_Permutation.
Qed.

(** X9.  Dragging the column at [from] onto the column at [idx] (both
    columns of the grid) puts it at place [idx] and leaves the other
    columns in the order they had: taking the column out of the new order
    and out of the old one gives the same list, and the new order is a
    permutation of the old, of the same length. *)
Theorem moveColumn_splice (cols : list ColumnDef) (from idx : nat) :
  (from < length cols)%nat → (idx < length cols)%nat →
  ∃ next, moveColumn cols from idx = Some next
          ∧ next !! idx = cols !! from
          ∧ delete idx next = delete from cols
          ∧ length next = length cols
          ∧ next ≡ₚ cols.
Proof.
  intros Hfrom Hidx.
  destruct (lookup_lt_is_Some_2 cols from Hfrom) as [moved Hmoved].
  destruct (moveColumn_Some cols from idx moved Hmoved Hidx)
    as (next & Hnext & Hat & Hdel & Hperm).
  exists next. rewrite Hmoved. repeat split; try done.
  by rewrite Hperm.
Qed.

Lemma findIndexFrom_found (arr : list ColumnDef) :
  ∀ (j : nat) (i : Z) (c : ColumnDef),
    NoDup (col_key <$> arr) → arr !! j = Some c →
    findIndexFrom i arr (col_key c) = i + Z.of_nat j.
Proof.
  induction arr as [|a arr IH]; intros j i c Hnd Hj; [done|].
  cbn [fmap list_fmap] in Hnd. apply NoDup_cons in Hnd as [Ha Hnd].
  cbn [findIndexFrom]. destruct j as [|j].
  - cbn in Hj. simplify_eq. rewrite String.eqb_refl. lia.
  - cbn in Hj. destruct (String.eqb_spec (col_key a) (col_key c)) as [Heq|_].
    + exfalso. apply Ha. rewrite Heq. apply list_elem_of_fmap.
      exists c. split; [done|]. by eapply list_elem_of_lookup_2.
    + rewrite (IH j (i + 1) c) by done. lia.
Qed.

(** With distinct keys, [mapIndex] finds the column where it is in the
    new order. *)
Lemma mapIndex_same_column (cols next : list ColumnDef) (from idx : nat)
    (old : Z) (c : ColumnDef) :
  NoDup (col_key <$> cols) → moveColumn cols from idx = Some next →
  next ≡ₚ cols → arrayGet cols old = Some c →
  ∃ new, mapIndex cols from idx old = Some new
         ∧ 0 <= new < Z.of_nat (length cols)
         ∧ arrayGet next new = Some c.
Proof.
  intros Hnd Hnext Hperm Hc. unfold mapIndex. rewrite Hnext, Hc.
  cbn [mbind option_bind].
  apply arrayGet_Some in Hc as [Hold Hc].
  assert (c ∈ next) as Hin
    by (rewrite Hperm; by eapply list_elem_of_lookup_2).
  apply list_elem_of_lookup in Hin as [j Hj].
  assert (NoDup (col_key <$> next)) as Hnd' by (by rewrite Hperm).
  rewrite (findIndexFrom_found next j 0 c Hnd' Hj).
  eexists. split; [reflexivity|].
  pose proof (lookup_lt_Some _ _ _ Hj) as Hlt. rewrite Hperm in Hlt.
  split; [lia|]. apply arrayGet_Some. split; [lia|].
  by replace (Z.to_nat (0 + Z.of_nat j)) with j by lia.
Qed.

(* ================================================================== *)
(** * More on the handlers *)
(* ================================================================== *)

Section TableCoreRestFacts.

Context {num : Type}.
Variable Number : string → num.
Variable props : Props.

Implicit Types s : @State num.

(** ** Column reorder *)

(** X10.  With distinct column keys, a drop of column [from] on column
    [idx] keeps every edge of the selection on the column it was on: the
    columns are permuted, with the dragged column at [idx], the rows of
    the selection stay, and [c1] and [c2] are the places, within the
    grid, that the columns at the old [c1] and [c2] have in the new
    order.  Rows and cells are untouched. *)
Theorem onDrop_selection_follows_columns (s : @State num) (from idx : nat) :
  NoDup (col_key <$> cols s) →
  (from < length (cols s))%nat → (idx < length (cols s))%nat →
  hasSel (sel s) = true →
  c1 (sel s) < Z.of_nat (length (cols s)) →
  c2 (sel s) < Z.of_nat (length (cols s)) →
  ∃ s', onDrop from idx s = Some s'
        ∧ cols s' ≡ₚ cols s
        ∧ cols s' !! idx = cols s !! from
        ∧ r1 (sel s') = r1 (sel s) ∧ r2 (sel s') = r2 (sel s)
        ∧ arrayGet (cols s') (c1 (sel s')) = arrayGet (cols s) (c1 (sel s))
        ∧ arrayGet (cols s') (c2 (sel s')) = arrayGet (cols s) (c2 (sel s))
        ∧ 0 <= c1 (sel s') < Z.of_nat (length (cols s'))
        ∧ 0 <= c2 (sel s') < Z.of_nat (length (cols s'))
        ∧ data s' = data s ∧ heap s' = heap s.
Proof.
  intros Hnd Hfrom Hidx Hsel Hc1 Hc2. unfold onDrop.
  destruct (bool_decide_reflect (from = idx)) as [->|Hne].
  { exists s. unfold hasSel in Hsel. repeat split; try done; lia. }
  destruct (lookup_lt_is_Some_2 (cols s) from Hfrom) as [moved Hmoved].
  destruct (moveColumn_Some (cols s) from idx moved Hmoved Hidx)
    as (next & Hnext & Hat & _ & Hperm).
  assert (length next = length (cols s)) as Hlen by (by rewrite Hperm).
  rewrite Hnext. cbn [mbind option_bind].
  unfold remapSelection. rewrite Hsel. cbn [negb].
  assert (0 <= c1 (sel s) ∧ 0 <= c2 (sel s)) as [Hc1' Hc2']
    by (unfold hasSel in Hsel; lia).
  destruct (lookup_lt_is_Some_2 (cols s) (Z.to_nat (c1 (sel s))) ltac:(lia))
    as [col1 Hcol1].
  destruct (lookup_lt_is_Some_2 (cols s) (Z.to_nat (c2 (sel s))) ltac:(lia))
    as [col2 Hcol2].
  assert (arrayGet (cols s) (c1 (sel s)) = Some col1) as Hg1
    by (by apply arrayGet_Some).
  assert (arrayGet (cols s) (c2 (sel s)) = Some col2) as Hg2
    by (by apply arrayGet_Some).
  destruct (mapIndex_same_column _ _ _ _ _ _ Hnd Hnext Hperm Hg1)
    as (n1 & -> & Hn1 & Hnew1).
  destruct (mapIndex_same_column _ _ _ _ _ _ Hnd Hnext Hperm Hg2)
    as (n2 & -> & Hn2 & Hnew2).
  cbn [mbind option_bind]. eexists. split; [reflexivity|].
  simpl_state. cbn [r1 r2 c1 c2]. rewrite Hlen, Hg1, Hg2, Hmoved.
  repeat split; try done; lia.
Qed.

(** ** Commit *)

(** X11.  A commit at a cell of the grid writes that one cell: read back
    from the new rows, the cell holds the coerced value, every other cell
    of every row reads as before, and the rows keep their identifiers and
    indents; the columns and the selection stay. *)
Theorem commitCellValue_writes_one_cell (r c : Z) (raw : string)
    (endEdit : bool) (s : @State num) (col : ColumnDef) (row : RowData) :
  heapClosed s →
  arrayGet (cols s) c = Some col → arrayGet (data s) r = Some row →
  ∃ s', commitCellValue Number props r c raw endEdit s = Some s'
        ∧ storedValue s' r (col_key col) = commitValue Number props col raw
        ∧ (∀ r' k, r' ≠ r ∨ k ≠ col_key col →
                   storedValue s' r' k = storedValue s r' k)
        ∧ row_id <$> data s' = row_id <$> data s
        ∧ row_indent <$> data s' = row_indent <$> data s
        ∧ cols s' = cols s ∧ sel s' = sel s.
Proof.
  intros Hclosed Hcol Hrow. unfold commitCellValue.
  rewrite Hcol. cbn [mbind option_bind]. rewrite Hrow.
  apply arrayGet_Some in Hrow as [Hr Hrow].
  pose proof (lookup_lt_Some _ _ _ Hrow) as Hlt.
  set (parsed := commitValue Number props col raw).
  set (row' := {| row_id := row_id row; row_indent := row_indent row;
                  row_cells := length (heap s) |}).
  set (cells' := <[col_key col := parsed]> (default ∅ (heap s !! row_cells row))).
  eexists. split; [reflexivity|].
  assert (∀ s1 : @State num,
            data s1 = <[Z.to_nat r := row']> (data s) →
            heap s1 = heap s ++ [cells'] →
            storedValue s1 r (col_key col) = parsed
            ∧ (∀ r' k, r' ≠ r ∨ k ≠ col_key col →
                       storedValue s1 r' k = storedValue s r' k)
            ∧ row_id <$> data s1 = row_id <$> data s
            ∧ row_indent <$> data s1 = row_indent <$> data s) as Hmain.
  { intros s1 Hd Hh. split; [|split; [|split]].
    - unfold storedValue, arrayGet.
      assert ((r <? 0) = false) as -> by (apply Z.ltb_ge; lia).
      rewrite Hd, Hh, list_lookup_insert_eq by done. cbn [row_cells row'].
      rewrite lookup_app_r, Nat.sub_diag by done. cbn.
      unfold cellGet. subst cells'. by rewrite lookup_insert_eq.
    - intros r' k Hother. unfold storedValue, arrayGet.
      destruct (Z.ltb_spec r' 0) as [|Hr']; [done|].
      rewrite Hd, Hh.
      destruct (decide (Z.to_nat r' = Z.to_nat r)) as [E|E].
      + assert (r' = r) as -> by lia.
        destruct Hother as [?|Hk]; [done|].
        rewrite list_lookup_insert_eq, Hrow by done. cbn [row_cells row'].
        rewrite lookup_app_r, Nat.sub_diag by done. cbn.
        unfold cellGet. subst cells'. by rewrite lookup_insert_ne.
      + rewrite list_lookup_insert_ne by done.
        destruct (data s !! Z.to_nat r') as [other|] eqn:Ho; [|done].
        rewrite lookup_app_l; [done|].
        apply Hclosed. by eapply list_elem_of_lookup_2.
    - rewrite Hd, list_fmap_insert. cbn [row_id row'].
      apply list_insert_id. by rewrite list_lookup_fmap, Hrow.
    - rewrite Hd, list_fmap_insert. cbn [row_indent row'].
      apply list_insert_id. by rewrite list_lookup_fmap, Hrow. }
  unfold setEditingBoth.
  destruct endEdit, (onCellCommit props), (onEditingChange props);
    match goal with
    | |- storedValue ?st _ _ = _ ∧ _ =>
        destruct (Hmain st eq_refl eq_refl) as (? & ? & ? & ?)
    end; done.
Qed.

(** X12.  Out of range: a commit at a column that does not exist throws
    (the key of [undefined] is read).  A commit at a column that exists
    and a row that does not stores nothing, and yet hands the unchanged
    rows to [onChange] and reports to [onCellCommit] a change from
    [undefined] to the coerced value. *)
Theorem commitCellValue_out_of_range (r c : Z) (raw : string)
    (endEdit : bool) (s : @State num) :
  (arrayGet (cols s) c = None →
   commitCellValue Number props r c raw endEdit s = None)
  ∧ (∀ col, arrayGet (cols s) c = Some col → arrayGet (data s) r = None →
       ∃ s', commitCellValue Number props r c raw endEdit s = Some s'
             ∧ data s' = data s ∧ heap s' = heap s
             ∧ log s' =
               log s
               ++ [OnChange (data s)]
               ++ (if onCellCommit props
                   then [OnCellCommit
                           {| commit_row := r; commit_col := c;
                              commit_columnKey := col_key col;
                              commit_prev := VUndefined;
                              commit_next :=
                                commitValue Number props col raw |}]
                   else [])
               ++ (if endEdit && onEditingChange props
                   then [OnEditingChange None] else [])).
Proof.
  split.
  - intros Hcol. unfold commitCellValue. by rewrite Hcol.
  - intros col Hcol Hrow. unfold commitCellValue, storedValue.
    rewrite Hcol. cbn [mbind option_bind]. rewrite Hrow.
    eexists. split; [reflexivity|].
    unfold setEditingBoth, setAndPropagate.
    destruct endEdit, (onCellCommit props), (onEditingChange props);
      simpl_state; rewrite <- ?app_assoc; by repeat split.
Qed.

(** What a commit does to the rows and to the heap. *)
Lemma commitCellValue_data (r c : Z) (raw : string) (endEdit : bool)
    (s s' : @State num) :
  commitCellValue Number props r c raw endEdit s = Some s' →
  ∃ col, arrayGet (cols s) c = Some col
    ∧ ((arrayGet (data s) r = None ∧ data s' = data s ∧ heap s' = heap s)
       ∨ ∃ row, data s !! Z.to_nat r = Some row ∧ 0 <= r
           ∧ data s' = <[Z.to_nat r :=
                           {| row_id := row_id row;
                              row_indent := row_indent row;
                              row_cells := length (heap s) |}]> (data s)
           ∧ heap s' =
             heap s ++ [<[col_key col := commitValue Number props col raw]>
                          (default ∅ (heap s !! row_cells row))]).
Proof.
  unfold commitCellValue. intros H.
  apply bind_Some in H as (col & Hcol & H). exists col. split; [done|].
  destruct (arrayGet (data s) r) as [row|] eqn:Hrow.
  - right. exists row. apply arrayGet_Some in Hrow as [Hr Hrow].
    simplify_eq. unfold setEditingBoth, setAndPropagate.
    by destruct endEdit, (onCellCommit props), (onEditingChange props).
  - left. simplify_eq. unfold setEditingBoth, setAndPropagate.
    by destruct endEdit, (onCellCommit props), (onEditingChange props).
Qed.

(** X13.  A commit copies before it writes: the rows that the host held
    before the commit read as before and no [cells] object that existed is
    changed.  In the new collection every row but the committed one is the
    row that was there; the committed row keeps its identifier and indent
    and has a [cells] object of its own, one that did not exist before and
    that no other row has, old or new, which holds the cells of the old
    row with the committed cell written.  Every row of the new collection
    again has its [cells] object in the heap. *)
Theorem commitCellValue_copies_the_row (r c : Z) (raw : string)
    (endEdit : bool) (s s' : @State num) :
  heapClosed s →
  commitCellValue Number props r c raw endEdit s = Some s' →
  viewRows (heap s') (data s) = viewRows (heap s) (data s)
  ∧ (∀ l cells, heap s !! l = Some cells → heap s' !! l = Some cells)
  ∧ (∀ i, i ≠ Z.to_nat r → data s' !! i = data s !! i)
  ∧ (∀ row, arrayGet (data s) r = Some row →
       ∃ row' col,
         data s' !! Z.to_nat r = Some row'
         ∧ arrayGet (cols s) c = Some col
         ∧ row_id row' = row_id row ∧ row_indent row' = row_indent row
         ∧ heap s !! row_cells row' = None
         ∧ (∀ old, old ∈ data s → row_cells old ≠ row_cells row')
         ∧ (∀ i other, i ≠ Z.to_nat r → data s' !! i = Some other →
                       row_cells other ≠ row_cells row')
         ∧ heap s' !! row_cells row'
           = Some (<[col_key col := commitValue Number props col raw]>
                     (default ∅ (heap s !! row_cells row))))
  ∧ heapClosed s'.
Proof.
  intros Hclosed Hcommit.
  split; [by eapply commitCellValue_keeps_previous|].
  destruct (commitCellValue_data _ _ _ _ _ _ Hcommit)
    as (col & Hcol & [(Hnone & Hd & Hh)|(row & Hrow & Hr & Hd & Hh)]).
  - split; [by rewrite Hh|]. split; [by rewrite Hd|].
    split; [intros row Hrow; congruence|].
    unfold heapClosed. by rewrite Hd, Hh.
  - pose proof (lookup_lt_Some _ _ _ Hrow) as Hlt.
    split; [intros l cells Hl; rewrite Hh; by apply lookup_app_l_Some|].
    split; [intros i Hi; rewrite Hd; by apply list_lookup_insert_ne|].
    split.
    + intros row0 Hrow0. apply arrayGet_Some in Hrow0 as [_ Hrow0].
      assert (row0 = row) as -> by congruence.
      eexists _, col.
      split; [rewrite Hd; by apply list_lookup_insert_eq|].
      cbn [row_id row_indent row_cells].
      do 3 (split; [done|]).
      split; [by apply lookup_ge_None|].
      split.
      { intros old Hold E. apply Hclosed in Hold. lia. }
      split.
      { intros i other Hi Ho E.
        rewrite Hd, list_lookup_insert_ne in Ho by done.
        apply list_elem_of_lookup_2, Hclosed in Ho. lia. }
      rewrite Hh, lookup_app_r, Nat.sub_diag by done. done.
    + intros row' Hin. rewrite Hd in Hin. rewrite Hh, length_app. cbn [length].
      apply list_elem_of_lookup in Hin as [i Hi].
      destruct (decide (i = Z.to_nat r)) as [->|Hne].
      * rewrite list_lookup_insert_eq in Hi by (by eapply lookup_lt_Some).
        simplify_eq. cbn. lia.
      * rewrite list_lookup_insert_ne in Hi by done.
        apply list_elem_of_lookup_2, Hclosed in Hi. lia.
Qed.

(** ** Indent *)

(** X14.  [indentRow] calls the host only for a change: either it leaves
    the whole state as it is (no row at [rowIdx], or the clamped indent
    is the indent the row has), or the new rows differ from the old and
    exactly one [onChange] with the new rows is logged. *)
Theorem indentRow_calls_host_only_on_change (rowIdx delta : Z)
    (s : @State num) :
  indentRow rowIdx delta s = s
  ∨ (data (indentRow rowIdx delta s) ≠ data s
     ∧ log (indentRow rowIdx delta s)
       = log s ++ [OnChange (data (indentRow rowIdx delta s))]).
Proof.
  unfold indentRow.
  destruct (arrayGet (data s) rowIdx) as [cur|] eqn:Hcur; [|by left].
  apply arrayGet_Some in Hcur as [Hge Hcur].
  set (nextIndent := clamp _ _ _).
  destruct (Z.eqb_spec nextIndent (row_indent cur)) as [Heq|Hne]; [by left|].
  right. simpl_state. split; [|done].
  intros Hsame.
  assert (<[Z.to_nat rowIdx :=
              {| row_id := row_id cur; row_indent := nextIndent;
                 row_cells := row_cells cur |}]> (data s) !! Z.to_nat rowIdx
          = Some cur) as Hl by (by rewrite Hsame).
  rewrite list_lookup_insert_eq in Hl by (by eapply lookup_lt_Some).
  apply Hne. by injection Hl as <-.
Qed.

(** [indentRow] on a row that is there, by the indent before and after. *)
Lemma indentRow_at (k : nat) (delta : Z) (s : @State num) (cur : RowData) :
  data s !! k = Some cur →
  let prev := match k with O => 0 | S j => indentAt (data s) j end in
  let nextIndent := clamp (row_indent cur + delta) 0 (prev + 1) in
  indentRow (Z.of_nat k) delta s =
  if nextIndent =? row_indent cur then s
  else setAndPropagate
         (<[k := {| row_id := row_id cur; row_indent := nextIndent;
                    row_cells := row_cells cur |}]> (data s)) s.
Proof.
  intros Hcur prev nextIndent. unfold indentRow.
  assert (arrayGet (data s) (Z.of_nat k) = Some cur) as ->
    by (apply arrayGet_Some; split; [lia|by rewrite Nat2Z.id]).
  assert ((if Z.of_nat k >? 0
           then default 0 (row_indent <$> arrayGet (data s) (Z.of_nat k - 1))
           else 0) = prev) as ->.
  { subst prev. destruct k as [|j]; [done|].
    assert ((Z.of_nat (S j) >? 0) = true) as -> by (apply Z.gtb_lt; lia).
    unfold arrayGet, indentAt.
    assert ((Z.of_nat (S j) - 1 <? 0) = false) as -> by (apply Z.ltb_ge; lia).
    by replace (Z.to_nat (Z.of_nat (S j) - 1)) with j by lia. }
  fold nextIndent. by rewrite Nat2Z.id.
Qed.

(** X15.  Indenting and outdenting a row undo each other when neither
    is clamped.  For a row [k] with indent between 0 and the indent of
    the row before (0 before the first row), one level in and then one
    level out gives back the rows there were; so does one level out and
    then one level in, for an indent between 1 and the indent of the row
    before plus 1.  The host gets two [onChange] calls, the second with
    the rows it started from. *)
Theorem indentRow_there_and_back (k : nat) (s : @State num) (cur : RowData) :
  data s !! k = Some cur →
  let prev := match k with O => 0 | S j => indentAt (data s) j end in
  (0 <= row_indent cur <= prev →
   let s1 := indentRow (Z.of_nat k) 1 s in
   let s2 := indentRow (Z.of_nat k) (-1) s1 in
   indentAt (data s1) k = row_indent cur + 1
   ∧ data s2 = data s
   ∧ log s2 = log s ++ [OnChange (data s1); OnChange (data s)])
  ∧ (1 <= row_indent cur <= prev + 1 →
     let s1 := indentRow (Z.of_nat k) (-1) s in
     let s2 := indentRow (Z.of_nat k) 1 s1 in
     indentAt (data s1) k = row_indent cur - 1
     ∧ data s2 = data s
     ∧ log s2 = log s ++ [OnChange (data s1); OnChange (data s)]).
Proof.
  intros Hcur prev.
  pose proof (lookup_lt_Some _ _ _ Hcur) as Hlt.
  assert (∀ delta,
            delta ≠ 0 → 0 <= row_indent cur + delta <= prev + 1 →
            0 <= row_indent cur <= prev + 1 →
            let s1 := indentRow (Z.of_nat k) delta s in
            let s2 := indentRow (Z.of_nat k) (- delta) s1 in
            indentAt (data s1) k = row_indent cur + delta
            ∧ data s2 = data s
            ∧ log s2 = log s ++ [OnChange (data s1); OnChange (data s)])
    as Hboth.
  { intros delta Hd Hin Hcur_in s1 s2. subst s2 s1.
    rewrite (indentRow_at k delta s cur Hcur). fold prev.
    assert (clamp (row_indent cur + delta) 0 (prev + 1)
            = row_indent cur + delta) as -> by (unfold clamp; lia).
    assert ((row_indent cur + delta =? row_indent cur) = false) as ->
      by (apply Z.eqb_neq; lia).
    set (row1 := {| row_id := row_id cur; row_indent := row_indent cur + delta;
                    row_cells := row_cells cur |}).
    set (s1 := setAndPropagate (<[k := row1]> (data s)) s).
    assert (data s1 !! k = Some row1) as Hrow1
      by (subst s1; simpl_state; by rewrite list_lookup_insert_eq).
    assert (match k with O => 0 | S j => indentAt (data s1) j end = prev)
      as Hprev.
    { subst prev s1. simpl_state. destruct k as [|j]; [done|].
      unfold indentAt. by rewrite list_lookup_insert_ne by lia. }
    rewrite (indentRow_at k (- delta) s1 row1 Hrow1). rewrite Hprev.
    cbn [row_indent row1 row_id row_cells].
    assert (clamp (row_indent cur + delta + - delta) 0 (prev + 1)
            = row_indent cur) as -> by (unfold clamp; lia).
    assert ((row_indent cur =? row_indent cur + delta) = false) as ->
      by (apply Z.eqb_neq; lia).
    split; [by rewrite (indentAt_lookup _ _ _ Hrow1)|].
    assert (<[k := {| row_id := row_id cur; row_indent := row_indent cur;
                      row_cells := row_cells cur |}]> (data s1) = data s)
      as Hback.
    { subst s1. simpl_state. rewrite list_insert_insert_eq.
      apply list_insert_id. by destruct cur. }
    simpl_state. rewrite Hback. split; [done|].
    subst s1. simpl_state. by rewrite <- app_assoc. }
  split.
  - intros Hin. apply (Hboth 1); lia.
  - intros Hin. apply (Hboth (-1)); lia.
Qed.

(** X27.  What the indent chord does (Alt+ArrowRight or Alt+ArrowLeft on
    the first row of the selection): it changes at most the indent of that
    row, so every other row, and the identifier and the [cells] object of
    that row, the heap, the columns and the selection stay; the indent of
    that row becomes its indent plus or minus one, clamped to 0 .. indent
    of the row before + 1.  From rows that keep the indent invariant,
    after Alt+ArrowRight every row keeps it; after Alt+ArrowLeft every row
    does except, possibly, the row that follows the adjusted one. *)
Theorem onKeyAltArrow_indent_invariant (s : @State num) (arrowRight : bool) :
  let s' := onKeyAltArrow arrowRight s in
  length (data s') = length (data s)
  ∧ (∀ i, Z.of_nat i ≠ r1 (sel s) → data s' !! i = data s !! i)
  ∧ row_id <$> data s' = row_id <$> data s
  ∧ row_cells <$> data s' = row_cells <$> data s
  ∧ heap s' = heap s ∧ cols s' = cols s ∧ sel s' = sel s
  ∧ (∀ k cur,
       editing s = None → hasSel (sel s) = true →
       r1 (sel s) = Z.of_nat k → data s !! k = Some cur →
       indentAt (data s') k
       = clamp (row_indent cur + (if arrowRight then 1 else -1)) 0
           (match k with O => 0 | S j => indentAt (data s) j end + 1))
  ∧ (indentInvariant (data s) →
     ∀ i, (i < length (data s'))%nat →
          arrowRight = true ∨ Z.of_nat i ≠ r1 (sel s) + 1 →
          indentOk (data s') i = true).
Proof.
  intros s'.
  assert (∀ k cur,
            editing s = None → hasSel (sel s) = true →
            r1 (sel s) = Z.of_nat k → data s !! k = Some cur →
            indentAt (data s') k
            = clamp (row_indent cur + (if arrowRight then 1 else -1)) 0
                (match k with O => 0 | S j => indentAt (data s) j end + 1))
    as Hpin.
  { intros k cur Hed Hsel Hk Hcur. subst s'. unfold onKeyAltArrow.
    rewrite Hed, Hsel, Hk. cbn [negb].
    rewrite (indentRow_at k _ s cur Hcur). cbv zeta.
    destruct (Z.eqb_spec
                (clamp (row_indent cur + (if arrowRight then 1 else -1)) 0
                   (match k with O => 0 | S j => indentAt (data s) j end + 1))
                (row_indent cur)) as [E|E].
    - by rewrite (indentAt_lookup _ _ _ Hcur).
    - simpl_state. rewrite indentAt_insert by (by eapply lookup_lt_Some).
      by rewrite decide_True. }
  subst s'. unfold onKeyAltArrow in *.
  destruct (editing s); [by repeat split; auto|].
  destruct (hasSel (sel s)); cbn [negb] in *; [|by repeat split; auto].
  set (delta := if arrowRight then 1 else -1) in *.
  destruct (indentRow_frame (r1 (sel s)) delta s) as (-> & -> & ->).
  destruct (indentRow_data (r1 (sel s)) delta s)
    as [Hsame|(k & cur & Hk & Hcur & Hd)].
  { rewrite Hsame in *. repeat split; auto. }
  rewrite Hd in *.
  pose proof (lookup_lt_Some _ _ _ Hcur) as Hlt.
  rewrite length_insert.
  split; [done|]. split.
  { intros i Hi. apply list_lookup_insert_ne. lia. }
  split.
  { rewrite list_fmap_insert. cbn [row_id].
    apply list_insert_id. by rewrite list_lookup_fmap, Hcur. }
  split.
  { rewrite list_fmap_insert. cbn [row_cells].
    apply list_insert_id. by rewrite list_lookup_fmap, Hcur. }
  do 3 (split; [done|]). split; [exact Hpin|].
  intros Hinv i Hi Hside. apply indentOk_spec.
  pose proof (proj1 (indentOk_spec _ _) (Hinv i Hi)) as Hi_ok.
  pose proof (proj1 (indentOk_spec _ _) (Hinv k Hlt)) as Hk_ok.
  rewrite (indentAt_lookup _ _ _ Hcur) in Hk_ok.
  assert (0 <= match k with O => 0 | S j => indentAt (data s) j end)
    as Hprev.
  { destruct k as [|j]; [lia|].
    pose proof (proj1 (indentOk_spec _ _) (Hinv j ltac:(lia))). lia. }
  rewrite indentAt_insert by done.
  destruct (decide (i = k)) as [->|Hik]; cbn [row_indent].
  - unfold clamp. destruct k as [|j].
    + lia.
    + rewrite indentAt_insert by done. rewrite decide_False by lia. lia.
  - destruct i as [|j]; [lia|].
    rewrite indentAt_insert by done.
    destruct (decide (j = k)) as [->|Hjk]; cbn [row_indent]; [|lia].
    rewrite (indentAt_lookup _ _ _ Hcur) in Hi_ok.
    destruct Hside as [->|Hside]; [|lia].
    subst delta. unfold clamp.
    generalize dependent (match k with
                          | O => 0
                          | S j => indentAt (data s) j
                          end).
    intros prev. lia.
Qed.

(** ** The pointer gesture *)

(** X16.  A press on the cell [(r0, c0)] at the pointer position
    [(x0, y0)], one move to the horizontal position [x] over [target], and
    the release.  The press selects the cell.  The move extends the
    selection to the rectangle between the pressed cell and the cell under
    the pointer exactly when [(x - x0)² + (x - y0)²] is more than the
    square of the threshold: the test of the code takes both differences
    from the horizontal position of the move.  After the release no move
    changes anything, and the gesture never touches the rows, the cells or
    the columns. *)
Theorem drag_gesture_selection (r0 c0 x0 y0 x : Z) (target : option (Z * Z))
    (s : @State num) :
  let pressed := onCellMouseDown r0 c0 x0 y0 s in
  let moved := onMouseMove x target pressed in
  let released := onMouseUp moved in
  let beyond :=
    (x - x0) * (x - x0) + (x - y0) * (x - y0)
    >? DRAG_THRESHOLD_PX * DRAG_THRESHOLD_PX in
  sel pressed = {| r1 := r0; c1 := c0; r2 := r0; c2 := c0 |}
  ∧ sel released =
    match target with
    | Some (r, c) =>
        if beyond
        then {| r1 := Z.min r r0; c1 := Z.min c c0;
                r2 := Z.max r r0; c2 := Z.max c c0 |}
        else sel pressed
    | None => sel pressed
    end
  ∧ (∀ x' target', onMouseMove x' target' released = released)
  ∧ data released = data s ∧ heap released = heap s
  ∧ cols released = cols s.
Proof.
  intros pressed moved released beyond.
  subst released moved pressed. unfold onMouseUp, onMouseMove, onCellMouseDown.
  simpl_state. cbn [negb andb drag_active drag_dragging drag_x0 drag_y0
                    drag_r0 drag_c0].
  fold beyond. split; [done|].
  destruct beyond, target as [[r c]|]; cbn; by repeat split.
Qed.

(** ** Keys *)

Lemma posCell_nextPosAfter (visible : list nat) (colsLength r c : Z)
    (dir : Direction) :
  ∃ r', posCell (nextPosAfter visible colsLength r c dir)
        = Some (r', pos_c (nextPosAfter visible colsLength r c dir))
        ∧ pos_r (nextPosAfter visible colsLength r c dir) = Some r'
        ∧ (r' = r ∨ ∃ v, v ∈ visible ∧ r' = Z.of_nat v).
Proof.
  destruct (nextPosAfter_row visible colsLength r c dir)
    as (r' & Hr & Hvis).
  exists r'. unfold posCell. rewrite Hr. split; [done|]. split; [done|].
  destruct visible; [by left|by right].
Qed.

(** X17.  A navigation key (an arrow, Tab or Enter, not the indent
    chord) with no editor open and a selection: the handler returns, the
    selection becomes a single cell, its row is the row of the anchor or a
    row of [visible], and its column is a column of the grid when the
    anchor's was; the rows, the columns, the cells and the editor are
    untouched. *)
Theorem onKey_navigation (visible : list nat) (e : KeyboardEvent)
    (s : @State num) :
  editing s = None → hasSel (sel s) = true →
  ev_key e ∈ navigationKeys → isIndentChord e = false →
  ∃ s', onKey props visible e s = Some s'
        ∧ data s' = data s ∧ cols s' = cols s ∧ heap s' = heap s
        ∧ editing s' = None
        ∧ r2 (sel s') = r1 (sel s') ∧ c2 (sel s') = c1 (sel s')
        ∧ (r1 (sel s') = r1 (sel s)
           ∨ ∃ v, v ∈ visible ∧ r1 (sel s') = Z.of_nat v)
        ∧ (c1 (sel s) < Z.of_nat (length (cols s)) →
           0 <= c1 (sel s') < Z.of_nat (length (cols s))).
Proof.
  intros Hed Hsel Hkey Hchord. unfold onKey.
  rewrite Hed, Hchord, Hsel. rewrite bool_decide_eq_true_2 by done.
  cbn [negb].
  assert (0 <= c1 (sel s)) as Hc0 by (unfold hasSel in Hsel; lia).
  set (n := Z.of_nat (length (cols s))).
  set (r := r1 (sel s)). set (c := c1 (sel s)).
  assert (∀ r' c',
            (r' = r ∨ ∃ v, v ∈ visible ∧ r' = Z.of_nat v) →
            (c < n → 0 <= c' < n) →
            ∃ s', Some (setSel {| r1 := r'; r2 := r'; c1 := c'; c2 := c' |} s)
                  = Some s'
              ∧ data s' = data s ∧ cols s' = cols s ∧ heap s' = heap s
              ∧ editing s' = None
              ∧ r2 (sel s') = r1 (sel s') ∧ c2 (sel s') = c1 (sel s')
              ∧ (r1 (sel s') = r ∨ ∃ v, v ∈ visible ∧ r1 (sel s') = Z.of_nat v)
              ∧ (c < n → 0 <= c1 (sel s') < n)) as Hdone.
  { intros r' c' Hr' Hc'. eexists. split; [reflexivity|].
    simpl_state. cbn [r1 r2 c1 c2]. repeat split; try done; by apply Hc'. }
  unfold navigationKeys in Hkey.
  repeat (apply elem_of_cons in Hkey as [->|Hkey]);
    [..|by apply elem_of_nil in Hkey];
    cbn [String.eqb Ascii.eqb Bool.eqb andb mbind option_bind].
  - destruct (posCell_nextPosAfter visible n r c up) as (r' & _ & -> & Hr').
    cbn [mbind option_bind]. apply Hdone; [done|]. intros; lia.
  - destruct (posCell_nextPosAfter visible n r c down) as (r' & _ & -> & Hr').
    cbn [mbind option_bind]. apply Hdone; [done|]. intros; lia.
  - apply Hdone; [by left|]. unfold clamp. lia.
  - apply Hdone; [by left|]. unfold clamp. lia.
  - destruct (posCell_nextPosAfter visible n r c
                (if ev_shiftKey e then left else right))
      as (r' & -> & _ & Hr').
    cbn [mbind option_bind]. apply Hdone; [done|].
    intros Hc. apply nextPosAfter_column. lia.
  - destruct (posCell_nextPosAfter visible n r c
                (if ev_shiftKey e then up else down))
      as (r' & -> & _ & Hr').
    cbn [mbind option_bind]. apply Hdone; [done|].
    intros Hc. apply nextPosAfter_column. lia.
Qed.

(** X18.  Enter or Tab in the editor of a cell of the grid, in a session
    that has not committed yet: the text of the editor is committed, so
    the cell, read back, holds the coerced value; the editor is closed;
    the session is marked, so every later [commitEdit] (the blur that
    follows) changes nothing; and the selection becomes the single cell
    that [nextPosAfter] gives from the edited cell over the visible rows
    (down or up for Enter, right or left for Tab, by the Shift key). *)
Theorem onEditorKeyDown_commits_and_moves (r c : Z) (val : string)
    (e : KeyboardEvent) (s : @State num) (col : ColumnDef) (row : RowData) :
  ev_key e = "Enter" ∨ ev_key e = "Tab" →
  lastCommittedSessionRef s ≠ Some (editSessionIdRef s) →
  arrayGet (cols s) c = Some col → arrayGet (data s) r = Some row →
  let dir :=
    if String.eqb (ev_key e) "Enter"
    then if ev_shiftKey e then up else down
    else if ev_shiftKey e then left else right in
  let next :=
    nextPosAfter (visibleRowIndices (data s) (collapsed s))
      (Z.of_nat (length (cols s))) r c dir in
  ∃ s', onEditorKeyDown Number props r c val e s = Some s'
        ∧ storedValue s' r (col_key col) = commitValue Number props col val
        ∧ editing s' = None
        ∧ (∀ r' c' val', commitEdit Number props r' c' val' s' = Some s')
        ∧ pos_r next = Some (r1 (sel s')) ∧ pos_c next = c1 (sel s')
        ∧ r2 (sel s') = r1 (sel s') ∧ c2 (sel s') = c1 (sel s').
Proof.
  intros Hkey Hfresh Hcol Hrow dir next.
  destruct (commitEdit_first Number props r c val col s Hfresh Hcol)
    as (s1 & Hcommit & Hguard & _ & Hed & _ & _ & Hstored).
  destruct (posCell_nextPosAfter (visibleRowIndices (data s) (collapsed s))
              (Z.of_nat (length (cols s))) r c dir)
    as (r' & Hcell & Hr' & _).
  fold next in Hcell, Hr'.
  exists (setSel {| r1 := r'; r2 := r'; c1 := pos_c next; c2 := pos_c next |}
            s1).
  split.
  { unfold onEditorKeyDown.
    assert (String.eqb (ev_key e) "Escape" = false) as ->
      by (by destruct Hkey as [-> | ->]).
    assert (String.eqb (ev_key e) "Enter" || String.eqb (ev_key e) "Tab"
            = true) as -> by (by destruct Hkey as [-> | ->]).
    rewrite Hcommit. cbn [mbind option_bind].
    fold dir. fold next. by rewrite Hcell. }
  simpl_state. cbn [r1 r2 c1 c2].
  split; [exact (Hstored row Hrow)|]. split; [done|]. split; [|done].
  intros r2' c2' val'. unfold commitEdit. simpl_state.
  by rewrite bool_decide_eq_true_2.
Qed.

(** ** Copy *)

(** The cell of row [r] in column [col], as [onCopy] shows it. *)
Definition copiedCell (s : @State num) (r : nat) (col : ColumnDef)
  : @CellValue num :=
  displayValue props col
    (orEmptyText (storedValue s (Z.of_nat r) (col_key col))).

Lemma copyLine_spec (cs : list ColumnDef)
    (cells : gmap string (@CellValue num)) :
  ∀ (n c : nat),
    n = 0%nat ∨ (c + n <= length cs)%nat →
    copyLine props cs cells (Z.of_nat c) n
    = Some ((λ col, displayValue props col
                      (orEmptyText (cellGet cells (col_key col))))
            <$> take n (drop c cs)).
Proof.
  induction n as [|n IH]; intros c Hc; [done|].
  cbn [copyLine].
  destruct (lookup_lt_is_Some_2 cs c ltac:(lia)) as [col Hcol].
  assert (arrayGet cs (Z.of_nat c) = Some col) as ->
    by (apply arrayGet_Some; split; [lia|by rewrite Nat2Z.id]).
  cbn [mbind option_bind].
  replace (Z.of_nat c + 1) with (Z.of_nat (S c)) by lia.
  rewrite IH by lia. cbn [mbind option_bind].
  rewrite (drop_S _ _ _ Hcol). done.
Qed.

(** X19.  With a selection whose last column is a column of the grid,
    [onCopy] does not throw and copies the visible rows from [r1] to
    [r2], in the order of the rows, and of each the cells of the columns
    [c1] to [c2] as they are displayed (an absent value as the empty
    text): rows hidden under a collapsed parent are left out, also inside
    the selected range, and a selection with [c2] before [c1] gives empty
    lines. *)
Theorem onCopy_takes_the_visible_rows (s : @State num) :
  hasSel (sel s) = true →
  c2 (sel s) < Z.of_nat (length (cols s)) →
  let visible := visibleRowIndices (data s) (collapsed s) in
  let selected :=
    filter (λ r, r1 (sel s) <= Z.of_nat r <= r2 (sel s)) visible in
  let columns :=
    take (Z.to_nat (c2 (sel s) - c1 (sel s) + 1))
         (drop (Z.to_nat (c1 (sel s))) (cols s)) in
  onCopy props s
  = Some ((λ r, copiedCell s r <$> columns) <$> selected).
Proof.
  intros Hsel Hc visible selected columns.
  unfold onCopy. rewrite Hsel. cbn [negb]. fold visible.
  assert (0 <= c1 (sel s)) as Hc1 by (unfold hasSel in Hsel; lia).
  assert (∀ r, r ∈ visible → (r < length (data s))%nat) as Hin
    by (intros r Hr; by apply elem_of_visibleRowIndices in Hr as [? _]).
  subst selected. clearbody visible.
  induction visible as [|r visible IH]; [done|].
  cbn [copyRows]. rewrite filter_cons.
  destruct (decide (r1 (sel s) <= Z.of_nat r <= r2 (sel s))) as [Hr|Hr].
  - assert ((Z.of_nat r <? r1 (sel s)) || (Z.of_nat r >? r2 (sel s)) = false)
      as -> by lia.
    destruct (lookup_lt_is_Some_2 (data s) r) as [row Hrow];
      [apply Hin; by left|].
    rewrite Hrow. cbn [mbind option_bind].
    replace (c1 (sel s)) with (Z.of_nat (Z.to_nat (c1 (sel s)))) at 1 by lia.
    rewrite copyLine_spec by lia. cbn [mbind option_bind].
    rewrite IH by (intros r' Hr'; apply Hin; by right).
    cbn [mbind option_bind fmap list_fmap]. do 2 f_equal.
    fold columns. apply list_fmap_ext. intros _ col _.
    unfold copiedCell, storedValue, arrayGet.
    assert ((Z.of_nat r <? 0) = false) as -> by (apply Z.ltb_ge; lia).
    by rewrite Nat2Z.id, Hrow.
  - assert ((Z.of_nat r <? r1 (sel s)) || (Z.of_nat r >? r2 (sel s)) = true)
      as -> by lia.
    apply IH. intros r' Hr'. apply Hin. by right.
Qed.

End TableCoreRestFacts.

(* ================================================================== *)
(** * More on the dates *)
(* ================================================================== *)

(** ** Every day is a date of the calendar *)

Definition dayCheck (n : Z) : bool :=
  match JS.civilFromDay n with
  | (y, m, d) => existingDate y (m + 1) d && (JS.MakeDay y m d =? n)
  end.

Lemma dayCheck_era : allFrom dayCheck 0 (Z.to_nat 146097) = true.
Proof. vm_compute. reflexivity. Qed.

Lemma dayCheck_true (n y m d : Z) :
  dayCheck n = true → JS.civilFromDay n = (y, m, d) →
  existingDate y (m + 1) d = true ∧ JS.MakeDay y m d = n.
Proof.
  unfold dayCheck. intros H E. rewrite E in H.
  apply andb_prop in H as [H1 H2]. apply Z.eqb_eq in H2. done.
Qed.

(** The year, month and day of a day number are a date of the calendar,
    and [MakeDay] of them is the day number. *)
Lemma civilFromDay_calendar (n y m d : Z) :
  JS.civilFromDay n = (y, m, d) →
  existingDate y (m + 1) d = true ∧ JS.MakeDay y m d = n.
Proof.
  intros E.
  set (r := n mod 146097). set (q := n / 146097).
  assert (n = r + 146097 * q) as Hn by (subst r q; zdiv).
  assert (0 <= r < 146097) as Hr by (subst r; zdiv).
  clearbody r q. subst n.
  rewrite civilFromDay_era in E.
  destruct (JS.civilFromDay r) as [[y0 m0] d0] eqn:E0.
  injection E as <- <- <-.
  pose proof (forallb_range dayCheck 146097 dayCheck_era r Hr) as Hc.
  destruct (dayCheck_true r y0 m0 d0 Hc E0) as [Hex Hday].
  pose proof (existingDate_bounds _ _ _ Hex) as [Hm _].
  rewrite existingDate_era, MakeDay_era by lia. split; [done|lia].
Qed.

(** ** White space around a date text *)

Lemma trimEnd_idem (s : string) : JS.trimEnd (JS.trimEnd s) = JS.trimEnd s.
Proof.
  induction s as [|c s IH]; [done|]. cbn [JS.trimEnd].
  destruct (JS.isWhiteSpace c && JS.isEmpty (JS.trimEnd s)) eqn:E; [done|].
  cbn [JS.trimEnd]. by rewrite IH, E.
Qed.

Lemma trimStart_head (s : string) :
  match JS.trimStart s with
  | EmptyString => True
  | String c _ => JS.isWhiteSpace c = false
  end.
Proof.
  induction s as [|c s IH]; [done|]. cbn [JS.trimStart].
  by destruct (JS.isWhiteSpace c) eqn:E.
Qed.

Lemma trim_idem (s : string) : JS.trim (JS.trim s) = JS.trim s.
Proof.
  unfold JS.trim. pose proof (trimStart_head s) as Hhead.
  destruct (JS.trimStart s) as [|c u]; [done|].
  cbn [JS.trimEnd]. rewrite Hhead. cbn [andb JS.trimStart]. rewrite Hhead.
  cbn [JS.trimEnd]. by rewrite trimEnd_idem, Hhead.
Qed.

(** X20.  [parseDateFlexible] ignores the white space around the text:
    a text and its trimmed form parse alike, under every hint (the text
    is tested for emptiness before it is trimmed, and again after). *)
Theorem parseDateFlexible_ignores_outer_white_space (input : string)
    (hint : option string) :
  parseDateFlexible (JS.trim input) hint = parseDateFlexible input hint.
Proof.
  unfold parseDateFlexible. rewrite trim_idem.
  destruct input as [|c input]; [done|]. cbn [JS.isEmpty].
  by destruct (JS.isEmpty (JS.trim (String c input))).
Qed.

(** ** The ISO text of the native date input *)




(** ** The text of a year *)

Definition yearTextCheck (y : Z) : bool :=
  let s := JS.ToString y in
  allDigits s
  && negb (String.length s =? 0)%nat
  && (negb (String.length s =? 4)%nat || ((1000 <=? y) && (y <=? 9999))).

Lemma ToString_year (y : Z) :
  0 <= y <= 10100 →
  allDigits (JS.ToString y) = true
  ∧ String.length (JS.ToString y) ≠ 0%nat
  ∧ (String.length (JS.ToString y) = 4%nat → 1000 <= y <= 9999).
Proof.
  intros Hy.
  assert (allFrom yearTextCheck 0 (Z.to_nat 10101) = true) as Hall
    by (vm_compute; reflexivity).
  pose proof (forallb_range _ _ Hall y ltac:(lia)) as H.
  unfold yearTextCheck in H. cbv zeta in H.
  apply andb_prop in H as [H H4]. apply andb_prop in H as [Hd H0].
  split; [done|]. split.
  - intros E. rewrite E in H0. done.
  - intros E. rewrite E in H4. cbn in H4. lia.
Qed.

(** ** Texts whose year has not four digits *)

(** [\d{4}] on a run of digits that has not four of them: no match, or a
    digit is left over. *)
Lemma reDigits_4_other (Y rest : string) :
  allDigits Y = true → String.length Y ≠ 4%nat →
  match rest with
  | EmptyString => True
  | String c _ => JS.isDigit c = false
  end →
  match reDigits 4 (Y +:+ rest) with
  | None => True
  | Some (_, r) => ∃ c r', r = String c r' ∧ JS.isDigit c = true
  end.
Proof.
  intros Hd Hlen Hrest.
  destruct Y as [|a [|b [|c [|d [|e Y]]]]]; cbn [String.length] in Hlen;
    try lia; cbn [allDigits] in Hd;
    repeat (apply andb_prop in Hd as [? Hd]);
    rewrite ?append_cons, ?append_nil; cbn [reDigits];
    repeat match goal with H : JS.isDigit _ = true |- _ => rewrite H end;
    try (destruct rest as [|x rest]; cbn [reDigits]; [done|by rewrite Hrest]).
  eauto.
Qed.

Lemma matchSeparated_year_not_4 (sep : ascii) (g1 g2 Y : string) :
  JS.isDigit sep = false →
  digitGroup 1 2 g1 → digitGroup 1 2 g2 →
  allDigits Y = true → String.length Y ≠ 4%nat →
  matchSeparated sep (g1 +:+ String sep (g2 +:+ String sep Y)) = None.
Proof.
  intros Hsep H1 H2 Hd Hlen. unfold matchSeparated.
  rewrite (reDigits1to2_app g1 sep _ H1 Hsep). cbn [mbind option_bind reChar].
  rewrite Ascii.eqb_refl. cbn [mbind option_bind].
  rewrite (reDigits1to2_app g2 sep _ H2 Hsep). cbn [mbind option_bind reChar].
  rewrite Ascii.eqb_refl. cbn [mbind option_bind].
  pose proof (reDigits_4_other Y "" Hd Hlen I) as H.
  rewrite append_empty_r in H.
  destruct (reDigits 4 Y) as [[g r]|]; [|done].
  destruct H as (c & r' & -> & Hc). cbn [mbind option_bind JS.isEmpty reSpaces].
  by rewrite (isDigit_not_space c Hc).
Qed.

Lemma matchIso_year_not_4 (Y rest : string) :
  allDigits Y = true → String.length Y ≠ 4%nat →
  matchIso (Y +:+ String "-" rest) = None.
Proof.
  intros Hd Hlen. unfold matchIso.
  pose proof (reDigits_4_other Y (String "-" rest) Hd Hlen eq_refl) as H.
  destruct (reDigits 4 (Y +:+ String "-" rest)) as [[g r]|]; [|done].
  destruct H as (c & r' & -> & Hc). cbn [mbind option_bind reChar].
  by rewrite (eqb_not_digit "-" c).
Qed.

(** A text that begins with digits and a hyphen has neither the dot nor
    the slash shape. *)
Lemma matchSeparated_hyphen (sep : ascii) (Y rest : string) :
  JS.isDigit sep = false → Ascii.eqb sep "-" = false →
  allDigits Y = true →
  matchSeparated sep (Y +:+ String "-" rest) = None.
Proof.
  intros Hsep Hne Hd. unfold matchSeparated, reDigits1to2.
  destruct Y as [|a [|b [|c Y]]]; cbn [allDigits] in Hd;
    repeat (apply andb_prop in Hd as [? Hd]);
    rewrite ?append_cons, ?append_nil; cbn [reDigits];
    repeat match goal with H : JS.isDigit _ = true |- _ => rewrite H end;
    cbn [JS.isDigit mbind option_bind reChar]; rewrite ?Hne; try done.
  - change (JS.isDigit "-") with false. cbv iota.
    cbn [mbind option_bind reChar]. by rewrite Hne.
  - by rewrite (eqb_not_digit sep c).
Qed.

(** The known patterns, filled with a year of four digits and a month (up
    to 12) and a day of two, have these fields and no time of day. *)
Lemma fieldsOf_known_patterns (p Y M D : string) :
  In p knownPatterns →
  digitGroup 4 4 Y → digitGroup 2 2 M → digitGroup 2 2 D →
  JS.NumberOfDigits M <= 12 →
  fieldsOf
    (JS.replace "dd" D (JS.replace "mm" M (JS.replace "yyyy" Y p))) (Some p)
  = Some (JS.NumberOfDigits Y, JS.NumberOfDigits M, JS.NumberOfDigits D,
          0, 0, 0).
Proof.
  intros Hp HY HM HD Hm12.
  pose proof (digitGroup_2_12 _ HM) as HM'.
  pose proof (digitGroup_2_12 _ HD) as HD'.
  destruct (replace_known_patterns Y M D (proj2 HY) (proj2 HM) (proj2 HD))
    as (E1 & E2 & E3 & E4).
  unfold fieldsOf, matchDot, matchSlash.
  cbn [In knownPatterns] in Hp.
  destruct Hp as [<-|[<-|[<-|[<-|[]]]]].
  - rewrite E1, trim_noSpace
      by (apply noSpace_separated; [reflexivity|apply HD|apply HM|apply HY]).
    rewrite matchIso_other by (reflexivity || done).
    rewrite matchSeparated_app by (reflexivity || done).
    reflexivity.
  - rewrite E2, trim_noSpace
      by (apply noSpace_separated; [reflexivity|apply HM|apply HD|apply HY]).
    rewrite matchIso_other by (reflexivity || done).
    rewrite matchSeparated_other by (reflexivity || done).
    rewrite matchSeparated_app by (reflexivity || done).
    unfold specSlashDayMonth.
    assert ((JS.NumberOfDigits M >? 12) = false) as -> by lia.
    cbn [andb negb numberOr0].
    destruct (JS.NumberOfDigits D >? 12); reflexivity.
  - rewrite E3, trim_noSpace
      by (apply noSpace_separated; [reflexivity|apply HY|apply HM|apply HD]).
    rewrite matchIso_app by done. reflexivity.
  - rewrite E4, trim_noSpace
      by (apply noSpace_separated; [reflexivity|apply HD|apply HM|apply HY]).
    rewrite matchIso_other by (reflexivity || done).
    rewrite matchSeparated_other by (reflexivity || done).
    rewrite matchSeparated_app by (reflexivity || done).
    unfold specSlashDayMonth.
    assert ((JS.NumberOfDigits M >? 12) = false) as -> by lia.
    cbn [andb negb numberOr0]. rewrite andb_true_r.
    destruct (JS.NumberOfDigits D >? 12); reflexivity.
Qed.

(** The known patterns, filled with a year that has not four digits, have
    none of the three shapes. *)
Lemma fieldsOf_year_not_4 (p Y M D : string) (hint : option string) :
  In p knownPatterns →
  allDigits Y = true → String.length Y ≠ 4%nat →
  digitGroup 2 2 M → digitGroup 2 2 D →
  fieldsOf
    (JS.replace "dd" D (JS.replace "mm" M (JS.replace "yyyy" Y p))) hint
  = None.
Proof.
  intros Hp HY Hlen HM HD.
  pose proof (digitGroup_2_12 _ HM) as HM'.
  pose proof (digitGroup_2_12 _ HD) as HD'.
  destruct (replace_known_patterns Y M D HY (proj2 HM) (proj2 HD))
    as (E1 & E2 & E3 & E4).
  unfold fieldsOf, matchDot, matchSlash.
  cbn [In knownPatterns] in Hp.
  destruct Hp as [<-|[<-|[<-|[<-|[]]]]].
  - rewrite E1, trim_noSpace
      by (apply noSpace_separated; [reflexivity|apply HD|apply HM|apply HY]).
    rewrite matchIso_other by (reflexivity || done).
    rewrite matchSeparated_year_not_4 by (reflexivity || done).
    by rewrite matchSeparated_other by (reflexivity || done).
  - rewrite E2, trim_noSpace
      by (apply noSpace_separated; [reflexivity|apply HM|apply HD|apply HY]).
    rewrite matchIso_other by (reflexivity || done).
    rewrite matchSeparated_other by (reflexivity || done).
    by rewrite matchSeparated_year_not_4 by (reflexivity || done).
  - rewrite E3, trim_noSpace
      by (apply noSpace_separated; [reflexivity|apply HY|apply HM|apply HD]).
    rewrite matchIso_year_not_4 by done.
    by rewrite !matchSeparated_hyphen by (reflexivity || done).
  - rewrite E4, trim_noSpace
      by (apply noSpace_separated; [reflexivity|apply HD|apply HM|apply HY]).
    rewrite matchIso_other by (reflexivity || done).
    rewrite matchSeparated_other by (reflexivity || done).
    by rewrite matchSeparated_year_not_4 by (reflexivity || done).
Qed.

(** [formatDateByPattern] of a date, by its year, month and day. *)
Lemma formatDateByPattern_text (t : Z) (p : string) (y m d : Z) :
  JS.civilFromDay (JS.Day t) = (y, m, d) →
  existingDate y (m + 1) d = true
  ∧ formatDateByPattern (Some (JS.DateValue t)) p =
    JS.replace "dd" (twoDigits d)
      (JS.replace "mm" (twoDigits (m + 1))
         (JS.replace "yyyy" (JS.ToString y) p)).
Proof.
  intros E. destruct (civilFromDay_calendar _ _ _ _ E) as [Hex _].
  split; [done|].
  pose proof (existingDate_bounds _ _ _ Hex) as [Hm Hd].
  unfold formatDateByPattern, JS.getFullYear, JS.getMonth, JS.getDate,
    JS.YearFromTime, JS.MonthFromTime, JS.DateFromTime, stringOfNumber.
  rewrite E. cbn [fst snd fmap option_fmap option_map].
  by rewrite !padStart_twoDigits by lia.
Qed.

(** Reading a formatted date back and formatting it again gives the same
    text. *)
Lemma formatDateByPattern_again (t : Z) (p : string) (d' : JS.Date) :
  In p knownPatterns → 0 <= JS.YearFromTime t <= 10100 →
  parseDateFlexible (formatDateByPattern (Some (JS.DateValue t)) p) (Some p)
  = Some d' →
  formatDateByPattern (Some d') p
  = formatDateByPattern (Some (JS.DateValue t)) p.
Proof.
  intros Hp Hy Hparse. unfold JS.YearFromTime in Hy.
  destruct (JS.civilFromDay (JS.Day t)) as [[y m] d] eqn:E.
  cbn [fst snd] in Hy.
  destruct (formatDateByPattern_text t p y m d E) as [Hex Htext].
  pose proof (existingDate_bounds _ _ _ Hex) as [Hm Hd].
  destruct (ToString_year y Hy) as (Hdig & Hne & H4).
  rewrite Htext in Hparse |- *.
  destruct (decide (String.length (JS.ToString y) = 4%nat)) as [Hlen|Hlen].
  - specialize (H4 Hlen).
    rewrite ToString_fourDigits in Hparse |- * by done.
    rewrite (parseDateFlexible_shape_not_null _ _ y (m + 1) d 0 0 0) in Hparse.
    + injection Hparse as <-.
      rewrite <- newDate_valid by lia.
      apply formatDateByPattern_digits; [|lia..].
      apply calendarOfDate_newDate; [lia|done|done].
    + rewrite fieldsOf_known_patterns;
        [|done|by apply digitGroup_fourDigits; lia
         |by apply digitGroup_twoDigits; lia
         |by apply digitGroup_twoDigits; lia
         |rewrite Number_twoDigits; lia].
      by rewrite Number_fourDigits, !Number_twoDigits by lia.
  - rewrite parseDateFlexible_fields in Hparse.
    rewrite fieldsOf_year_not_4 in Hparse; [done|done|done|done|..];
      apply digitGroup_twoDigits; lia.
Qed.

(** The years of the dates that [parseDateFlexible] returns. *)
Lemma parseDateFlexible_year (input : string) (hint : option string)
    (dt : JS.Date) :
  parseDateFlexible input hint = Some dt →
  ∃ t, dt = JS.DateValue t ∧ 0 <= JS.YearFromTime t <= 10100.
Proof.
  rewrite parseDateFlexible_fields.
  destruct (fieldsOf input hint) as [[[[[[y m] d] hh] mi] ss]|] eqn:Hf; [|done].
  apply fieldsOf_bounds in Hf as (Hy & Hm & Hd & Hh & Hmi & Hs).
  rewrite newDate_valid by done. intros [= <-].
  eexists. split; [reflexivity|].
  set (Y := JS.MakeFullYear y).
  assert (100 <= Y <= 9999) as HY.
  { subst Y. unfold JS.MakeFullYear.
    destruct ((0 <=? y) && (y <=? 99)) eqn:E; lia. }
  clearbody Y.
  set (D := JS.MakeDay Y (m - 1) d).
  assert (-684000 <= D <= 2940000) as HD.
  { subst D. unfold JS.MakeDay.
    pose proof (monthStart_bounds (JS.isLeapYear (Y + (m - 1) / 12))
                  ((m - 1) mod 12)).
    unfold JS.DayFromYear. zdiv. }
  clearbody D.
  assert (D <= JS.Day (JS.MakeDate D (JS.MakeTime hh mi ss 0)) <= D + 4)
    as Hday.
  { unfold JS.Day, JS.MakeDate, JS.MakeTime, JS.msPerDay, JS.msPerHour,
      JS.msPerMinute, JS.msPerSecond. zdiv. }
  unfold JS.YearFromTime.
  destruct (JS.civilFromDay (JS.Day (JS.MakeDate D (JS.MakeTime hh mi ss 0))))
    as [[y' m'] d'] eqn:E.
  cbn [fst].
  destruct (civilFromDay_calendar _ _ _ _ E) as [Hex Hmk].
  pose proof (existingDate_bounds _ _ _ Hex) as [Hm' Hd'].
  unfold JS.MakeDay in Hmk.
  rewrite (Z.div_small m' 12), (Z.mod_small m' 12), Z.add_0_r in Hmk by lia.
  pose proof (monthStart_bounds (JS.isLeapYear y') m').
  unfold JS.DayFromYear in Hmk. zdiv.
Qed.

(** ** Dates with a time of the day *)

Lemma append_assoc (a b c : string) : (a +:+ b) +:+ c = a +:+ (b +:+ c).
Proof. induction a as [|x a IH]; [done|]. by rewrite !append_cons, IH. Qed.

(** The end of a text with a time of the day, [" hh:mi"]. *)
Definition timeOfDayText (hh mi : string) : string :=
  String " " (hh +:+ String ":" mi).

Lemma trimEnd_app_noSpace (a b : string) :
  noSpace b = true → b ≠ "" → JS.trimEnd (a +:+ b) = a +:+ b.
Proof.
  intros Hb Hne. induction a as [|c a IH].
  - rewrite append_nil. by apply trimEnd_noSpace.
  - rewrite append_cons. cbn [JS.trimEnd]. rewrite IH.
    destruct (a +:+ b) as [|x r] eqn:E.
    + destruct a; [by rewrite append_nil in E|by rewrite append_cons in E].
    + cbn [JS.isEmpty]. by rewrite andb_false_r.
Qed.

Lemma trim_timeOfDay (a hh mi : string) :
  noSpace a = true → a ≠ "" →
  digitGroup 2 2 hh → allDigits mi = true →
  JS.trim (a +:+ timeOfDayText hh mi) = a +:+ timeOfDayText hh mi.
Proof.
  intros Ha Hne [Hl Hh] Hmi. unfold JS.trim.
  assert (JS.trimStart (a +:+ timeOfDayText hh mi)
          = a +:+ timeOfDayText hh mi) as ->.
  { destruct a as [|c a]; [done|]. rewrite append_cons.
    cbn [noSpace] in Ha. apply andb_prop in Ha as [Hc _].
    cbn [JS.trimStart]. by destruct (JS.isWhiteSpace c). }
  unfold timeOfDayText.
  change (String " " (hh +:+ String ":" mi))
    with (" " +:+ (hh +:+ String ":" mi)).
  rewrite <- append_assoc. apply trimEnd_app_noSpace.
  - rewrite noSpace_app. cbn [noSpace].
    by rewrite !allDigits_noSpace.
  - destruct hh; [cbn in Hl; lia|done].
Qed.

(** [a SEP b SEP yyyy hh:mi] is matched, with these groups. *)
Lemma matchSeparated_time (sep : ascii) (g1 g2 g3 hh mi : string) :
  JS.isDigit sep = false →
  digitGroup 1 2 g1 → digitGroup 1 2 g2 → digitGroup 4 4 g3 →
  digitGroup 2 2 hh → digitGroup 2 2 mi →
  matchSeparated sep
    (g1 +:+ String sep (g2 +:+ String sep (g3 +:+ timeOfDayText hh mi)))
  = Some (g1, g2, g3, Some hh, Some mi).
Proof.
  intros Hsep H1 H2 [Hl3 Hd3] Hh [Hlm Hdm]. unfold matchSeparated.
  rewrite (reDigits1to2_app g1 sep _ H1 Hsep). cbn [mbind option_bind reChar].
  rewrite Ascii.eqb_refl. cbn [mbind option_bind].
  rewrite (reDigits1to2_app g2 sep _ H2 Hsep). cbn [mbind option_bind reChar].
  rewrite Ascii.eqb_refl. cbn [mbind option_bind].
  rewrite (reDigits_app 4 g3 _ ltac:(lia) Hd3). unfold timeOfDayText.
  cbn [mbind option_bind JS.isEmpty reSpaces].
  change (JS.isWhiteSpace " ") with true. cbv iota.
  rewrite trimStart_noSpace.
  2:{ rewrite noSpace_app. cbn [noSpace].
      by rewrite !allDigits_noSpace by (done || apply Hh). }
  cbn [mbind option_bind].
  rewrite (reDigits1to2_app hh ":" _ (digitGroup_2_12 _ Hh) eq_refl).
  cbn [mbind option_bind reChar]. rewrite Ascii.eqb_refl.
  cbn [mbind option_bind].
  rewrite (reDigits_end 2 mi ltac:(lia) Hdm). reflexivity.
Qed.

Lemma matchIso_time (g1 g2 g3 hh mi : string) :
  digitGroup 4 4 g1 → digitGroup 2 2 g2 → digitGroup 2 2 g3 →
  digitGroup 2 2 hh → digitGroup 2 2 mi →
  matchIso (g1 +:+ String "-" (g2 +:+ String "-" (g3 +:+ timeOfDayText hh mi)))
  = Some (g1, g2, g3, Some hh, Some mi, None).
Proof.
  intros [Hl1 Hd1] [Hl2 Hd2] [Hl3 Hd3] [Hlh Hdh] [Hlm Hdm]. unfold matchIso.
  rewrite (reDigits_app 4 g1 _ ltac:(lia) Hd1). cbn [mbind option_bind reChar].
  rewrite Ascii.eqb_refl. cbn [mbind option_bind].
  rewrite (reDigits_app 2 g2 _ ltac:(lia) Hd2). cbn [mbind option_bind reChar].
  rewrite Ascii.eqb_refl. cbn [mbind option_bind].
  rewrite (reDigits_app 2 g3 _ ltac:(lia) Hd3). unfold timeOfDayText.
  cbn [mbind option_bind JS.isEmpty reTOrSpace].
  change (Ascii.eqb " " "T" || JS.isWhiteSpace " ") with true. cbv iota.
  cbn [mbind option_bind].
  rewrite (reDigits_app 2 hh _ ltac:(lia) Hdh). cbn [mbind option_bind reChar].
  rewrite Ascii.eqb_refl. cbn [mbind option_bind].
  rewrite (reDigits_end 2 mi ltac:(lia) Hdm). reflexivity.
Qed.

Lemma matchSeparated_year_not_4_time (sep : ascii) (g1 g2 Y hh mi : string) :
  JS.isDigit sep = false →
  digitGroup 1 2 g1 → digitGroup 1 2 g2 →
  allDigits Y = true → String.length Y ≠ 4%nat →
  matchSeparated sep
    (g1 +:+ String sep (g2 +:+ String sep (Y +:+ timeOfDayText hh mi)))
  = None.
Proof.
  intros Hsep H1 H2 Hd Hlen. unfold matchSeparated.
  rewrite (reDigits1to2_app g1 sep _ H1 Hsep). cbn [mbind option_bind reChar].
  rewrite Ascii.eqb_refl. cbn [mbind option_bind].
  rewrite (reDigits1to2_app g2 sep _ H2 Hsep). cbn [mbind option_bind reChar].
  rewrite Ascii.eqb_refl. cbn [mbind option_bind].
  pose proof (reDigits_4_other Y (timeOfDayText hh mi) Hd Hlen eq_refl) as H.
  destruct (reDigits 4 (Y +:+ timeOfDayText hh mi)) as [[g r]|]; [|done].
  destruct H as (c & r' & -> & Hc). cbn [mbind option_bind JS.isEmpty reSpaces].
  by rewrite (isDigit_not_space c Hc).
Qed.

Lemma separated_timeOfDay (sep : ascii) (g1 g2 g3 t : string) :
  (g1 +:+ String sep (g2 +:+ String sep g3)) +:+ t
  = g1 +:+ String sep (g2 +:+ String sep (g3 +:+ t)).
Proof. by rewrite append_assoc, append_cons, append_assoc, append_cons. Qed.

Lemma separated_not_empty (sep : ascii) (g1 r : string) :
  g1 +:+ String sep r ≠ "".
Proof. by destruct g1. Qed.

(** The known patterns, filled as before and followed by a time of the
    day, have these fields. *)
Lemma fieldsOf_known_patterns_time (p Y M D hh mi : string) :
  In p knownPatterns →
  digitGroup 4 4 Y → digitGroup 2 2 M → digitGroup 2 2 D →
  digitGroup 2 2 hh → digitGroup 2 2 mi →
  JS.NumberOfDigits M <= 12 →
  fieldsOf
    (JS.replace "dd" D (JS.replace "mm" M (JS.replace "yyyy" Y p))
     +:+ timeOfDayText hh mi) (Some p)
  = Some (JS.NumberOfDigits Y, JS.NumberOfDigits M, JS.NumberOfDigits D,
          JS.NumberOfDigits hh, JS.NumberOfDigits mi, 0).
Proof.
  intros Hp HY HM HD Hh Hmi Hm12.
  pose proof (digitGroup_2_12 _ HM) as HM'.
  pose proof (digitGroup_2_12 _ HD) as HD'.
  destruct (replace_known_patterns Y M D (proj2 HY) (proj2 HM) (proj2 HD))
    as (E1 & E2 & E3 & E4).
  unfold fieldsOf, matchDot, matchSlash.
  cbn [In knownPatterns] in Hp.
  destruct Hp as [<-|[<-|[<-|[<-|[]]]]].
  - rewrite E1, trim_timeOfDay
      by (done || apply separated_not_empty || apply Hmi
          || (apply noSpace_separated;
              [reflexivity|apply HD|apply HM|apply HY])).
    rewrite separated_timeOfDay.
    rewrite matchIso_other by (reflexivity || done).
    rewrite matchSeparated_time by (reflexivity || done).
    reflexivity.
  - rewrite E2, trim_timeOfDay
      by (done || apply separated_not_empty || apply Hmi
          || (apply noSpace_separated;
              [reflexivity|apply HM|apply HD|apply HY])).
    rewrite separated_timeOfDay.
    rewrite matchIso_other by (reflexivity || done).
    rewrite matchSeparated_other by (reflexivity || done).
    rewrite matchSeparated_time by (reflexivity || done).
    unfold specSlashDayMonth.
    assert ((JS.NumberOfDigits M >? 12) = false) as -> by lia.
    cbn [andb negb numberOr0].
    destruct (JS.NumberOfDigits D >? 12); reflexivity.
  - rewrite E3, trim_timeOfDay
      by (done || apply separated_not_empty || apply Hmi
          || (apply noSpace_separated;
              [reflexivity|apply HY|apply HM|apply HD])).
    rewrite separated_timeOfDay.
    rewrite matchIso_time by done. reflexivity.
  - rewrite E4, trim_timeOfDay
      by (done || apply separated_not_empty || apply Hmi
          || (apply noSpace_separated;
              [reflexivity|apply HD|apply HM|apply HY])).
    rewrite separated_timeOfDay.
    rewrite matchIso_other by (reflexivity || done).
    rewrite matchSeparated_other by (reflexivity || done).
    rewrite matchSeparated_time by (reflexivity || done).
    unfold specSlashDayMonth.
    assert ((JS.NumberOfDigits M >? 12) = false) as -> by lia.
    cbn [andb negb numberOr0]. rewrite andb_true_r.
    destruct (JS.NumberOfDigits D >? 12); reflexivity.
Qed.

(** With a year that has not four digits they have none of the three
    shapes. *)
Lemma fieldsOf_year_not_4_time (p Y M D hh mi : string)
    (hint : option string) :
  In p knownPatterns →
  allDigits Y = true → String.length Y ≠ 4%nat →
  digitGroup 2 2 M → digitGroup 2 2 D →
  digitGroup 2 2 hh → digitGroup 2 2 mi →
  fieldsOf
    (JS.replace "dd" D (JS.replace "mm" M (JS.replace "yyyy" Y p))
     +:+ timeOfDayText hh mi) hint
  = None.
Proof.
  intros Hp HY Hlen HM HD Hh Hmi.
  pose proof (digitGroup_2_12 _ HM) as HM'.
  pose proof (digitGroup_2_12 _ HD) as HD'.
  destruct (replace_known_patterns Y M D HY (proj2 HM) (proj2 HD))
    as (E1 & E2 & E3 & E4).
  unfold fieldsOf, matchDot, matchSlash.
  cbn [In knownPatterns] in Hp.
  destruct Hp as [<-|[<-|[<-|[<-|[]]]]].
  - rewrite E1, trim_timeOfDay
      by (done || apply separated_not_empty || apply Hmi
          || (apply noSpace_separated;
              [reflexivity|apply HD|apply HM|apply HY])).
    rewrite separated_timeOfDay.
    rewrite matchIso_other by (reflexivity || done).
    rewrite matchSeparated_year_not_4_time by (reflexivity || done).
    by rewrite matchSeparated_other by (reflexivity || done).
  - rewrite E2, trim_timeOfDay
      by (done || apply separated_not_empty || apply Hmi
          || (apply noSpace_separated;
              [reflexivity|apply HM|apply HD|apply HY])).
    rewrite separated_timeOfDay.
    rewrite matchIso_other by (reflexivity || done).
    rewrite matchSeparated_other by (reflexivity || done).
    by rewrite matchSeparated_year_not_4_time by (reflexivity || done).
  - rewrite E3, trim_timeOfDay
      by (done || apply separated_not_empty || apply Hmi
          || (apply noSpace_separated;
              [reflexivity|apply HY|apply HM|apply HD])).
    rewrite separated_timeOfDay.
    rewrite matchIso_year_not_4 by done.
    by rewrite !matchSeparated_hyphen by (reflexivity || done).
  - rewrite E4, trim_timeOfDay
      by (done || apply separated_not_empty || apply Hmi
          || (apply noSpace_separated;
              [reflexivity|apply HD|apply HM|apply HY])).
    rewrite separated_timeOfDay.
    rewrite matchIso_other by (reflexivity || done).
    rewrite matchSeparated_other by (reflexivity || done).
    by rewrite matchSeparated_year_not_4_time by (reflexivity || done).
Qed.

(** [formatDatetimeByPattern] of a date: the date text and the time of
    the day. *)
Lemma formatDatetimeByPattern_text (t : Z) (p : string) :
  formatDatetimeByPattern (Some (JS.DateValue t)) p
  = formatDateByPattern (Some (JS.DateValue t)) p
    +:+ timeOfDayText (twoDigits (JS.HourFromTime t))
                      (twoDigits (JS.MinFromTime t)).
Proof.
  unfold formatDatetimeByPattern, JS.getHours, JS.getMinutes, stringOfNumber,
    timeOfDayText.
  rewrite !padStart_twoDigits
    by (unfold JS.HourFromTime, JS.MinFromTime; zdiv).
  reflexivity.
Qed.

Lemma time_of_MakeDate (day hh mi : Z) :
  0 <= hh < 24 → 0 <= mi < 60 →
  JS.HourFromTime (JS.MakeDate day (JS.MakeTime hh mi 0 0)) = hh
  ∧ JS.MinFromTime (JS.MakeDate day (JS.MakeTime hh mi 0 0)) = mi.
Proof.
  intros Hh Hmi.
  unfold JS.HourFromTime, JS.MinFromTime, JS.MakeDate, JS.MakeTime,
    JS.msPerDay, JS.msPerHour, JS.msPerMinute, JS.msPerSecond.
  split; zdiv.
Qed.

(** Reading a formatted date and time back and formatting it again gives
    the same text. *)
Lemma formatDatetimeByPattern_again (t : Z) (p : string) (d' : JS.Date) :
  In p knownPatterns → 0 <= JS.YearFromTime t <= 10100 →
  parseDateFlexible (formatDatetimeByPattern (Some (JS.DateValue t)) p)
    (Some p) = Some d' →
  formatDatetimeByPattern (Some d') p
  = formatDatetimeByPattern (Some (JS.DateValue t)) p.
Proof.
  intros Hp Hy Hparse. unfold JS.YearFromTime in Hy.
  destruct (JS.civilFromDay (JS.Day t)) as [[y m] d] eqn:E.
  cbn [fst snd] in Hy.
  destruct (formatDateByPattern_text t p y m d E) as [Hex Htext].
  pose proof (existingDate_bounds _ _ _ Hex) as [Hm Hd].
  destruct (ToString_year y Hy) as (Hdig & Hne & H4).
  assert (0 <= JS.HourFromTime t < 24 ∧ 0 <= JS.MinFromTime t < 60)
    as [Hh Hmi] by (unfold JS.HourFromTime, JS.MinFromTime; zdiv).
  rewrite formatDatetimeByPattern_text, Htext in Hparse.
  rewrite (formatDatetimeByPattern_text t), Htext.
  set (hh := JS.HourFromTime t) in *. set (mi := JS.MinFromTime t) in *.
  destruct (decide (String.length (JS.ToString y) = 4%nat)) as [Hlen|Hlen].
  - specialize (H4 Hlen).
    rewrite ToString_fourDigits in Hparse |- * by done.
    rewrite (parseDateFlexible_shape_not_null _ _ y (m + 1) d hh mi 0)
      in Hparse.
    + injection Hparse as <-.
      rewrite formatDatetimeByPattern_text.
      destruct (time_of_MakeDate
                  (JS.MakeDay (JS.MakeFullYear y) (m + 1 - 1) d) hh mi Hh Hmi)
        as [-> ->].
      f_equal. rewrite <- newDate_valid by lia.
      apply formatDateByPattern_digits; [|lia..].
      apply calendarOfDate_newDate; [lia|done|].
      unfold existingTime. lia.
    + rewrite fieldsOf_known_patterns_time;
        [|done|by apply digitGroup_fourDigits; lia
         |by apply digitGroup_twoDigits; lia
         |by apply digitGroup_twoDigits; lia
         |by apply digitGroup_twoDigits; lia
         |by apply digitGroup_twoDigits; lia
         |rewrite Number_twoDigits; lia].
      by rewrite Number_fourDigits, !Number_twoDigits by lia.
  - rewrite parseDateFlexible_fields in Hparse.
    rewrite fieldsOf_year_not_4_time in Hparse; [done|done|done|done|..];
      apply digitGroup_twoDigits; lia.
Qed.


Section DateCellFacts.

Context {num : Type}.
Variable Number : string → num.
Variable props : Props.


(** X23.  Under each of the patterns "dd.mm.yyyy", "mm/dd/yyyy",
    "yyyy-mm-dd" and "dd/mm/yyyy", what a commit stores in a date or a
    datetime column is shown as it is stored, for every text committed (a
    date, with or without a time of the day, a date that [new Date]
    carried over, or no date at all); and committing the stored text again
    stores the same text. *)
Theorem displayValue_of_a_committed_date (col : ColumnDef) (raw : string) :
  isDateColumn col = true → In (dateFormat props) knownPatterns →
  displayValue props col (commitValue Number props col raw)
  = commitValue Number props col raw
  ∧ ∀ stored, commitValue Number props col raw = VString stored →
              commitValue Number props col stored = VString stored.
Proof.
  intros Hcol Hp.
  assert (isNumericColumn col = false) as Hnum.
  { unfold isDateColumn in Hcol. unfold isNumericColumn.
    by destruct (col_type col) as [[]|]. }
  assert (∀ text, displayValue props col (VString text)
                  = commitValue Number props col text) as Hsame.
  { intros text. unfold displayValue, commitValue. rewrite Hnum, Hcol.
    by destruct (parseDateFlexible text (Some (dateFormat props))). }
  assert (displayValue props col (commitValue Number props col raw)
          = commitValue Number props col raw) as Hshow.
  { unfold displayValue, commitValue. rewrite Hnum, Hcol.
    destruct (parseDateFlexible raw (Some (dateFormat props))) as [dt|]
      eqn:Hraw.
    - destruct (parseDateFlexible_year _ _ _ Hraw) as (t & -> & Hy).
      destruct (isDatetimeColumn col).
      + destruct (parseDateFlexible
                    (formatDatetimeByPattern (Some (JS.DateValue t))
                       (dateFormat props))
                    (Some (dateFormat props))) as [d'|] eqn:Hagain; [|done].
        by rewrite (formatDatetimeByPattern_again t _ d' Hp Hy Hagain).
      + destruct (parseDateFlexible
                    (formatDateByPattern (Some (JS.DateValue t))
                       (dateFormat props))
                    (Some (dateFormat props))) as [d'|] eqn:Hagain; [|done].
        by rewrite (formatDateByPattern_again t _ d' Hp Hy Hagain).
    - by rewrite Hraw. }
  split; [exact Hshow|].
  intros stored Hstored. rewrite Hstored in Hshow.
  by rewrite <- Hsame.
Qed.

End DateCellFacts.

(** ** The demo rows *)

Lemma replace_default_pattern (Y M D : string) :
  JS.replace "dd" D (JS.replace "mm" M (JS.replace "yyyy" Y "dd.mm.yyyy"))
  = D +:+ "." +:+ M +:+ "." +:+ Y.
Proof.
  assert (JS.replace "yyyy" Y "dd.mm.yyyy" = "dd.mm." +:+ Y) as ->
    by (repeat replace_step; reflexivity).
  rewrite !append_cons, append_nil.
  assert (JS.replace "mm" M
            (String "d" (String "d" (String "." (String "m" (String "m"
               (String "." Y))))))
          = "dd." +:+ (M +:+ String "." Y)) as ->
    by (repeat replace_step; reflexivity).
  rewrite !append_cons, append_nil.
  repeat replace_step. reflexivity.
Qed.

(** X24.  The dates of the demo rows are written as the grid formats
    them by default: for every date, also an invalid one, [toDMY] gives
    the text of [formatDateByPattern] under the pattern "dd.mm.yyyy". *)
Theorem toDMY_is_the_default_format (d : JS.Date) :
  toDMY d = formatDateByPattern (Some d) "dd.mm.yyyy".
Proof.
  unfold toDMY, dateDMY, pad2, formatDateByPattern.
  by rewrite replace_default_pattern.
Qed.





(* ================================================================== *)
(** * More worked examples *)
(* ================================================================== *)

(** The witness of X2: in the example only the leaf row "c" is in the
    collapse set, and all four rows are visible. *)
Lemma visibleRowIndices_no_parent_collapsed_witness :
  visibleRowIndices exampleRows {["c"]} = seq 0 (length exampleRows).
Proof.
  apply visibleRowIndices_no_parent_collapsed.
  intros p row Hp Hrow.
  apply elem_of_computeHasChildren in Hp as [Hlt Hdeeper].
  do 4 (destruct p as [|p]; [cbn in Hrow, Hdeeper; simplify_eq; cbn;
                              try lia; set_solver|]).
  done.
Defined.

(** The witness of X3: collapsing row "a" of the example. *)
Lemma visibleRowIndices_collapse_more_witness :
  visibleRowIndices exampleRows {["a"]}
  `sublist_of` visibleRowIndices exampleRows ∅.
Proof.
  apply visibleRowIndices_collapse_more. apply empty_subseteq.
Defined.

Lemma NoDup_0_3 : NoDup [0; 3]%nat.
Proof. apply (@bool_decide_unpack _ (NoDup_dec _)). vm_compute. exact I. Qed.

(** The witness of X6: Tab from the last of three columns, on the hidden
    row 2. *)
Lemma nextPosAfter_column_in_range_witness :
  0 <= pos_c (nextPosAfter [0; 3]%nat 3 2 2 right) < 3.
Proof. apply nextPosAfter_column_in_range. lia. Defined.

(** The witness of X7: with the rows 0 and 3 visible and three columns,
    Tab from the last cell of row 0 goes to the first cell of row 3, and
    Shift+Tab from there comes back. *)
Lemma nextPosAfter_opposite_moves_witness :
  ∃ r' c', nextPosAfter [0; 3]%nat 3 0 2 right
           = {| pos_r := Some r'; pos_c := c' |}
           ∧ nextPosAfter [0; 3]%nat 3 r' c' left
             = {| pos_r := Some 0; pos_c := 2 |}.
Proof.
  apply (nextPosAfter_opposite_moves [0; 3]%nat 3 0 0 2 NoDup_0_3 eq_refl
           ltac:(lia)).
  left. cbn. lia.
Defined.

(** The witness of X8: Tab on the last cell of the last visible row. *)
Lemma nextPosAfter_at_the_ends_witness :
  nextPosAfter [0; 3]%nat 3 3 2 right = {| pos_r := Some 3; pos_c := 0 |}.
Proof.
  apply (nextPosAfter_at_the_ends [0; 3]%nat 3 1 3 2 NoDup_0_3 eq_refl);
    reflexivity.
Defined.

(** The witness of X9: the first of the three example columns dropped on
    the last. *)
Lemma moveColumn_splice_witness :
  ∃ next, moveColumn exampleCols 0 2 = Some next
          ∧ next !! 2%nat = exampleCols !! 0%nat
          ∧ delete 2%nat next = delete 0%nat exampleCols
          ∧ length next = length exampleCols
          ∧ next ≡ₚ exampleCols.
Proof. apply moveColumn_splice; cbn; lia. Defined.

Lemma exampleCols_keys : NoDup (col_key <$> exampleCols).
Proof. apply (@bool_decide_unpack _ (NoDup_dec _)). vm_compute. exact I. Qed.

(** The witness of X10: the same drop with the cell (1, 0) selected; the
    selection follows the column "title" to place 2. *)
Lemma onDrop_selection_follows_columns_witness :
  ∃ s', onDrop 0 2 exampleState = Some s'
        ∧ c1 (sel s') = 2 ∧ c2 (sel s') = 2
        ∧ arrayGet (cols s') (c1 (sel s'))
          = arrayGet (cols exampleState) (c1 (sel exampleState)).
Proof.
  destruct (onDrop_selection_follows_columns exampleState 0 2)
    as (s' & Hdrop & _ & _ & _ & _ & Hc1 & _);
    [exact exampleCols_keys|cbn; lia|cbn; lia|reflexivity|cbn; lia|cbn; lia|].
  exists s'. split; [exact Hdrop|].
  assert (onDrop 0 2 exampleState = Some s') as Hd by exact Hdrop.
  vm_compute in Hd. injection Hd as <-. repeat split.
Defined.

(** The witness of X11: the text "15" committed to the cell (1, 1) of
    the example, a number column. *)
Lemma commitCellValue_writes_one_cell_witness :
  ∃ s', commitCellValue exampleNumber exampleProps 1 1 "15" false exampleState
        = Some s'
        ∧ storedValue s' 1 "value" = VNumber (Some 15)
        ∧ storedValue s' 1 "title" = storedValue exampleState 1 "title"
        ∧ storedValue s' 0 "value" = storedValue exampleState 0 "value".
Proof.
  destruct (commitCellValue_writes_one_cell exampleNumber exampleProps
              1 1 "15" false exampleState
              {| col_key := "value"; col_title := "Value";
                 col_type := Some number; col_width := None |}
              {| row_id := "b"; row_indent := 1; row_cells := 1%nat |}
              exampleState_heapClosed eq_refl eq_refl)
    as (s' & Hcommit & Hcell & Hothers & _).
  exists s'. split; [exact Hcommit|]. split; [exact Hcell|].
  split; apply Hothers; [right|left]; discriminate.
Defined.

(** The state after that commit. *)
Definition exampleCommitted : @State (option Z) :=
  default exampleState
    (commitCellValue exampleNumber exampleProps 1 1 "15" false exampleState).

(** The witness of X13: the rows the host held before that commit. *)
Lemma commitCellValue_copies_the_row_witness :
  viewRows (heap exampleCommitted) (data exampleState)
  = viewRows (heap exampleState) (data exampleState)
  ∧ (∀ l cells, heap exampleState !! l = Some cells →
                heap exampleCommitted !! l = Some cells)
  ∧ (∃ row', data exampleCommitted !! 1%nat = Some row'
             ∧ heap exampleState !! row_cells row' = None
             ∧ (∀ old, old ∈ data exampleState →
                       row_cells old ≠ row_cells row'))
  ∧ heapClosed exampleCommitted.
Proof.
  destruct (commitCellValue_copies_the_row exampleNumber exampleProps
              1 1 "15" false exampleState exampleCommitted
              exampleState_heapClosed eq_refl)
    as (Hview & Hheap & _ & Hnew & Hclosed).
  split; [exact Hview|]. split; [exact Hheap|]. split; [|exact Hclosed].
  destruct (Hnew _ eq_refl)
    as (row' & col & Hrow' & _ & _ & _ & Hfresh & Hown & _).
  exists row'. split; [exact Hrow'|]. split; [exact Hfresh|exact Hown].
Defined.

(** The witness of X15: row 1 of the example (indent 1 under a row of
    indent 0) one level out and in again. *)
Lemma indentRow_there_and_back_witness :
  data (indentRow 1 1 (indentRow 1 (-1) exampleState)) = data exampleState.
Proof.
  destruct (indentRow_there_and_back 1 exampleState
              {| row_id := "b"; row_indent := 1; row_cells := 1%nat |}
              eq_refl) as [_ Hback].
  destruct Hback as (_ & Hdata & _); [cbn; lia|exact Hdata].
Defined.

(** The witness of X17: Tab on the cell (1, 0) of the example, with all
    four rows visible. *)
Lemma onKey_navigation_witness :
  ∃ s', onKey exampleProps [0; 1; 2; 3]%nat
          {| ev_key := "Tab"; ev_altKey := false; ev_shiftKey := false;
             ev_ctrlKey := false; ev_metaKey := false |} exampleState
        = Some s'
        ∧ data s' = data exampleState ∧ editing s' = None
        ∧ r2 (sel s') = r1 (sel s') ∧ c2 (sel s') = c1 (sel s').
Proof.
  destruct (onKey_navigation exampleProps [0; 1; 2; 3]%nat
              {| ev_key := "Tab"; ev_altKey := false; ev_shiftKey := false;
                 ev_ctrlKey := false; ev_metaKey := false |} exampleState)
    as (s' & Hkey & Hdata & _ & _ & Hed & Hr & Hc & _);
    [reflexivity|reflexivity| |reflexivity|].
  - cbn. unfold navigationKeys. set_solver.
  - exists s'. repeat split; assumption.
Defined.

(** The witness of X18: Enter in the editor of the cell (1, 1) with the
    text "15". *)
Lemma onEditorKeyDown_commits_and_moves_witness :
  ∃ s', onEditorKeyDown exampleNumber exampleProps 1 1 "15"
          {| ev_key := "Enter"; ev_altKey := false; ev_shiftKey := false;
             ev_ctrlKey := false; ev_metaKey := false |} exampleEditing
        = Some s'
        ∧ storedValue s' 1 "value" = VNumber (Some 15)
        ∧ editing s' = None
        ∧ r1 (sel s') = 2 ∧ c1 (sel s') = 1.
Proof.
  destruct (onEditorKeyDown_commits_and_moves exampleNumber exampleProps
              1 1 "15"
              {| ev_key := "Enter"; ev_altKey := false; ev_shiftKey := false;
                 ev_ctrlKey := false; ev_metaKey := false |} exampleEditing
              {| col_key := "value"; col_title := "Value";
                 col_type := Some number; col_width := None |}
              {| row_id := "b"; row_indent := 1; row_cells := 1%nat |})
    as (s' & Hkey & Hcell & Hed & _ & Hr & Hc & _);
    [by left|discriminate|reflexivity|reflexivity|].
  exists s'. split; [exact Hkey|]. split; [exact Hcell|]. split; [exact Hed|].
  cbv zeta in Hr, Hc.
  assert (nextPosAfter
            (visibleRowIndices (data exampleEditing) (collapsed exampleEditing))
            (Z.of_nat (length (cols exampleEditing))) 1 1 down
          = {| pos_r := Some 2; pos_c := 1 |}) as Hnext
    by (vm_compute; reflexivity).
  cbn [String.eqb Ascii.eqb Bool.eqb ev_key ev_shiftKey] in Hr, Hc.
  rewrite Hnext in Hr, Hc. cbn [pos_r pos_c] in Hr, Hc.
  split; congruence.
Defined.

(** The witness of X19: the cells (0, 0) to (3, 1) of the example copied
    with row "a" collapsed. *)
Lemma onCopy_takes_the_visible_rows_witness :
  onCopy exampleProps
    (setSel {| r1 := 0; c1 := 0; r2 := 3; c2 := 1 |}
       (setCollapsed {["a"]} exampleState))
  = Some [ [VString "A"; VString ""]; [VString "D"; VString ""] ].
Proof.
  rewrite (onCopy_takes_the_visible_rows exampleProps
             (setSel {| r1 := 0; c1 := 0; r2 := 3; c2 := 1 |}
                (setCollapsed {["a"]} exampleState)) eq_refl ltac:(cbn; lia)).
  vm_compute. reflexivity.
Defined.




(** A datetime column. *)
Definition exampleDueColumn : ColumnDef :=
  {| col_key := "due"; col_title := "Due"; col_type := Some datetime;
     col_width := None |}.

(** The witness of X23: the text "31.02.2026 9:05", stored in a datetime
    column as the 3rd of March, five past nine. *)
Lemma displayValue_of_a_committed_date_witness :
  commitValue exampleNumber exampleProps exampleDueColumn "31.02.2026 9:05"
  = VString "03.03.2026 09:05"
  ∧ displayValue exampleProps exampleDueColumn
      (@VString (option Z) "03.03.2026 09:05")
    = VString "03.03.2026 09:05".
Proof.
  assert (commitValue exampleNumber exampleProps exampleDueColumn
            "31.02.2026 9:05"
          = VString "03.03.2026 09:05") as E by (vm_compute; reflexivity).
  destruct (displayValue_of_a_committed_date exampleNumber exampleProps
              exampleDueColumn "31.02.2026 9:05" eq_refl
              ltac:(left; reflexivity)) as [Hshow _].
  split; [exact E|]. rewrite E in Hshow. exact Hshow.
Defined.



(** The example with the cell (3, 0) selected. *)
Definition exampleLastRowSelected : @State (option Z) :=
  setSel {| r1 := 3; c1 := 0; r2 := 3; c2 := 0 |} exampleState.

(** The witness of X27: Alt+ArrowRight on row 3 of the example, which
    goes from the indent 0 to the indent 1. *)
Lemma onKeyAltArrow_indent_invariant_witness :
  row_indent <$> data (onKeyAltArrow true exampleLastRowSelected)
  = [0; 1; 2; 1]
  ∧ row_id <$> data (onKeyAltArrow true exampleLastRowSelected)
    = row_id <$> data exampleLastRowSelected
  ∧ indentInvariant (data (onKeyAltArrow true exampleLastRowSelected)).
Proof.
  pose proof (onKeyAltArrow_indent_invariant exampleLastRowSelected true)
    as H.
  cbv zeta in H. destruct H as (_ & _ & Hid & _ & _ & _ & _ & _ & Hok).
  split; [reflexivity|]. split; [exact Hid|].
  intros i Hi.
  apply (Hok exampleRows_indentInvariant); [exact Hi|by left].
Defined.
